(** * MiniMind decoder: forward pass and sampling loop (model/model.py)

    A shallow embedding of [model/model.py].  Tensors of floats are
    idealised as lists of real numbers, so every statement below is about
    exact arithmetic; rounding is not modelled.  The leading batch axis is
    treated pointwise by every tensor operation of the forward pass, so a
    batched tensor is the list of its batch entries and the per-layer cache
    of a batch is the list of the entries' caches. *)

From Stdlib Require Import Reals Lra Lia List ZArith Bool Arith PeanoNat.
From Stdlib Require Import Permutation Sorted.
Import ListNotations.

Open Scope R_scope.

(** ** Exceptions and the error monad *)

Inductive exn : Set :=
| AssertionError
| IndexError
| RuntimeError
| ZeroDivisionError.

Inductive result (A : Type) : Type :=
| Ok (a : A)
| Raise (e : exn).

Arguments Ok {A} a.
Arguments Raise {A} e.

Definition bind {A B : Type} (r : result A) (k : A -> result B) : result B :=
  match r with
  | Ok a => k a
  | Raise e => Raise e
  end.

Notation "'let*' x ':=' e 'in' k" := (bind e (fun x => k))
  (at level 10, x pattern, e at level 200, k at level 200).

Fixpoint mapM {A B : Type} (f : A -> result B) (l : list A) : result (list B) :=
  match l with
  | [] => Ok []
  | a :: t =>
      let* b := f a in
      let* bs := mapM f t in
      Ok (b :: bs)
  end.

(** ** Tensors *)

Notation vec := (list R) (only parsing).

(** [-inf] only enters through the causal mask and the top-p filter. *)
Inductive ereal : Type :=
| Fin (r : R)
| NegInf.

Definition eadd (a : R) (b : ereal) : ereal :=
  match b with
  | Fin r => Fin (a + r)
  | NegInf => NegInf
  end.

Definition eexp (a : ereal) : R :=
  match a with
  | Fin r => exp r
  | NegInf => 0
  end.

Definition is_finite (a : ereal) : bool :=
  match a with
  | Fin _ => true
  | NegInf => false
  end.

Definition Rsum (l : list R) : R := fold_right Rplus 0 l.

Definition map2 {A B C : Type} (f : A -> B -> C) (a : list A) (b : list B) : list C :=
  map (fun p => f (fst p) (snd p)) (combine a b).

Definition dot (a b : vec) : R := Rsum (map2 Rmult a b).

(** [F.softmax(x, dim=-1)] on one row. *)
Definition softmax (l : list ereal) : vec :=
  let e := map eexp l in
  map (fun x => x / Rsum e) e.

(** [torch.matmul(A, B)] for [A : s x k] and [B : k x n]. *)
Definition matmul (A : list vec) (B : list vec) (n : nat) : list vec :=
  map (fun a => map (fun c => Rsum (map2 (fun w b => w * nth c b 0) a B)) (seq 0 n)) A.

(** ** nn.Dropout

    In evaluation mode (or with [p = 0]) the layer is the identity; in
    training mode it multiplies every element by the factor drawn for it
    in this call ([0] or [1/(1-p)]), given here by the element's index. *)

Inductive Dropout : Type :=
| DropoutEval
| DropoutTrain (keep_scale : list nat -> R).

Definition mapi {A B : Type} (f : nat -> A -> B) (l : list A) : list B :=
  map (fun p => f (fst p) (snd p)) (combine (seq 0 (length l)) l).

Definition Dropout_row (d : Dropout) (idx : list nat) (row : vec) : vec :=
  match d with
  | DropoutEval => row
  | DropoutTrain ks => mapi (fun j v => v * ks (idx ++ [j])) row
  end.

Definition Dropout_forward (d : Dropout) (idx : list nat) (x : list vec) : list vec :=
  match d with
  | DropoutEval => x
  | DropoutTrain _ => mapi (fun i row => Dropout_row d (idx ++ [i]) row) x
  end.

(** ** nn.Linear (bias=False) and nn.Embedding *)

Record Linear : Type := mkLinear {
  in_features : nat;
  out_features : nat;
  weight : list vec   (* out_features rows of in_features entries *)
}.

Definition nn_Linear (n_in n_out : nat) (w : nat -> nat -> R) : Linear :=
  {| in_features := n_in;
     out_features := n_out;
     weight := map (fun j => map (w j) (seq 0 n_in)) (seq 0 n_out) |}.

Definition Linear_forward (l : Linear) (x : vec) : vec :=
  map (fun row => dot x row) (weight l).

(** ** LMConfig (the fields the model reads) *)

Record LMConfig : Type := mkLMConfig {
  dim : nat;
  n_layers : nat;
  n_heads : nat;
  n_kv_heads : option nat;
  vocab_size : nat;
  hidden_dim : option nat;
  multiple_of : nat;
  norm_eps : R;
  model_max_length : nat;
  rope_theta : R;
  dropout : Dropout
}.

(** ** RMSNorm *)

Record RMSNorm : Type := mkRMSNorm {
  eps : R;
  rms_weight : vec
}.

Definition RMSNorm_init (d : nat) (e : R) (w : nat -> R) : RMSNorm :=
  {| eps := e; rms_weight := map w (seq 0 d) |}.

Definition rsqrt (x : R) : R := 1 / sqrt x.

Definition mean (x : vec) : R := Rsum x / INR (length x).

Definition RMSNorm_forward (n : RMSNorm) (x : vec) : vec :=
  let norm_x := rsqrt (mean (map (fun v => v ^ 2) x) + eps n) in
  map2 Rmult (rms_weight n) (map (fun v => v * norm_x) x).

(** ** Rotary position encoding *)

Notation complex := (R * R)%type (only parsing).

Definition Cmul (a b : complex) : complex :=
  (fst a * fst b - snd a * snd b, fst a * snd b + snd a * fst b).

Definition Cabs (a : complex) : R := sqrt (fst a * fst a + snd a * snd a).

Definition polar (r angle : R) : complex := (r * cos angle, r * sin angle).

Definition rope_end : nat := 32 * 1024.

Definition precompute_pos_cis (d : nat) (e : nat) (theta : R) : list (list complex) :=
  let freqs := map (fun i => 1 / Rpower theta (INR (2 * i) / INR d)) (seq 0 (d / 2)) in
  map (fun t => map (fun f => polar 1 (INR t * f)) freqs) (seq 0 e).

Fixpoint view_as_complex (v : vec) : list complex :=
  match v with
  | a :: b :: t => (a, b) :: view_as_complex t
  | _ => []
  end.

Definition view_as_real (l : list complex) : vec :=
  flat_map (fun c => [fst c; snd c]) l.

(** One head vector times one row of the table. *)
Definition rotate (pc : list complex) (x : vec) : vec :=
  view_as_real (map2 Cmul (view_as_complex x) pc).

(** [x] is [seq_len x heads x head_dim]; [pos_cis] is broadcast over heads.
    [reshape(..., -1, 2)] raises on an odd last axis and [unite_shape]
    asserts that the table slice has one row per position and one column
    per coordinate pair. *)
Definition apply_rotary_emb (hd : nat) (xq xk : list (list vec)) (pos_cis : list (list complex))
  : result (list (list vec) * list (list vec)) :=
  if negb (Nat.even hd) then Raise RuntimeError
  else if negb ((length pos_cis =? length xq)%nat
                && forallb (fun row => (length row =? hd / 2)%nat) pos_cis)
       then Raise AssertionError
  else Ok (map2 (fun heads pc => map (rotate pc) heads) xq pos_cis,
           map2 (fun heads pc => map (rotate pc) heads) xk pos_cis).

(** ** Attention *)

Definition repeat_kv (x : list (list vec)) (n_rep : nat) : list (list vec) :=
  if (n_rep =? 1)%nat then x
  else map (flat_map (fun h => repeat h n_rep)) x.

Notation kv_entry := (list (list vec) * list (list vec))%type (only parsing).

Record Attention : Type := mkAttention {
  att_n_kv_heads : nat;
  n_local_heads : nat;
  n_local_kv_heads : nat;
  n_rep : nat;
  head_dim : nat;
  wq : Linear;
  wk : Linear;
  wv : Linear;
  wo : Linear;
  attn_dropout : Dropout;
  resid_dropout : Dropout;
  mask : list (list ereal)
}.

(** [torch.triu(torch.full((L, L), -inf), diagonal=1)] *)
Definition causal_mask (L : nat) : list (list ereal) :=
  map (fun i => map (fun j => if (i <? j)%nat then NegInf else Fin 0) (seq 0 L)) (seq 0 L).

Record AttentionParams : Type := mkAttentionParams {
  p_wq : nat -> nat -> R;
  p_wk : nat -> nat -> R;
  p_wv : nat -> nat -> R;
  p_wo : nat -> nat -> R
}.

Definition Attention_init (args : LMConfig) (p : AttentionParams) : result Attention :=
  let nkv := match n_kv_heads args with None => n_heads args | Some k => k end in
  if (nkv =? 0)%nat then Raise ZeroDivisionError
  else if negb (n_heads args mod nkv =? 0)%nat then Raise AssertionError
  else if (n_heads args =? 0)%nat then Raise ZeroDivisionError
  else
    let hd := (dim args / n_heads args)%nat in
    Ok {| att_n_kv_heads := nkv;
          n_local_heads := n_heads args;
          n_local_kv_heads := nkv;
          n_rep := (n_heads args / nkv)%nat;
          head_dim := hd;
          wq := nn_Linear (dim args) (n_heads args * hd) (p_wq p);
          wk := nn_Linear (dim args) (nkv * hd) (p_wk p);
          wv := nn_Linear (dim args) (nkv * hd) (p_wv p);
          wo := nn_Linear (n_heads args * hd) (dim args) (p_wo p);
          attn_dropout := dropout args;
          resid_dropout := dropout args;
          mask := causal_mask (model_max_length args) |}.

(** [v.view(n, hd)] of a vector of [n * hd] entries. *)
Definition view_heads (n hd : nat) (v : vec) : list vec :=
  map (fun h => firstn hd (skipn (h * hd) v)) (seq 0 n).

(** [x.transpose(0, 1)] of a [seq_len x n x _] tensor. *)
Definition transpose_heads (n : nat) (x : list (list vec)) : list (list vec) :=
  map (fun h => map (fun heads => nth h heads []) x) (seq 0 n).

(** [attn_weights + mask[:, :, :seq_len, :seq_len]] for one head: the
    sliced mask has [min seq_len L] rows and columns.  Broadcasting
    succeeds when both axes agree or when the slice is 1 x 1; the
    remaining broadcastable shapes pair an axis of size 1 with one of size
    0 and make the product with the values raise, so they raise here. *)
Definition add_mask (scores : list vec) (klen : nat) (msk : list (list ereal))
  : result (list (list ereal)) :=
  let ms := length msk in
  if ((ms =? length scores) && (ms =? klen))%nat then
    Ok (map2 (fun row mrow => map2 eadd row mrow) scores msk)
  else if (ms =? 1)%nat then
    Ok (map (map (fun a => eadd a (nth 0 (nth 0 msk []) NegInf))) scores)
  else Raise RuntimeError.

(** The attention probabilities of one head, before dropout. *)
Definition attn_probs (a : Attention) (seq_len : nat) (Qh Kh : list vec)
  : result (list vec) :=
  let scores := map (fun q => map (fun k => dot q k / sqrt (INR (head_dim a))) Kh) Qh in
  let msk := map (firstn seq_len) (firstn seq_len (mask a)) in
  let* w := add_mask scores (length Kh) msk in
  Ok (map softmax w).

Definition Attention_forward (a : Attention) (x : list vec) (pos_cis : list (list complex))
  (past_key_value : option kv_entry) (use_cache : bool)
  : result (list vec * option kv_entry) :=
  let seq_len := length x in
  let xq := map (fun r => view_heads (n_local_heads a) (head_dim a) (Linear_forward (wq a) r)) x in
  let xk := map (fun r => view_heads (n_local_kv_heads a) (head_dim a) (Linear_forward (wk a) r)) x in
  let xv := map (fun r => view_heads (n_local_kv_heads a) (head_dim a) (Linear_forward (wv a) r)) x in
  let* (xq, xk) := apply_rotary_emb (head_dim a) xq xk pos_cis in
  let '(xk, xv) :=
    match past_key_value with
    | Some (pk, pv) => (pk ++ xk, pv ++ xv)
    | None => (xk, xv)
    end in
  let past_kv := if use_cache then Some (xk, xv) else None in
  let q := transpose_heads (n_local_heads a) xq in
  let k := transpose_heads (n_local_heads a) (repeat_kv xk (n_rep a)) in
  let v := transpose_heads (n_local_heads a) (repeat_kv xv (n_rep a)) in
  let* heads :=
    mapM (fun '(h, (Qh, (Kh, Vh))) =>
            let* w := attn_probs a seq_len Qh Kh in
            let w := Dropout_forward (attn_dropout a) [h] w in
            Ok (matmul w Vh (head_dim a)))
         (combine (seq 0 (n_local_heads a)) (combine q (combine k v))) in
  let output := map (fun i => concat (map (fun o => nth i o []) heads)) (seq 0 seq_len) in
  let output := Dropout_forward (resid_dropout a) [] (map (Linear_forward (wo a)) output) in
  Ok (output, past_kv).

(** ** FeedForward *)

Record FeedForward : Type := mkFeedForward {
  w1 : Linear;
  w2 : Linear;
  w3 : Linear;
  ffn_dropout : Dropout
}.

Record FeedForwardParams : Type := mkFeedForwardParams {
  p_w1 : nat -> nat -> R;
  p_w2 : nat -> nat -> R;
  p_w3 : nat -> nat -> R
}.

(** The width chosen when [config.hidden_dim is None]; [int(2 * h / 3)]
    truncates the float quotient, which for non-negative [h] is the floor. *)
Definition default_hidden_dim (d m : nat) : nat :=
  let hidden := (4 * d)%nat in
  let hidden := (2 * hidden / 3)%nat in
  (m * ((hidden + m - 1) / m))%nat.

(** [__init__] writes the chosen width back into the shared config. *)
Definition FeedForward_init (config : LMConfig) (p : FeedForwardParams)
  : result (FeedForward * LMConfig) :=
  let* config :=
    match hidden_dim config with
    | Some _ => Ok config
    | None =>
        if (multiple_of config =? 0)%nat then Raise ZeroDivisionError
        else Ok {| dim := dim config;
                   n_layers := n_layers config;
                   n_heads := n_heads config;
                   n_kv_heads := n_kv_heads config;
                   vocab_size := vocab_size config;
                   hidden_dim := Some (default_hidden_dim (dim config) (multiple_of config));
                   multiple_of := multiple_of config;
                   norm_eps := norm_eps config;
                   model_max_length := model_max_length config;
                   rope_theta := rope_theta config;
                   dropout := dropout config |}
    end in
  let hd := match hidden_dim config with Some h => h | None => 0%nat end in
  Ok ({| w1 := nn_Linear (dim config) hd (p_w1 p);
         w2 := nn_Linear hd (dim config) (p_w2 p);
         w3 := nn_Linear (dim config) hd (p_w3 p);
         ffn_dropout := dropout config |}, config).

Definition sigmoid (x : R) : R := 1 / (1 + exp (- x)).

Definition silu (x : R) : R := x * sigmoid x.

Definition FeedForward_forward (f : FeedForward) (x : list vec) : list vec :=
  let a := map (map silu) (map (Linear_forward (w1 f)) x) in
  let b := map (Linear_forward (w3 f)) x in
  Dropout_forward (ffn_dropout f) []
    (map (Linear_forward (w2 f)) (map2 (map2 Rmult) a b)).

(** ** MiniMindBlock *)

Record MiniMindBlock : Type := mkMiniMindBlock {
  layer_id : nat;
  attention : Attention;
  attention_norm : RMSNorm;
  ffn_norm : RMSNorm;
  feed_forward : FeedForward
}.

Record BlockParams : Type := mkBlockParams {
  p_attention : AttentionParams;
  p_attention_norm : nat -> R;
  p_ffn_norm : nat -> R;
  p_feed_forward : FeedForwardParams
}.

Definition MiniMindBlock_init (id : nat) (config : LMConfig) (p : BlockParams)
  : result (MiniMindBlock * LMConfig) :=
  let* att := Attention_init config (p_attention p) in
  let an := RMSNorm_init (dim config) (norm_eps config) (p_attention_norm p) in
  let fn := RMSNorm_init (dim config) (norm_eps config) (p_ffn_norm p) in
  let* (ff, config') := FeedForward_init config (p_feed_forward p) in
  Ok ({| layer_id := id;
         attention := att;
         attention_norm := an;
         ffn_norm := fn;
         feed_forward := ff |}, config').

Definition tadd (a b : list vec) : list vec := map2 (map2 Rplus) a b.

Definition MiniMindBlock_forward (b : MiniMindBlock) (x : list vec)
  (pos_cis : list (list complex)) (past_key_value : option kv_entry) (use_cache : bool)
  : result (list vec * option kv_entry) :=
  let* (h_attn, past_kv) :=
    Attention_forward (attention b) (map (RMSNorm_forward (attention_norm b)) x)
      pos_cis past_key_value use_cache in
  let h := tadd x h_attn in
  let out := tadd h (FeedForward_forward (feed_forward b) (map (RMSNorm_forward (ffn_norm b)) h)) in
  Ok (out, past_kv).

(** ** MiniMindLM *)

Record MiniMindLM : Type := mkMiniMindLM {
  params : LMConfig;
  tok_embeddings : list vec;   (* the weight of nn.Embedding *)
  lm_dropout : Dropout;
  layers : list MiniMindBlock;
  norm : RMSNorm;
  output : Linear;
  pos_cis : list (list complex)
}.

Record ModelParams : Type := mkModelParams {
  p_layers : nat -> BlockParams;
  p_norm : nat -> R;
  p_output : nat -> nat -> R
}.

Fixpoint init_layers (ids : list nat) (config : LMConfig) (p : nat -> BlockParams)
  : result (list MiniMindBlock * LMConfig) :=
  match ids with
  | [] => Ok ([], config)
  | id :: rest =>
      let* (b, config) := MiniMindBlock_init id config (p id) in
      let* (bs, config) := init_layers rest config p in
      Ok (b :: bs, config)
  end.

(** [tok_embeddings.weight = output.weight]: one tensor, two readers. *)
Definition MiniMindLM_init (config : LMConfig) (p : ModelParams) : result MiniMindLM :=
  let* (ls, config') := init_layers (seq 0 (n_layers config)) config (p_layers p) in
  let out := nn_Linear (dim config') (vocab_size config') (p_output p) in
  if (n_heads config' =? 0)%nat then Raise ZeroDivisionError
  else
    Ok {| params := config';
          tok_embeddings := weight out;
          lm_dropout := dropout config';
          layers := ls;
          norm := RMSNorm_init (dim config') (norm_eps config') (p_norm p);
          output := out;
          pos_cis := precompute_pos_cis (dim config' / n_heads config') rope_end
                       (rope_theta config') |}.

Definition Embedding_forward (w : list vec) (t : Z) : result vec :=
  if (t <? 0)%Z then Raise IndexError
  else match nth_error w (Z.to_nat t) with
       | Some row => Ok row
       | None => Raise IndexError
       end.

Fixpoint run_layers (ls : list MiniMindBlock) (layer_idx : nat) (h : list vec)
  (pc : list (list complex)) (past_key_values : list (option kv_entry)) (use_cache : bool)
  (past_kvs : list (option kv_entry))
  : result (list vec * list (option kv_entry)) :=
  match ls with
  | [] => Ok (h, past_kvs)
  | layer :: rest =>
      let* past :=
        match nth_error past_key_values layer_idx with
        | Some p => Ok p
        | None => Raise IndexError
        end in
      let* (h, past_kv) := MiniMindBlock_forward layer h pc past use_cache in
      run_layers rest (S layer_idx) h pc past_key_values use_cache (past_kvs ++ [past_kv])
  end.

(** [forward] on one batch entry. *)
Definition MiniMindLM_forward1 (m : MiniMindLM) (input_ids : list Z)
  (past_key_values : option (list (option kv_entry))) (use_cache : bool) (start_pos : nat)
  : result (list vec * list (option kv_entry)) :=
  let past_key_values :=
    match past_key_values with
    | Some (p :: ps) => p :: ps
    | _ => repeat None (length (layers m))
    end in
  let* h := mapM (Embedding_forward (tok_embeddings m)) input_ids in
  let h := Dropout_forward (lm_dropout m) [] h in
  let pc := firstn (length input_ids) (skipn start_pos (pos_cis m)) in
  let* (h, past_kvs) := run_layers (layers m) 0 h pc past_key_values use_cache [] in
  let logits := map (Linear_forward (output m)) (map (RMSNorm_forward (norm m)) h) in
  Ok (logits, past_kvs).

Notation batch_cache := (list (list (option kv_entry))) (only parsing).

Definition MiniMindLM_forward (m : MiniMindLM) (input_ids : list (list Z))
  (past_key_values : option batch_cache) (use_cache : bool) (start_pos : nat)
  : result (list (list vec) * batch_cache) :=
  let pasts :=
    match past_key_values with
    | None => map (fun _ => None) input_ids
    | Some l => map Some l
    end in
  let* outs :=
    mapM (fun '(ids, p) => MiniMindLM_forward1 m ids p use_cache start_pos)
         (combine input_ids pasts) in
  Ok (map fst outs, map snd outs).

(** ** generate *)

Fixpoint update_nth {A : Type} (n : nat) (v : A) (l : list A) : list A :=
  match l, n with
  | [], _ => []
  | _ :: t, O => v :: t
  | h :: t, S n' => h :: update_nth n' v t
  end.

Definition modify_nth {A : Type} (n : nat) (f : A -> A) (l : list A) : list A :=
  match nth_error l n with
  | Some a => update_nth n (f a) l
  | None => l
  end.

Definition enumerate {A : Type} (l : list A) : list (nat * A) :=
  combine (seq 0 (length l)) l.

(** [row[list(tokens)] *= rp_factor]: the entries whose index is in the set. *)
Definition penalize (rp_factor : R) (tokens : list Z) (row : vec) : vec :=
  mapi (fun v x => if existsb (Z.eqb (Z.of_nat v)) tokens then x * rp_factor else x) row.

(** The repetition-penalty block: [seen_tokens] keeps the active rows only
    and the loop indexes [logits] by the position in that filtered list. *)
Definition repetition_penalty (rp_factor : R) (out : list (list Z)) (active_mask : list bool)
  (cur_pos : nat) (logits : list vec) : list vec :=
  let seen_tokens :=
    map (fun p => firstn cur_pos (fst p))
        (filter (fun p => snd p) (combine out active_mask)) in
  fold_left (fun lg p => modify_nth (fst p) (penalize rp_factor (snd p)) lg)
            (enumerate seen_tokens) logits.

(** [torch.sort(row, descending=True)]: the indices, by insertion. *)
Fixpoint insert_desc (p : nat * R) (l : list (nat * R)) : list (nat * R) :=
  match l with
  | [] => [p]
  | q :: t => if Rlt_dec (snd q) (snd p) then p :: q :: t else q :: insert_desc p t
  end.

Definition sort_desc (row : vec) : list (nat * R) :=
  fold_right insert_desc [] (enumerate row).

Fixpoint cumsum_from (acc : R) (l : vec) : vec :=
  match l with
  | [] => []
  | x :: t => (acc + x) :: cumsum_from (acc + x) t
  end.

Definition cumsum (l : vec) : vec := cumsum_from 0 l.

(** [m[..., 1:] = m[..., :-1].clone(); m[..., 0] = False] *)
Definition shift_right (m : list bool) : result (list bool) :=
  match m with
  | [] => Raise IndexError
  | _ :: _ => Ok (false :: removelast m)
  end.

(** [base.scatter(-1, index, src)] on one row. *)
Definition scatter (base : list bool) (index : list nat) (src : list bool) : list bool :=
  fold_left (fun acc p => update_nth (fst p) (snd p) acc) (combine index src) base.

Definition top_p_mask (top_p : R) (sorted : list (nat * R)) : result (list bool) :=
  let sorted_logits := map snd sorted in
  let sorted_indices := map fst sorted in
  let sorted_probs := softmax (map Fin sorted_logits) in
  let cumulative_probs := cumsum sorted_probs in
  let sorted_indices_to_remove :=
    map (fun c => if Rlt_dec top_p c then true else false) cumulative_probs in
  let* sorted_indices_to_remove := shift_right sorted_indices_to_remove in
  Ok (scatter sorted_indices_to_remove sorted_indices sorted_indices_to_remove).

Definition top_p_filter (top_p : R) (row : vec) : result (list ereal) :=
  let* indices_to_remove := top_p_mask top_p (sort_desc row) in
  Ok (map2 (fun x (rm : bool) => if rm then NegInf else Fin x) row indices_to_remove).

(** The top-p block of the loop body on the batch of logits. *)
Definition top_p_step (top_p : R) (logits : list vec) : result (list (list ereal)) :=
  if Rlt_dec top_p 1 then mapM (top_p_filter top_p) logits
  else Ok (map (map Fin) logits).

Record GenerationState : Type := mkGenerationState {
  gen_output : list (list Z);
  active_mask : list bool;
  eos_reached : list bool;
  past_key_values : option batch_cache;
  start_pos : nat
}.

Definition size1 (input_ids : list (list Z)) : nat :=
  match input_ids with
  | [] => O
  | r :: _ => length r
  end.

Definition any (m : list bool) : bool := existsb (fun b => b) m.

Definition last_row (l : list vec) : result vec :=
  match nth_error l (length l - 1) with
  | Some r => Ok r
  | None => Raise IndexError
  end.

Section Generate.

Variable self : MiniMindLM.

(** [torch.multinomial(probs, 1)]: the token drawn at a decode position
    for a batch row from its probabilities. *)
Variable multinomial : nat -> nat -> vec -> Z.

Variables (eos_token_id : Z) (temperature top_p rp : R) (use_cache : bool).

Definition inv_temp : R := 1 / (temperature + 1 / 10 ^ 9).

Definition rp_factor : R := 1 / rp.

(** One iteration of the loop body after the first [any] test. *)
Definition generate_step (cur_pos : nat) (st : GenerationState) : result GenerationState :=
  let '(model_inputs, start) :=
    match past_key_values st with
    | None => (map (firstn cur_pos) (gen_output st), O)
    | Some _ => (map (fun r => firstn 1 (skipn (cur_pos - 1) r)) (gen_output st),
                 (cur_pos - 1)%nat)
    end in
  let* out :=
    MiniMindLM_forward self model_inputs (past_key_values st) use_cache start in
  let* logits := mapM last_row (fst out) in
  let logits := map (map (fun x => x * inv_temp)) logits in
  let logits :=
    if Req_dec_T rp 1 then logits
    else repetition_penalty rp_factor (gen_output st) (active_mask st) cur_pos logits in
  let* logits := top_p_step top_p logits in
  let probs := map softmax logits in
  let next_tokens := mapi (multinomial cur_pos) probs in
  let rows := combine (gen_output st) (combine (active_mask st) next_tokens) in
  let out' :=
    map (fun p : list Z * (bool * Z) =>
           if fst (snd p) then update_nth cur_pos (snd (snd p)) (fst p) else fst p)
        rows in
  let flags := combine (eos_reached st) (combine (active_mask st) next_tokens) in
  let eos' :=
    map (fun p : bool * (bool * Z) =>
           if fst (snd p) then Z.eqb (snd (snd p)) eos_token_id else fst p)
        flags in
  Ok {| gen_output := out';
        active_mask := map negb eos';
        eos_reached := eos';
        past_key_values := Some (snd out);
        start_pos := start |}.

Fixpoint generate_loop (positions : list nat) (st : GenerationState)
  : result GenerationState :=
  match positions with
  | [] => Ok st
  | cur_pos :: rest =>
      if negb (any (active_mask st)) then Ok st
      else
        let* st' := generate_step cur_pos st in
        if negb (any (active_mask st')) then Ok st'
        else generate_loop rest st'
  end.

Definition generate_init (input_ids : list (list Z)) (max_new_tokens : nat) (pad_token_id : Z)
  : GenerationState :=
  let batch_size := length input_ids in
  let seq_length := size1 input_ids in
  let max_seq_len := (seq_length + max_new_tokens)%nat in
  let full := repeat (repeat pad_token_id max_seq_len) batch_size in
  {| gen_output := map2 (fun row ids => ids ++ skipn seq_length row) full input_ids;
     active_mask := repeat true batch_size;
     eos_reached := repeat false batch_size;
     past_key_values := None;
     start_pos := O |}.

Definition generate_state (input_ids : list (list Z)) (max_new_tokens : nat)
  (pad_token_id : Z) : result GenerationState :=
  generate_loop (seq (size1 input_ids) max_new_tokens)
    (generate_init input_ids max_new_tokens pad_token_id).

Definition generate (input_ids : list (list Z)) (max_new_tokens : nat) (pad_token_id : Z)
  : result (list (list Z)) :=
  let* st := generate_state input_ids max_new_tokens pad_token_id in
  Ok (gen_output st).

End Generate.

(** ** Auxiliary definitions used by the statements *)

(** What one loop iteration does to the state, row by row. *)
Definition write_row (cur_pos : nat) (p : list Z * (bool * Z)) : list Z :=
  if fst (snd p) then update_nth cur_pos (snd (snd p)) (fst p) else fst p.

Definition flag_row (eos_token_id : Z) (p : bool * (bool * Z)) : bool :=
  if fst (snd p) then Z.eqb (snd (snd p)) eos_token_id else fst p.

(** The per-row invariant of the decode loop before position [cur_pos]:
    [s] is the prompt length, [T] the buffer width. *)
Definition row_ok (s T : nat) (pad eos : Z) (cur_pos : nat) (row : list Z) (act : bool)
  (ids : list Z) : Prop :=
  length row = T
  /\ (forall q, (cur_pos <= q < T)%nat -> nth_error row q = Some pad)
  /\ (act = true -> forall p, (s <= p < cur_pos)%nat -> nth_error row p <> Some eos)
  /\ (forall p q, (s <= p < q)%nat -> (q < T)%nat ->
        nth_error row p = Some eos -> nth_error row q = Some pad)
  /\ firstn s row = ids.

Definition gen_inv (input_ids : list (list Z)) (s T : nat) (pad eos : Z) (cur_pos : nat)
  (st : GenerationState) : Prop :=
  length (gen_output st) = length input_ids
  /\ length (eos_reached st) = length input_ids
  /\ (forall c, past_key_values st = Some c -> length c = length input_ids)
  /\ active_mask st = map negb (eos_reached st)
  /\ (forall i row a ids,
        nth_error (gen_output st) i = Some row ->
        nth_error (active_mask st) i = Some a ->
        nth_error input_ids i = Some ids ->
        row_ok s T pad eos cur_pos row a ids).

(** The projections of one position inside [Attention.forward]. *)
Definition q_row (a : Attention) (pc : list complex) (x : vec) : list vec :=
  map (rotate pc) (view_heads (n_local_heads a) (head_dim a) (Linear_forward (wq a) x)).

Definition k_row (a : Attention) (pc : list complex) (x : vec) : list vec :=
  map (rotate pc) (view_heads (n_local_kv_heads a) (head_dim a) (Linear_forward (wk a) x)).

Definition v_row (a : Attention) (x : vec) : list vec :=
  view_heads (n_local_kv_heads a) (head_dim a) (Linear_forward (wv a) x).

(** One query of one head against the keys and values of that head, with
    the mask row [mrow] added to the scores. *)
Definition head_out (hd : nat) (q : vec) (Kh Vh : list vec) (mrow : list ereal) : vec :=
  let p := softmax (map2 eadd (map (fun k => dot q k / sqrt (INR hd)) Kh) mrow) in
  map (fun c => Rsum (map2 (fun w b => w * nth c b 0) p Vh)) (seq 0 hd).

(** The heads of one query position, concatenated (the input of [wo]). *)
Definition attn_row (a : Attention) (q : list vec) (K V : list (list vec))
  (mrow : list ereal) : vec :=
  concat (map (fun h =>
                 head_out (head_dim a) (nth h q [])
                   (map (fun hs => nth h hs []) (repeat_kv K (n_rep a)))
                   (map (fun hs => nth h hs []) (repeat_kv V (n_rep a)))
                   mrow)
              (seq 0 (n_local_heads a))).

(** Query [i] of a pass without cache sees the keys [0..i] only. *)
Definition causal_row (a : Attention) (Q K V : list (list vec)) (i : nat) : vec :=
  attn_row a (nth i Q []) (firstn (S i) K) (firstn (S i) V) (repeat (Fin 0) (S i)).

(** The keys and values a pass over [x] computes (and caches). *)
Definition attn_kv (a : Attention) (pc : list (list complex)) (x : list vec)
  : list (list vec) * list (list vec) :=
  (map2 (fun xr p => k_row a p xr) x pc, map (v_row a) x).

(** The result of [Attention.forward] without cache, when it returns. *)
Definition attn_pure (a : Attention) (pc : list (list complex)) (x : list vec) : list vec :=
  let Q := map2 (fun xr p => q_row a p xr) x pc in
  map (Linear_forward (wo a))
      (map (causal_row a Q (fst (attn_kv a pc x)) (snd (attn_kv a pc x))) (seq 0 (length x))).

(** The result of [Attention.forward] on one new position [y] with the
    cache [kv], when it returns. *)
Definition attn_step (a : Attention) (p : list complex) (y : vec)
  (kv : list (list vec) * list (list vec)) : vec :=
  Linear_forward (wo a)
    (attn_row a (q_row a p y) (fst kv ++ [k_row a p y]) (snd kv ++ [v_row a y])
       (repeat (Fin 0) (S (length (fst kv))))).

(** What [Attention.__init__] fixes, with dropout disabled. *)
Definition att_ok (L : nat) (a : Attention) : Prop :=
  mask a = causal_mask L
  /\ attn_dropout a = DropoutEval
  /\ resid_dropout a = DropoutEval.

(** [FeedForward.forward] on one position, before dropout. *)
Definition ffn_row (f : FeedForward) (x : vec) : vec :=
  Linear_forward (w2 f)
    (map2 Rmult (map silu (Linear_forward (w1 f) x)) (Linear_forward (w3 f) x)).

(** The two residual additions of a block on one position, given the
    attention output [ar] of that position. *)
Definition block_post (b : MiniMindBlock) (xr ar : vec) : vec :=
  let h := map2 Rplus xr ar in
  map2 Rplus h (ffn_row (feed_forward b) (RMSNorm_forward (ffn_norm b) h)).

Definition block_pure (b : MiniMindBlock) (pc : list (list complex)) (x : list vec)
  : list vec :=
  map2 (block_post b) x
    (attn_pure (attention b) pc (map (RMSNorm_forward (attention_norm b)) x)).

Definition block_kv (b : MiniMindBlock) (pc : list (list complex)) (x : list vec)
  : list (list vec) * list (list vec) :=
  attn_kv (attention b) pc (map (RMSNorm_forward (attention_norm b)) x).

Definition block_step (b : MiniMindBlock) (p : list complex) (y : vec)
  (kv : list (list vec) * list (list vec)) : vec :=
  block_post b y (attn_step (attention b) p (RMSNorm_forward (attention_norm b) y) kv).

Definition block_step_kv (b : MiniMindBlock) (p : list complex) (y : vec)
  (kv : list (list vec) * list (list vec)) : list (list vec) * list (list vec) :=
  (fst kv ++ [k_row (attention b) p (RMSNorm_forward (attention_norm b) y)],
   snd kv ++ [v_row (attention b) (RMSNorm_forward (attention_norm b) y)]).

Definition block_ok (L hd : nat) (b : MiniMindBlock) : Prop :=
  att_ok L (attention b)
  /\ head_dim (attention b) = hd
  /\ ffn_dropout (feed_forward b) = DropoutEval.

(** The layer stack on a whole sequence, its caches, and one cached step. *)
Fixpoint stack_pure (ls : list MiniMindBlock) (pc : list (list complex)) (x : list vec)
  : list vec :=
  match ls with
  | [] => x
  | l :: r => stack_pure r pc (block_pure l pc x)
  end.

Fixpoint stack_kvs (ls : list MiniMindBlock) (pc : list (list complex)) (x : list vec)
  : list (list (list vec) * list (list vec)) :=
  match ls with
  | [] => []
  | l :: r => block_kv l pc x :: stack_kvs r pc (block_pure l pc x)
  end.

Fixpoint stack_step (ls : list MiniMindBlock) (p : list complex) (y : vec)
  (kvs : list (list (list vec) * list (list vec))) : vec :=
  match ls, kvs with
  | l :: r, kv :: kvr => stack_step r p (block_step l p y kv) kvr
  | _, _ => y
  end.

Fixpoint stack_step_kvs (ls : list MiniMindBlock) (p : list complex) (y : vec)
  (kvs : list (list (list vec) * list (list vec)))
  : list (list (list vec) * list (list vec)) :=
  match ls, kvs with
  | l :: r, kv :: kvr => block_step_kv l p y kv :: stack_step_kvs r p (block_step l p y kv) kvr
  | _, _ => []
  end.

(** [self.output(self.norm(h))] *)
Definition logits_of (m : MiniMindLM) (h : list vec) : list vec :=
  map (Linear_forward (output m)) (map (RMSNorm_forward (norm m)) h).

(** What [MiniMindLM.__init__] fixes, with dropout disabled. *)
Definition model_ok (cfg : LMConfig) (m : MiniMindLM) : Prop :=
  Forall (block_ok (model_max_length cfg) (dim cfg / n_heads cfg)) (layers m)
  /\ lm_dropout m = DropoutEval
  /\ length (tok_embeddings m) = vocab_size cfg
  /\ length (pos_cis m) = rope_end
  /\ Forall (fun row => length row = (dim cfg / n_heads cfg / 2)%nat) (pos_cis m).

Definition cache_entry (uc : bool) (kv : list (list vec) * list (list vec))
  : option kv_entry :=
  if uc then Some kv else None.



(** The embeddings of a row whose tokens are all in range. *)
Definition embed_pure (m : MiniMindLM) (toks : list Z) : list vec :=
  map (fun t => nth (Z.to_nat t) (tok_embeddings m) []) toks.

(** The hidden states and the caches of a pass over the first [k]
    positions of a row, when it returns. *)
Definition row_full (m : MiniMindLM) (r : list Z) (k : nat) : list vec :=
  stack_pure (layers m) (firstn k (pos_cis m)) (firstn k (embed_pure m r)).

Definition row_kvs (m : MiniMindLM) (r : list Z) (k : nat)
  : list (list (list vec) * list (list vec)) :=
  stack_kvs (layers m) (firstn k (pos_cis m)) (firstn k (embed_pure m r)).

(** What a returning pass over a row implies about the row. *)
Definition row_cond (cfg : LMConfig) (m : MiniMindLM) (r : list Z) : Prop :=
  mapM (Embedding_forward (tok_embeddings m)) r = Ok (embed_pure m r)
  /\ (layers m <> [] ->
      Nat.even (dim cfg / n_heads cfg) = true /\ (length r <= rope_end)%nat).

(** Token ids the embedding accepts. *)
Definition valid_token (vocab : nat) (t : Z) : Prop := (0 <= t < Z.of_nat vocab)%Z.

(** The cache of a batch after a pass with [use_cache]: every entry holds
    one key/value pair per layer. *)
Definition cache_wf (m : MiniMindLM) (c : list (list (option kv_entry))) : Prop :=
  Forall (fun rc => exists kvs : list (list (list vec) * list (list vec)),
                      rc = map Some kvs /\ length kvs = length (layers m)) c.

(** ** A small configuration for the examples *)

Definition example_config (L : nat) : LMConfig :=
  {| dim := 2;
     n_layers := 1;
     n_heads := 1;
     n_kv_heads := None;
     vocab_size := 4;
     hidden_dim := None;
     multiple_of := 2;
     norm_eps := / 100000;
     model_max_length := L;
     rope_theta := 1000000;
     dropout := DropoutEval |}.

Definition example_params : ModelParams :=
  {| p_layers := fun _ =>
       {| p_attention := {| p_wq := fun i j => INR (i + j);
                            p_wk := fun _ _ => 1;
                            p_wv := fun i _ => INR i;
                            p_wo := fun _ _ => 1 |};
          p_attention_norm := fun _ => 1;
          p_ffn_norm := fun _ => 1;
          p_feed_forward := {| p_w1 := fun _ _ => 1;
                               p_w2 := fun _ j => INR j;
                               p_w3 := fun _ _ => 1 |} |};
     p_norm := fun _ => 1;
     p_output := fun i j => INR (i + j) |}.

(** A sampler that ends row 0 at once (token 2) and keeps drawing 3 for
    the other rows. *)
Definition example_sampler (cur_pos i : nat) : Z :=
  if (i =? 0)%nat then 2%Z else 3%Z.

(** A sampler that always draws token 3. *)
Definition constant_sampler (cur_pos i : nat) : Z := 3%Z.

(** The magnitudes of the adjacent coordinate pairs of every head vector
    of a [seq_len x heads x head_dim] tensor. *)
Definition pair_magnitudes (x : list (list vec)) : list (list vec) :=
  map (map (fun v => map Cabs (view_as_complex v))) x.

(** The default width in the spec's words, [round_up_to_multiple(2/3 * 4 *
    width, multiple)]: the least multiple of [m] that is at least the
    rational number [8 d / 3]. *)
Definition spec_hidden_dim (d m : nat) : nat := (m * ((8 * d + 3 * m - 1) / (3 * m)))%nat.

Definition narrow_config : LMConfig :=
  {| dim := 4;
     n_layers := 1;
     n_heads := 1;
     n_kv_heads := None;
     vocab_size := 4;
     hidden_dim := None;
     multiple_of := 2;
     norm_eps := / 100000;
     model_max_length := 8;
     rope_theta := 1000000;
     dropout := DropoutEval |}.

(** * Properties *)

(** ** The generation loop: output buffer *)




Lemma mapM_length (A B : Type) (f : A -> result B) (l : list A) (l' : list B) :
  mapM f l = Ok l' -> length l' = length l.
Proof.
  revert l'; induction l as [|a t IH]; intros l' H; cbn in H.
  - injection H as <-. reflexivity.
  - destruct (f a) as [b|e]; cbn in H; [|discriminate].
    destruct (mapM f t) as [bs|e]; cbn in H; [|discriminate].
    injection H as <-. cbn. f_equal. apply IH. reflexivity.
Qed.

Lemma update_nth_length (A : Type) (n : nat) (v : A) (l : list A) :
  length (update_nth n v l) = length l.
Proof.
  revert n; induction l as [|h t IH]; intros [|n]; cbn; auto.
Qed.

Lemma modify_nth_length (A : Type) (n : nat) (f : A -> A) (l : list A) :
  length (modify_nth n f l) = length l.
Proof.
  unfold modify_nth. destruct (nth_error l n); auto using update_nth_length.
Qed.

Lemma mapi_length (A B : Type) (f : nat -> A -> B) (l : list A) :
  length (mapi f l) = length l.
Proof.
  unfold mapi. rewrite length_map, length_combine, length_seq. lia.
Qed.

Lemma map2_length (A B C : Type) (f : A -> B -> C) (a : list A) (b : list B) :
  length (map2 f a b) = Nat.min (length a) (length b).
Proof.
  unfold map2. rewrite length_map, length_combine. reflexivity.
Qed.

Lemma repetition_penalty_length (f : R) (out : list (list Z)) (act : list bool)
  (cur_pos : nat) (logits : list vec) :
  length (repetition_penalty f out act cur_pos logits) = length logits.
Proof.
  unfold repetition_penalty.
  generalize (enumerate (map (fun p : list Z * bool => firstn cur_pos (fst p))
                           (filter (fun p => snd p) (combine out act)))) as l.
  intro l; revert logits; induction l as [|p t IH]; intro logits; cbn.
  - reflexivity.
  - rewrite IH. apply modify_nth_length.
Qed.

Lemma MiniMindLM_forward_length (m : MiniMindLM) (ids : list (list Z))
  (past : option batch_cache) (uc : bool) (start : nat) out :
  MiniMindLM_forward m ids past uc start = Ok out ->
  (forall c, past = Some c -> length c = length ids) ->
  length (fst out) = length ids /\ length (snd out) = length ids.
Proof.
  unfold MiniMindLM_forward. intros H Hc.
  match type of H with bind (mapM ?f ?l) _ = _ => destruct (mapM f l) as [outs|e] eqn:E end;
    cbn in H; [|discriminate].
  injection H as <-. cbn [fst snd]. rewrite !length_map.
  apply mapM_length in E. rewrite E, length_combine.
  destruct past as [c|].
  - rewrite length_map, (Hc c eq_refl). lia.
  - rewrite length_map. lia.
Qed.

Lemma generate_step_rows
  (self : MiniMindLM) (multinomial : nat -> nat -> vec -> Z) (eos_token_id : Z)
  (temperature top_p rp : R) (use_cache : bool) (cur_pos : nat) (st st' : GenerationState)
  (B : nat) :
  generate_step self multinomial eos_token_id temperature top_p rp use_cache cur_pos st = Ok st' ->
  length (gen_output st) = B ->
  (forall c, past_key_values st = Some c -> length c = B) ->
  exists next_tokens c',
    length next_tokens = B
    /\ gen_output st' = map (write_row cur_pos)
                          (combine (gen_output st) (combine (active_mask st) next_tokens))
    /\ eos_reached st' = map (flag_row eos_token_id)
                           (combine (eos_reached st) (combine (active_mask st) next_tokens))
    /\ active_mask st' = map negb (eos_reached st')
    /\ past_key_values st' = Some c'
    /\ length c' = B.
Proof.
  intros H HB Hc. unfold generate_step in H.
  set (inputs := match past_key_values st with
                 | None => (map (firstn cur_pos) (gen_output st), O)
                 | Some _ => (map (fun r => firstn 1 (skipn (cur_pos - 1) r)) (gen_output st),
                              (cur_pos - 1)%nat)
                 end) in H.
  assert (Hin : length (fst inputs) = B).
  { unfold inputs; destruct (past_key_values st); cbn [fst]; rewrite length_map; exact HB. }
  destruct inputs as [model_inputs start]. cbn [fst] in Hin.
  destruct (MiniMindLM_forward self model_inputs (past_key_values st) use_cache start)
    as [out|e] eqn:Efwd; cbn [bind] in H; [|discriminate].
  apply MiniMindLM_forward_length in Efwd;
    [|intros c Hs; rewrite (Hc c Hs); symmetry; exact Hin].
  destruct Efwd as [Hl1 Hl2].
  destruct (mapM last_row (fst out)) as [logits|e] eqn:Elast; cbn [bind] in H; [|discriminate].
  apply mapM_length in Elast.
  match type of H with
  | bind ?top _ = _ => destruct top as [logits'|e] eqn:Etop; cbn [bind] in H; [|discriminate]
  end.
  assert (Hlg : length logits' = B).
  { unfold top_p_step in Etop. destruct (Rlt_dec top_p 1).
    - apply mapM_length in Etop. rewrite Etop.
      destruct (Req_dec_T rp 1);
        [|rewrite repetition_penalty_length]; rewrite length_map; lia.
    - injection Etop as <-. rewrite length_map.
      destruct (Req_dec_T rp 1);
        [|rewrite repetition_penalty_length]; rewrite length_map; lia. }
  injection H as <-. cbn [gen_output eos_reached active_mask past_key_values].
  eexists. exists (snd out).
  split; [|split; [reflexivity|split; [reflexivity|split; [reflexivity|split; [reflexivity|]]]]].
  - rewrite mapi_length, length_map. exact Hlg.
  - lia.
Qed.

Lemma nth_error_combine (A B : Type) (a : list A) (b : list B) (i : nat) :
  nth_error (combine a b) i =
  match nth_error a i, nth_error b i with
  | Some x, Some y => Some (x, y)
  | _, _ => None
  end.
Proof.
  revert b i; induction a as [|x a IH]; intros [|y b] [|i]; cbn; auto.
  destruct (nth_error a i); reflexivity.
Qed.

Lemma nth_error_update_nth_eq (A : Type) (n : nat) (v : A) (l : list A) :
  (n < length l)%nat -> nth_error (update_nth n v l) n = Some v.
Proof.
  revert n; induction l as [|h t IH]; intros [|n] H; cbn in *; try lia; auto.
  apply IH; lia.
Qed.

Lemma nth_error_update_nth_neq (A : Type) (n k : nat) (v : A) (l : list A) :
  n <> k -> nth_error (update_nth n v l) k = nth_error l k.
Proof.
  revert n k; induction l as [|h t IH]; intros [|n] [|k] H; cbn; auto; try lia.
Qed.

Lemma firstn_update_nth (A : Type) (s n : nat) (v : A) (l : list A) :
  (s <= n)%nat -> firstn s (update_nth n v l) = firstn s l.
Proof.
  revert s n; induction l as [|h t IH]; intros [|s] [|n] H; cbn; auto; try lia.
  f_equal. apply IH. lia.
Qed.

Lemma generate_init_output (input_ids : list (list Z)) (max_new_tokens : nat) (pad : Z) :
  gen_output (generate_init input_ids max_new_tokens pad)
  = map (fun ids => ids ++ skipn (size1 input_ids)
                             (repeat pad (size1 input_ids + max_new_tokens)))
        input_ids.
Proof.
  unfold generate_init; cbn [gen_output].
  generalize (size1 input_ids) as s; intro s.
  unfold map2.
  induction input_ids as [|r t IH]; cbn [length repeat combine map fst snd].
  - reflexivity.
  - f_equal. exact IH.
Qed.

Section GenerateInvariant.

Variable self : MiniMindLM.
Variable multinomial : nat -> nat -> vec -> Z.
Variables (eos_token_id : Z) (temperature top_p rp : R) (use_cache : bool).
Variables (input_ids : list (list Z)) (max_new_tokens : nat) (pad : Z).

Let s := size1 input_ids.
Let T := (s + max_new_tokens)%nat.

Hypothesis rectangular : Forall (fun r => length r = s) input_ids.

Lemma row_ok_write (cur_pos : nat) (row : list Z) (a : bool) (ids : list Z) (tok : Z) :
  (s <= cur_pos < T)%nat ->
  row_ok s T pad eos_token_id cur_pos row a ids ->
  row_ok s T pad eos_token_id (S cur_pos) (write_row cur_pos (row, (a, tok)))
    (negb (flag_row eos_token_id (negb a, (a, tok)))) ids.
Proof.
  intros Hcur (Hlen & Hpad & Hact & Hfin & Hpre).
  unfold write_row, flag_row; cbn [fst snd].
  destruct a; cbn [negb].
  - repeat split.
    + rewrite update_nth_length; exact Hlen.
    + intros q Hq. rewrite nth_error_update_nth_neq by lia. apply Hpad; lia.
    + intros Hne p Hp.
      destruct (Nat.eq_dec p cur_pos) as [->|Hpc].
      * rewrite nth_error_update_nth_eq by lia.
        intros [= ->]. rewrite Z.eqb_refl in Hne. discriminate.
      * rewrite nth_error_update_nth_neq by lia. apply Hact; [reflexivity|lia].
    + intros p q Hpq HqT Hp.
      destruct (Nat.eq_dec p cur_pos) as [->|Hpc].
      * rewrite nth_error_update_nth_neq by lia. apply Hpad; lia.
      * rewrite nth_error_update_nth_neq in Hp by lia.
        destruct (Nat.lt_ge_cases p cur_pos) as [Hlt|Hge].
        -- exfalso. apply (Hact eq_refl p); [lia|exact Hp].
        -- rewrite nth_error_update_nth_neq by lia. apply Hpad; lia.
    + rewrite firstn_update_nth by lia. exact Hpre.
  - repeat split; auto.
    + intros q Hq. apply Hpad; lia.
    + intros Hf; discriminate.
Qed.

Lemma gen_inv_init :
  gen_inv input_ids s T pad eos_token_id s (generate_init input_ids max_new_tokens pad).
Proof.
  pose proof (generate_init_output input_ids max_new_tokens pad) as Hout.
  fold s in Hout. fold T in Hout.
  unfold gen_inv. rewrite Hout.
  cbn [generate_init eos_reached active_mask past_key_values].
  rewrite length_map, repeat_length.
  repeat split.
  - intros c Hc; discriminate.
  - generalize (length input_ids) as n. induction n; cbn; f_equal; auto.
  - rewrite nth_error_map in H.
    rewrite H1 in H. cbn in H. injection H as <-.
    rewrite length_app, length_skipn, repeat_length.
    pose proof (proj1 (Forall_forall _ _) rectangular ids (nth_error_In _ _ H1)) as Hl.
    cbn beta in Hl. unfold T. lia.
  - intros q Hq.
    rewrite nth_error_map in H. rewrite H1 in H. cbn in H. injection H as <-.
    pose proof (proj1 (Forall_forall _ _) rectangular ids (nth_error_In _ _ H1)) as Hl.
    cbn beta in Hl.
    rewrite nth_error_app2 by lia.
    rewrite nth_error_skipn. apply nth_error_repeat. lia.
  - intros _ p Hp. lia.
  - intros p q Hpq HqT _.
    rewrite nth_error_map in H. rewrite H1 in H. cbn in H. injection H as <-.
    pose proof (proj1 (Forall_forall _ _) rectangular ids (nth_error_In _ _ H1)) as Hl.
    cbn beta in Hl.
    rewrite nth_error_app2 by lia.
    rewrite nth_error_skipn. apply nth_error_repeat. lia.
  - rewrite nth_error_map in H. rewrite H1 in H. cbn in H. injection H as <-.
    pose proof (proj1 (Forall_forall _ _) rectangular ids (nth_error_In _ _ H1)) as Hl.
    cbn beta in Hl.
    rewrite firstn_app, firstn_all2 by lia.
    replace (s - length ids)%nat with O by lia. cbn. apply app_nil_r.
Qed.

Lemma gen_inv_step (cur_pos : nat) (st st' : GenerationState) :
  (s <= cur_pos < T)%nat ->
  gen_inv input_ids s T pad eos_token_id cur_pos st ->
  generate_step self multinomial eos_token_id temperature top_p rp use_cache cur_pos st
    = Ok st' ->
  gen_inv input_ids s T pad eos_token_id (S cur_pos) st'.
Proof.
  intros Hcur (Hlo & Hle & Hpc & Hact & Hrows) Hstep.
  destruct (generate_step_rows _ _ _ _ _ _ _ _ _ _ (length input_ids) Hstep Hlo Hpc)
    as (next & c' & Hn & Ho' & He' & Ha' & Hp' & Hc').
  assert (Hla : length (active_mask st) = length input_ids)
    by (rewrite Hact, length_map; exact Hle).
  unfold gen_inv. split; [|split; [|split; [|split]]].
  - rewrite Ho', length_map, !length_combine. lia.
  - rewrite He', length_map, !length_combine. lia.
  - intros c Hc. rewrite Hp' in Hc. injection Hc as <-. exact Hc'.
  - exact Ha'.
  - intros i row' a' ids Hr Ha Hi.
    rewrite Ho', nth_error_map, !nth_error_combine in Hr.
    rewrite Ha', He', !nth_error_map, !nth_error_combine in Ha.
    destruct (nth_error (gen_output st) i) as [row|] eqn:Erow; [|discriminate].
    destruct (nth_error (active_mask st) i) as [a|] eqn:Ea;
      [|destruct (nth_error (eos_reached st) i); discriminate].
    destruct (nth_error next i) as [tok|] eqn:Etok;
      [|destruct (nth_error (eos_reached st) i); discriminate].
    destruct (nth_error (eos_reached st) i) as [e|] eqn:Ee; [|discriminate].
    cbn in Hr, Ha. injection Hr as <-. injection Ha as <-.
    assert (e = negb a) as ->.
    { rewrite Hact, nth_error_map, Ee in Ea. cbn in Ea. injection Ea as <-.
      symmetry; apply negb_involutive. }
    apply row_ok_write; [exact Hcur|].
    apply (Hrows i); assumption.
Qed.

Lemma gen_inv_loop (n cur_pos : nat) (st st_f : GenerationState) :
  (s <= cur_pos)%nat -> (cur_pos + n <= T)%nat ->
  gen_inv input_ids s T pad eos_token_id cur_pos st ->
  generate_loop self multinomial eos_token_id temperature top_p rp use_cache
    (seq cur_pos n) st = Ok st_f ->
  exists cur', gen_inv input_ids s T pad eos_token_id cur' st_f.
Proof.
  revert cur_pos st; induction n as [|n IH]; intros cur_pos st Hs HT Hinv Hloop;
    cbn [seq generate_loop] in Hloop.
  - injection Hloop as <-. exists cur_pos; exact Hinv.
  - destruct (negb (any (active_mask st))).
    + injection Hloop as <-. exists cur_pos; exact Hinv.
    + destruct (generate_step self multinomial eos_token_id temperature top_p rp use_cache
                  cur_pos st) as [st'|e] eqn:Estep; cbn [bind] in Hloop; [|discriminate].
      apply gen_inv_step in Estep; [|lia|exact Hinv].
      destruct (negb (any (active_mask st'))).
      * injection Hloop as <-. exists (S cur_pos); exact Estep.
      * apply (IH (S cur_pos) st'); auto; lia.
Qed.

Lemma gen_inv_final (out : list (list Z)) :
  generate self multinomial eos_token_id temperature top_p rp use_cache
    input_ids max_new_tokens pad = Ok out ->
  exists cur' st, gen_output st = out /\ gen_inv input_ids s T pad eos_token_id cur' st.
Proof.
  unfold generate, generate_state. intros H.
  match type of H with
  | bind ?g _ = _ => destruct g as [st|e] eqn:E; cbn [bind] in H; [|discriminate]
  end.
  injection H as <-.
  apply gen_inv_loop in E; [|fold s; lia|fold s; unfold T; lia|apply gen_inv_init].
  destruct E as [cur' Hinv]. exists cur', st. split; [reflexivity|exact Hinv].
Qed.

End GenerateInvariant.

(** C10. Whenever [generate] returns, the first [prompt_length] entries of
    every returned row are the prompt token ids: the loop only writes at
    positions [cur_pos >= prompt_length]. *)
Theorem generate_preserves_prompt
  (self : MiniMindLM) (multinomial : nat -> nat -> vec -> Z) (eos_token_id : Z)
  (temperature top_p rp : R) (use_cache : bool) (input_ids : list (list Z))
  (max_new_tokens : nat) (pad : Z) (out : list (list Z)) :
  Forall (fun r => length r = size1 input_ids) input_ids ->
  generate self multinomial eos_token_id temperature top_p rp use_cache
    input_ids max_new_tokens pad = Ok out ->
  map (firstn (size1 input_ids)) out = input_ids.
Proof.
  intros Hrect Hgen.
  destruct (gen_inv_final _ _ _ _ _ _ _ _ _ _ Hrect _ Hgen)
    as (cur' & st & <- & Hlo & Hle & _ & Hact & Hrows).
  apply nth_error_ext. intro i. rewrite nth_error_map.
  destruct (nth_error (gen_output st) i) as [row|] eqn:Erow; cbn.
  - assert (Hi : (i < length input_ids)%nat).
    { rewrite <- Hlo. apply nth_error_Some. congruence. }
    destruct (nth_error input_ids i) as [ids|] eqn:Eids;
      [|apply nth_error_None in Eids; lia].
    destruct (nth_error (active_mask st) i) as [a|] eqn:Ea.
    + destruct (Hrows i row a ids Erow Ea Eids) as (_ & _ & _ & _ & Hpre).
      rewrite Hpre. reflexivity.
    + apply nth_error_None in Ea. rewrite Hact, length_map, Hle in Ea. lia.
  - symmetry. apply nth_error_None. rewrite <- Hlo. apply nth_error_None. exact Erow.
Qed.

(** C6. In the buffer [generate] returns, a row that shows the
    end-of-sequence id at a generated position [p] holds [pad_token_id] at
    every later position, whatever the sampler drew for the other rows:
    the row became inactive at step [p] and inactive rows are not
    written. *)
Theorem generate_finished_rows_stay_padded
  (self : MiniMindLM) (multinomial : nat -> nat -> vec -> Z) (eos_token_id : Z)
  (temperature top_p rp : R) (use_cache : bool) (input_ids : list (list Z))
  (max_new_tokens : nat) (pad : Z) (out : list (list Z)) :
  Forall (fun r => length r = size1 input_ids) input_ids ->
  generate self multinomial eos_token_id temperature top_p rp use_cache
    input_ids max_new_tokens pad = Ok out ->
  forall i row p q,
    nth_error out i = Some row ->
    (size1 input_ids <= p < q)%nat ->
    (q < size1 input_ids + max_new_tokens)%nat ->
    nth_error row p = Some eos_token_id ->
    nth_error row q = Some pad.
Proof.
  intros Hrect Hgen i row p q Hrow Hpq Hq Hp.
  destruct (gen_inv_final _ _ _ _ _ _ _ _ _ _ Hrect _ Hgen)
    as (cur' & st & <- & Hlo & Hle & _ & Hact & Hrows).
  assert (Hi : (i < length input_ids)%nat).
  { rewrite <- Hlo. apply nth_error_Some. congruence. }
  destruct (nth_error input_ids i) as [ids|] eqn:Eids;
    [|apply nth_error_None in Eids; lia].
  destruct (nth_error (active_mask st) i) as [a|] eqn:Ea;
    [|apply nth_error_None in Ea; rewrite Hact, length_map, Hle in Ea; lia].
  destruct (Hrows i row a ids Hrow Ea Eids) as (_ & _ & _ & Hfin & _).
  apply (Hfin p q); assumption.
Qed.

(** ** Lists, sums and the error monad *)

Lemma Forall_firstn (A : Type) (P : A -> Prop) (n : nat) (l : list A) :
  Forall P l -> Forall P (firstn n l).
Proof.
  intro H. apply Forall_forall. intros x Hx.
  apply (proj1 (Forall_forall _ _) H). rewrite <- (firstn_skipn n l).
  apply in_or_app. left. exact Hx.
Qed.

Lemma Forall_skipn (A : Type) (P : A -> Prop) (n : nat) (l : list A) :
  Forall P l -> Forall P (skipn n l).
Proof.
  intro H. apply Forall_forall. intros x Hx.
  apply (proj1 (Forall_forall _ _) H). rewrite <- (firstn_skipn n l).
  apply in_or_app. right. exact Hx.
Qed.

Lemma mapM_Ok_map {A B : Type} (f : A -> result B) (g : A -> B) (l : list A) :
  (forall x, In x l -> f x = Ok (g x)) -> mapM f l = Ok (map g l).
Proof.
  induction l as [|a t IH]; intro H; cbn.
  - reflexivity.
  - rewrite (H a (or_introl eq_refl)). cbn.
    rewrite IH by (intros x Hx; apply H; right; exact Hx). reflexivity.
Qed.

Lemma mapM_map (A B C : Type) (f : B -> result C) (g : A -> B) (l : list A) :
  mapM f (map g l) = mapM (fun x => f (g x)) l.
Proof.
  induction l as [|a t IH]; cbn; [reflexivity|]. rewrite IH. reflexivity.
Qed.

Lemma mapM_firstn (A B : Type) (f : A -> result B) (l : list A) (r : list B) (k : nat) :
  mapM f l = Ok r -> mapM f (firstn k l) = Ok (firstn k r).
Proof.
  revert r k; induction l as [|a t IH]; intros r k H; cbn in H.
  - injection H as <-. rewrite !firstn_nil. reflexivity.
  - destruct (f a) as [b|e] eqn:Ea; cbn in H; [|discriminate].
    destruct (mapM f t) as [bs|e]; cbn in H; [|discriminate].
    injection H as <-. destruct k as [|k]; cbn; [reflexivity|].
    rewrite Ea; cbn. rewrite (IH bs k eq_refl). reflexivity.
Qed.

Lemma mapM_Forall2 (A B : Type) (f : A -> result B) (l : list A) (r : list B) :
  mapM f l = Ok r -> Forall2 (fun x y => f x = Ok y) l r.
Proof.
  revert r; induction l as [|a t IH]; intros r H; cbn in H.
  - injection H as <-. constructor.
  - destruct (f a) as [b|e] eqn:Ea; cbn in H; [|discriminate].
    destruct (mapM f t) as [bs|e]; cbn in H; [|discriminate].
    injection H as <-. constructor; auto.
Qed.

Lemma Rsum_app (l1 l2 : vec) : Rsum (l1 ++ l2) = Rsum l1 + Rsum l2.
Proof.
  unfold Rsum. induction l1 as [|a t IH]; cbn; [lra|]. rewrite IH. lra.
Qed.

Lemma Rsum_zeros (A : Type) (l : list A) : Rsum (map (fun _ => 0) l) = 0.
Proof.
  unfold Rsum. induction l as [|a t IH]; cbn; [reflexivity|]. rewrite IH. lra.
Qed.

Lemma map2_app (A B C : Type) (f : A -> B -> C) (a1 a2 : list A) (b1 b2 : list B) :
  length a1 = length b1 ->
  map2 f (a1 ++ a2) (b1 ++ b2) = map2 f a1 b1 ++ map2 f a2 b2.
Proof.
  unfold map2. intro H. rewrite <- map_app. f_equal.
  revert b1 H; induction a1 as [|x a1 IH]; intros [|y b1] H; cbn in *; try discriminate.
  - reflexivity.
  - f_equal. apply IH. lia.
Qed.

Lemma map2_map_l (A A' B C : Type) (f : A' -> B -> C) (g : A -> A') (a : list A) (b : list B) :
  map2 f (map g a) b = map2 (fun x y => f (g x) y) a b.
Proof.
  unfold map2. revert b; induction a as [|x a IH]; intros [|y b]; cbn; auto.
  f_equal. apply IH.
Qed.

Lemma map2_map_r (A B B' C : Type) (f : A -> B' -> C) (g : B -> B') (a : list A) (b : list B) :
  map2 f a (map g b) = map2 (fun x y => f x (g y)) a b.
Proof.
  unfold map2. revert b; induction a as [|x a IH]; intros [|y b]; cbn; auto.
  f_equal. apply IH.
Qed.

Lemma map_map2 (A B C D : Type) (g : C -> D) (f : A -> B -> C) (a : list A) (b : list B) :
  map g (map2 f a b) = map2 (fun x y => g (f x y)) a b.
Proof.
  unfold map2. rewrite map_map. reflexivity.
Qed.

Lemma map2_firstn (A B C : Type) (f : A -> B -> C) (a : list A) (b : list B) (k : nat) :
  firstn k (map2 f a b) = map2 f (firstn k a) (firstn k b).
Proof.
  unfold map2. rewrite firstn_map, combine_firstn. reflexivity.
Qed.

Lemma map2_same (A C : Type) (f : A -> A -> C) (a : list A) :
  map2 f a a = map (fun x => f x x) a.
Proof.
  unfold map2. induction a as [|x a IH]; cbn; [reflexivity|]. f_equal. exact IH.
Qed.

Lemma nth_map_lt {A B : Type} (f : A -> B) (l : list A) (i : nat) (d : B) (d' : A) :
  (i < length l)%nat -> nth i (map f l) d = f (nth i l d').
Proof.
  intro H. rewrite (nth_indep _ d (f d')) by (rewrite length_map; exact H).
  apply map_nth.
Qed.

Lemma nth_map2_lt {A B C : Type} (f : A -> B -> C) (a : list A) (b : list B) (i : nat)
  (d : C) (da : A) (db : B) :
  (i < length a)%nat -> (i < length b)%nat ->
  nth i (map2 f a b) d = f (nth i a da) (nth i b db).
Proof.
  revert b i; induction a as [|x a IH]; intros [|y b] [|i] Ha Hb; cbn in *; try lia.
  - reflexivity.
  - apply IH; lia.
Qed.

Lemma map2_as_seq {A B C : Type} (f : A -> B -> C) (a : list A) (b : list B) (n : nat)
  (da : A) (db : B) :
  length a = n -> length b = n ->
  map2 f a b = map (fun i => f (nth i a da) (nth i b db)) (seq 0 n).
Proof.
  intros Ha Hb. apply nth_error_ext. intro i.
  unfold map2. rewrite !nth_error_map, nth_error_combine, nth_error_seq.
  destruct (Nat.ltb_spec i n) as [Hlt|Hge].
  - rewrite (nth_error_nth' a da) by lia. rewrite (nth_error_nth' b db) by lia.
    reflexivity.
  - assert (nth_error a i = None) as -> by (apply nth_error_None; lia). reflexivity.
Qed.

Lemma combine_map_seq3 (A B C : Type) (f : nat -> A) (g : nat -> B) (h : nat -> C)
  (l : list nat) :
  combine l (combine (map f l) (combine (map g l) (map h l)))
  = map (fun i => (i, (f i, (g i, h i)))) l.
Proof.
  induction l as [|x l IH]; cbn; [reflexivity|]. f_equal. exact IH.
Qed.

(** ** Attention, row by row *)

Lemma repeat_kv_length (x : list (list vec)) (r : nat) : length (repeat_kv x r) = length x.
Proof.
  unfold repeat_kv. destruct (r =? 1)%nat; [reflexivity|apply length_map].
Qed.

Lemma repeat_kv_firstn (x : list (list vec)) (r k : nat) :
  firstn k (repeat_kv x r) = repeat_kv (firstn k x) r.
Proof.
  unfold repeat_kv. destruct (r =? 1)%nat; [reflexivity|apply firstn_map].
Qed.

Lemma rows_width_forallb (A : Type) (w : nat) (pc : list (list A)) :
  Forall (fun row => length row = w) pc ->
  forallb (fun row => (length row =? w)%nat) pc = true.
Proof.
  intro H. apply forallb_forall. intros row Hrow.
  apply Nat.eqb_eq. apply (proj1 (Forall_forall _ _) H row Hrow).
Qed.

Section AttentionRows.

Variable a : Attention.
Hypothesis Hattn : attn_dropout a = DropoutEval.
Hypothesis Hres : resid_dropout a = DropoutEval.

Lemma Attention_forward_rows (x : list vec) (pc : list (list complex))
  (past : option kv_entry) (uc : bool) (M : list (list ereal)) :
  Nat.even (head_dim a) = true ->
  length pc = length x ->
  Forall (fun row => length row = (head_dim a / 2)%nat) pc ->
  length M = length x ->
  let Q := map2 (fun xr p => q_row a p xr) x pc in
  let K := match past with Some (pk, _) => pk | None => [] end
           ++ map2 (fun xr p => k_row a p xr) x pc in
  let V := match past with Some (_, pv) => pv | None => [] end ++ map (v_row a) x in
  (forall Qh Kh : list vec,
      length Qh = length x -> length Kh = length K ->
      add_mask (map (fun q => map (fun k => dot q k / sqrt (INR (head_dim a))) Kh) Qh) (length Kh)
        (map (firstn (length x)) (firstn (length x) (mask a)))
      = Ok (map2 (fun row mrow => map2 eadd row mrow) (map (fun q => map (fun k => dot q k / sqrt (INR (head_dim a))) Kh) Qh) M)) ->
  Attention_forward a x pc past uc
  = Ok (map (Linear_forward (wo a)) (map2 (fun q mrow => attn_row a q K V mrow) Q M),
        if uc then Some (K, V) else None).
Proof.
  intros Heven Hpc Hw HM Q K V Hmask.
  unfold Attention_forward, apply_rotary_emb.
  rewrite Heven, length_map, Hpc, Nat.eqb_refl, (rows_width_forallb _ _ _ Hw).
  cbn [negb andb bind].
  rewrite !map2_map_l.
  change (map2 (fun (x0 : vec) (y : list complex) =>
                  map (rotate y)
                    (view_heads (n_local_heads a) (head_dim a) (Linear_forward (wq a) x0)))
            x pc) with Q.
  change (map2 (fun (x0 : vec) (y : list complex) =>
                  map (rotate y)
                    (view_heads (n_local_kv_heads a) (head_dim a)
                       (Linear_forward (wk a) x0)))
            x pc) with (map2 (fun xr p => k_row a p xr) x pc).
  change (map (fun r : vec =>
                 view_heads (n_local_kv_heads a) (head_dim a) (Linear_forward (wv a) r)) x)
    with (map (v_row a) x).
  assert (EKV : match past with
                | Some (pk, pv) =>
                    (pk ++ map2 (fun xr p => k_row a p xr) x pc, pv ++ map (v_row a) x)
                | None => (map2 (fun xr p => k_row a p xr) x pc, map (v_row a) x)
                end = (K, V)).
  { subst K V. destruct past as [[pk pv]|]; reflexivity. }
  rewrite EKV. clear EKV. cbv iota beta.
  assert (HQ : length Q = length x).
  { subst Q. rewrite map2_length. lia. }
  unfold transpose_heads.
  rewrite combine_map_seq3, mapM_map.
  set (Qh := fun h : nat => map (fun heads : list vec => nth h heads []) Q).
  set (Kh := fun h : nat => map (fun heads : list vec => nth h heads [])
                              (repeat_kv K (n_rep a))).
  set (Vh := fun h : nat => map (fun heads : list vec => nth h heads [])
                              (repeat_kv V (n_rep a))).
  rewrite (mapM_Ok_map _
             (fun h => matmul (map softmax
                                 (map2 (fun row mrow => map2 eadd row mrow)
                                    (map (fun q => map (fun k => dot q k / sqrt (INR (head_dim a))) (Kh h)) (Qh h)) M))
                         (Vh h) (head_dim a))).
  2:{ intros h _. cbv beta iota. unfold attn_probs.
      rewrite Hmask.
      - cbn [bind]. rewrite Hattn. reflexivity.
      - unfold Qh. rewrite length_map. exact HQ.
      - unfold Kh. rewrite length_map. apply repeat_kv_length. }
  cbn [bind]. rewrite Hres. cbn [Dropout_forward].
  f_equal. f_equal. f_equal.
  rewrite (map2_as_seq _ Q M (length x) [] []) by assumption.
  apply map_ext_in. intros i Hi. apply in_seq in Hi.
  rewrite map_map. unfold attn_row. f_equal.
  apply map_ext. intro h.
  unfold matmul.
  rewrite (nth_map_lt _ _ _ _ []).
  2:{ rewrite length_map, map2_length, length_map. unfold Qh. rewrite length_map. lia. }
  unfold head_out. apply map_ext. intro c. f_equal. f_equal.
  rewrite (nth_map_lt _ _ _ _ []).
  2:{ rewrite map2_length, length_map. unfold Qh. rewrite length_map. lia. }
  f_equal.
  rewrite (nth_map2_lt _ _ _ _ _ [] []).
  2:{ rewrite length_map. unfold Qh. rewrite length_map. lia. }
  2:{ lia. }
  f_equal.
  rewrite (nth_map_lt _ _ _ _ []) by (unfold Qh; rewrite length_map; lia).
  unfold Qh. rewrite (nth_map_lt _ _ _ _ []) by lia.
  reflexivity.
Qed.

End AttentionRows.

(** ** The causal mask *)

Lemma firstn_seq_le (a n L : nat) : (n <= L)%nat -> firstn n (seq a L) = seq a n.
Proof.
  revert a L; induction n as [|n IH]; intros a [|L] H; cbn; try lia; auto.
  f_equal. apply IH. lia.
Qed.

Lemma causal_mask_slice (n L : nat) :
  (n <= L)%nat -> map (firstn n) (firstn n (causal_mask L)) = causal_mask n.
Proof.
  intro H. unfold causal_mask.
  rewrite firstn_map, firstn_seq_le, map_map by exact H.
  apply map_ext. intro i. rewrite firstn_map, firstn_seq_le by exact H. reflexivity.
Qed.

Lemma causal_mask_length (n : nat) : length (causal_mask n) = n.
Proof.
  unfold causal_mask. rewrite length_map, length_seq. reflexivity.
Qed.

Lemma mask_row_open (i k a : nat) :
  (a + k <= S i)%nat ->
  map (fun j => if (i <? j)%nat then NegInf else Fin 0) (seq a k) = repeat (Fin 0) k.
Proof.
  revert a; induction k as [|k IH]; intros a Ha; cbn [seq map repeat]; [reflexivity|].
  destruct (Nat.ltb_spec i a); [lia|]. f_equal. apply IH. lia.
Qed.

Lemma mask_row_closed (i k a : nat) :
  (i < a)%nat ->
  map (fun j => if (i <? j)%nat then NegInf else Fin 0) (seq a k) = repeat NegInf k.
Proof.
  revert a; induction k as [|k IH]; intros a Ha; cbn [seq map repeat]; [reflexivity|].
  destruct (Nat.ltb_spec i a); [|lia]. f_equal. apply IH. lia.
Qed.

Lemma causal_mask_row (n i : nat) :
  (i < n)%nat ->
  nth i (causal_mask n) [] = repeat (Fin 0) (S i) ++ repeat NegInf (n - S i).
Proof.
  intro H. unfold causal_mask.
  rewrite (nth_map_lt _ _ _ _ O) by (rewrite length_seq; exact H).
  rewrite seq_nth by exact H. cbn [Nat.add].
  replace n with (S i + (n - S i))%nat at 1 by lia.
  rewrite seq_app, map_app. f_equal.
  - apply mask_row_open. lia.
  - apply mask_row_closed. lia.
Qed.

(** ** Masked keys carry no weight *)

Lemma map2_closed (s : vec) (m : nat) :
  map2 eadd s (repeat NegInf m) = map (fun _ => NegInf) (combine s (repeat NegInf m)).
Proof.
  unfold map2. apply map_ext_in. intros [x e] Hin.
  apply in_combine_r in Hin. apply repeat_spec in Hin. cbn in *. subst e. reflexivity.
Qed.

Lemma softmax_closed_tail (A : Type) (l : list ereal) (t : list A) :
  softmax (l ++ map (fun _ => NegInf) t) = softmax l ++ map (fun _ => 0) t.
Proof.
  unfold softmax. rewrite !map_app, !map_map. cbn [eexp].
  rewrite Rsum_app, Rsum_zeros, Rplus_0_r. f_equal.
  apply map_ext. intros _. unfold Rdiv. apply Rmult_0_l.
Qed.

Lemma Rsum_map2_zero_weights (A : Type) (t : list A) (V : list vec) (c : nat) :
  Rsum (map2 (fun w b => w * nth c b 0) (map (fun _ => 0) t) V) = 0.
Proof.
  rewrite map2_map_l. unfold map2.
  rewrite (map_ext _ (fun _ => 0)) by (intros; apply Rmult_0_l).
  apply Rsum_zeros.
Qed.

Lemma softmax_length (l : list ereal) : length (softmax l) = length l.
Proof.
  unfold softmax. rewrite !length_map. reflexivity.
Qed.

Lemma head_out_masked (hd : nat) (q : vec) (K1 K2 V1 V2 : list vec) (m : nat) :
  length V1 = length K1 ->
  head_out hd q (K1 ++ K2) (V1 ++ V2) (repeat (Fin 0) (length K1) ++ repeat NegInf m)
  = head_out hd q K1 V1 (repeat (Fin 0) (length K1)).
Proof.
  intro HV. unfold head_out. cbv zeta.
  rewrite map_app, map2_app by (rewrite length_map, repeat_length; reflexivity).
  rewrite map2_closed, softmax_closed_tail.
  apply map_ext. intro c.
  rewrite map2_app.
  - rewrite Rsum_app, Rsum_map2_zero_weights. lra.
  - rewrite softmax_length, map2_length, length_map, repeat_length. lia.
Qed.

Lemma head_out_causal (hd : nat) (q : vec) (Kh Vh : list vec) (n i : nat) :
  (i < n)%nat -> length Kh = n -> length Vh = n ->
  head_out hd q Kh Vh (nth i (causal_mask n) [])
  = head_out hd q (firstn (S i) Kh) (firstn (S i) Vh) (repeat (Fin 0) (S i)).
Proof.
  intros Hi HK HV.
  rewrite causal_mask_row by exact Hi.
  assert (HL : length (firstn (S i) Kh) = S i) by (rewrite length_firstn; lia).
  pose proof (head_out_masked hd q (firstn (S i) Kh) (skipn (S i) Kh)
                (firstn (S i) Vh) (skipn (S i) Vh) (n - S i)) as E.
  rewrite HL, !firstn_skipn in E. apply E.
  rewrite length_firstn. lia.
Qed.

Lemma attn_row_causal (a : Attention) (q : list vec) (K V : list (list vec)) (n i : nat) :
  (i < n)%nat -> length K = n -> length V = n ->
  attn_row a q K V (nth i (causal_mask n) [])
  = attn_row a q (firstn (S i) K) (firstn (S i) V) (repeat (Fin 0) (S i)).
Proof.
  intros Hi HK HV. unfold attn_row. f_equal. apply map_ext. intro h.
  rewrite head_out_causal with (n := n); try exact Hi.
  - rewrite !firstn_map, !repeat_kv_firstn. reflexivity.
  - rewrite length_map, repeat_kv_length. exact HK.
  - rewrite length_map, repeat_kv_length. exact HV.
Qed.

(** ** Attention without and with a cache *)

Lemma map2_repeat_r (A B C : Type) (f : A -> B -> C) (a : list A) (y : B) (n : nat) :
  (length a <= n)%nat -> map2 f a (repeat y n) = map (fun x => f x y) a.
Proof.
  unfold map2. revert n; induction a as [|x a IH]; intros [|n] H; cbn in *; try lia; auto.
  f_equal. apply IH. lia.
Qed.

Lemma Attention_forward_nocache (L : nat) (a : Attention) (x : list vec)
  (pc : list (list complex)) (uc : bool) :
  att_ok L a ->
  Nat.even (head_dim a) = true ->
  length pc = length x ->
  Forall (fun row => length row = (head_dim a / 2)%nat) pc ->
  (length x <= L)%nat ->
  Attention_forward a x pc None uc
  = Ok (attn_pure a pc x, if uc then Some (attn_kv a pc x) else None).
Proof.
  intros (Hmask & Hattn & Hres) Heven Hpc Hw HL.
  rewrite (Attention_forward_rows a Hattn Hres x pc None uc (causal_mask (length x)))
    by (try assumption; try apply causal_mask_length;
        intros Qh Kh HQ HK; unfold add_mask;
        rewrite Hmask, causal_mask_slice, causal_mask_length by exact HL;
        cbn [app] in HK; rewrite map2_length in HK;
        rewrite length_map, HQ, HK, Hpc, Nat.min_id, !Nat.eqb_refl; reflexivity).
  cbn [app]. unfold attn_pure, attn_kv. cbn [fst snd].
  f_equal. f_equal. f_equal.
  rewrite (map2_as_seq _ _ _ (length x) [] [])
    by (rewrite ?map2_length, ?causal_mask_length; lia).
  apply map_ext_in. intros i Hi. apply in_seq in Hi.
  unfold causal_row.
  apply attn_row_causal; [lia| |].
  - rewrite map2_length. lia.
  - apply length_map.
Qed.

Lemma Attention_forward_cached (L : nat) (a : Attention) (y : vec) (p : list complex)
  (kv : kv_entry) (uc : bool) :
  att_ok L a ->
  Nat.even (head_dim a) = true ->
  length p = (head_dim a / 2)%nat ->
  (1 <= L)%nat ->
  Attention_forward a [y] [p] (Some kv) uc
  = Ok ([attn_step a p y kv],
        if uc then Some (fst kv ++ [k_row a p y], snd kv ++ [v_row a y]) else None).
Proof.
  intros (Hmask & Hattn & Hres) Heven Hp HL. destruct kv as [pk pv].
  rewrite (Attention_forward_rows a Hattn Hres [y] [p] (Some (pk, pv)) uc
             [repeat (Fin 0) (S (length pk))]); try assumption; try reflexivity;
    [repeat constructor; exact Hp|].
  intros Qh Kh HQ HK. cbn [length] in HQ.
  unfold map2 in HK. cbn [combine map length] in HK. rewrite length_app in HK.
  cbn [length] in HK.
  destruct Qh as [|q [|q' Qh]]; try discriminate. clear HQ.
  unfold add_mask. cbn [length].
  rewrite Hmask, causal_mask_slice by exact HL.
  cbn [causal_mask seq map length Nat.ltb Nat.leb nth].
  rewrite !Nat.eqb_refl. cbn [andb].
  destruct (Nat.eqb_spec 1 (length Kh)) as [E|E].
  - unfold map2. cbn [combine map fst snd]. do 3 f_equal.
    replace (S (length pk)) with 1%nat by lia. reflexivity.
  - f_equal. unfold map2 at 1. cbn [combine map fst snd]. f_equal.
    rewrite map2_repeat_r by (rewrite length_map; lia). reflexivity.
Qed.

(** ** Extending a sequence by one position *)

Lemma attn_pure_length (a : Attention) (pc : list (list complex)) (x : list vec) :
  length (attn_pure a pc x) = length x.
Proof.
  unfold attn_pure. rewrite !length_map, length_seq. reflexivity.
Qed.

Lemma attn_kv_snoc (a : Attention) (pc : list (list complex)) (x : list vec)
  (p : list complex) (y : vec) :
  length pc = length x ->
  attn_kv a (pc ++ [p]) (x ++ [y])
  = (fst (attn_kv a pc x) ++ [k_row a p y], snd (attn_kv a pc x) ++ [v_row a y]).
Proof.
  intro H. unfold attn_kv. cbn [fst snd].
  rewrite map2_app, map_app by (symmetry; exact H). reflexivity.
Qed.

Lemma firstn_app_short (A : Type) (k : nat) (l1 l2 : list A) :
  (k <= length l1)%nat -> firstn k (l1 ++ l2) = firstn k l1.
Proof.
  intro H. rewrite firstn_app. replace (k - length l1)%nat with O by lia.
  cbn. apply app_nil_r.
Qed.

Lemma attn_pure_snoc (a : Attention) (pc : list (list complex)) (x : list vec)
  (p : list complex) (y : vec) :
  length pc = length x ->
  attn_pure a (pc ++ [p]) (x ++ [y])
  = attn_pure a pc x ++ [attn_step a p y (attn_kv a pc x)].
Proof.
  intro H. unfold attn_pure. rewrite attn_kv_snoc by exact H. cbn [fst snd].
  rewrite length_app. cbn [length]. rewrite Nat.add_1_r, seq_S, !map_app. cbn [Nat.add map].
  rewrite map2_app by (symmetry; exact H).
  unfold map2 at 2. cbn [combine map fst snd].
  set (Q := map2 (fun xr p0 => q_row a p0 xr) x pc).
  set (K := fst (attn_kv a pc x)). set (V := snd (attn_kv a pc x)).
  assert (HQ : length Q = length x) by (unfold Q; rewrite map2_length; lia).
  assert (HK : length K = length x)
    by (unfold K, attn_kv; cbn [fst]; rewrite map2_length; lia).
  assert (HV : length V = length x) by (unfold V, attn_kv; cbn [snd]; apply length_map).
  f_equal.
  - f_equal. apply map_ext_in. intros i Hi. apply in_seq in Hi.
    unfold causal_row.
    rewrite app_nth1 by lia.
    rewrite !firstn_app_short by lia. reflexivity.
  - unfold attn_step, causal_row. fold K V. do 2 f_equal.
    rewrite app_nth2 by lia. rewrite HQ, Nat.sub_diag. cbn [nth].
    rewrite !firstn_all2 by (rewrite length_app; cbn [length]; lia).
    rewrite HK. reflexivity.
Qed.

Lemma attn_kv_firstn (a : Attention) (pc : list (list complex)) (x : list vec) (k : nat) :
  attn_kv a (firstn k pc) (firstn k x)
  = (firstn k (fst (attn_kv a pc x)), firstn k (snd (attn_kv a pc x))).
Proof.
  unfold attn_kv. cbn [fst snd]. rewrite map2_firstn, firstn_map. reflexivity.
Qed.

Lemma attn_pure_firstn (a : Attention) (pc : list (list complex)) (x : list vec) (k : nat) :
  length pc = length x ->
  attn_pure a (firstn k pc) (firstn k x) = firstn k (attn_pure a pc x).
Proof.
  intro H. unfold attn_pure. rewrite attn_kv_firstn. cbn [fst snd].
  rewrite !firstn_map, length_firstn.
  destruct (Nat.le_gt_cases k (length x)) as [Hk|Hk].
  - rewrite firstn_seq_le, Nat.min_l by exact Hk.
    f_equal. apply map_ext_in. intros i Hi. apply in_seq in Hi.
    unfold causal_row. rewrite !firstn_firstn, Nat.min_l by lia.
    rewrite <- map2_firstn.
    f_equal.
    rewrite <- (firstn_skipn k (map2 (fun xr p => q_row a p xr) x pc)) at 2.
    rewrite app_nth1; [reflexivity|].
    rewrite length_firstn, map2_length. lia.
  - rewrite Nat.min_r by lia.
    rewrite !firstn_all2
      by (unfold attn_kv; cbn [fst snd];
          rewrite ?length_seq, ?map2_length, ?length_map, ?H; lia).
    reflexivity.
Qed.

(** ** Blocks *)

Lemma FeedForward_forward_rows (f : FeedForward) (x : list vec) :
  ffn_dropout f = DropoutEval -> FeedForward_forward f x = map (ffn_row f) x.
Proof.
  intro H. unfold FeedForward_forward. rewrite H. cbn [Dropout_forward].
  rewrite !map_map, map2_map_l, map2_map_r, map2_same, map_map.
  reflexivity.
Qed.

Lemma tadd_post (b : MiniMindBlock) (x A : list vec) :
  ffn_dropout (feed_forward b) = DropoutEval ->
  tadd (tadd x A)
    (FeedForward_forward (feed_forward b) (map (RMSNorm_forward (ffn_norm b)) (tadd x A)))
  = map2 (block_post b) x A.
Proof.
  intro H. rewrite FeedForward_forward_rows by exact H.
  unfold tadd. rewrite map_map, map2_map_r, map2_same, map_map2. reflexivity.
Qed.

Lemma MiniMindBlock_forward_nocache (L hd : nat) (b : MiniMindBlock) (x : list vec)
  (pc : list (list complex)) (uc : bool) :
  block_ok L hd b ->
  Nat.even hd = true ->
  length pc = length x ->
  Forall (fun row => length row = (hd / 2)%nat) pc ->
  (length x <= L)%nat ->
  MiniMindBlock_forward b x pc None uc
  = Ok (block_pure b pc x, if uc then Some (block_kv b pc x) else None).
Proof.
  intros (Hatt & Hhd & Hff) Heven Hpc Hw HL. unfold MiniMindBlock_forward.
  rewrite (Attention_forward_nocache L) by (rewrite ?Hhd, ?length_map; assumption).
  cbn [bind]. rewrite tadd_post by exact Hff. reflexivity.
Qed.

Lemma MiniMindBlock_forward_cached (L hd : nat) (b : MiniMindBlock) (y : vec)
  (p : list complex) (kv : kv_entry) (uc : bool) :
  block_ok L hd b ->
  Nat.even hd = true ->
  length p = (hd / 2)%nat ->
  (1 <= L)%nat ->
  MiniMindBlock_forward b [y] [p] (Some kv) uc
  = Ok ([block_step b p y kv], if uc then Some (block_step_kv b p y kv) else None).
Proof.
  intros (Hatt & Hhd & Hff) Heven Hp HL. unfold MiniMindBlock_forward.
  cbn [map].
  rewrite (Attention_forward_cached L) by (rewrite ?Hhd; assumption).
  cbn [bind]. rewrite tadd_post by exact Hff. reflexivity.
Qed.

Lemma block_pure_length (b : MiniMindBlock) (pc : list (list complex)) (x : list vec) :
  length (block_pure b pc x) = length x.
Proof.
  unfold block_pure. rewrite map2_length, attn_pure_length, length_map. lia.
Qed.

Lemma block_pure_snoc (b : MiniMindBlock) (pc : list (list complex)) (x : list vec)
  (p : list complex) (y : vec) :
  length pc = length x ->
  block_pure b (pc ++ [p]) (x ++ [y])
  = block_pure b pc x ++ [block_step b p y (block_kv b pc x)].
Proof.
  intro H. unfold block_pure, block_step, block_kv.
  rewrite map_app. cbn [map].
  rewrite attn_pure_snoc by (rewrite length_map; exact H).
  rewrite map2_app by (rewrite attn_pure_length, length_map; reflexivity).
  reflexivity.
Qed.

Lemma block_kv_snoc (b : MiniMindBlock) (pc : list (list complex)) (x : list vec)
  (p : list complex) (y : vec) :
  length pc = length x ->
  block_kv b (pc ++ [p]) (x ++ [y]) = block_step_kv b p y (block_kv b pc x).
Proof.
  intro H. unfold block_kv, block_step_kv. rewrite map_app. cbn [map].
  apply attn_kv_snoc. rewrite length_map. exact H.
Qed.

Lemma block_pure_firstn (b : MiniMindBlock) (pc : list (list complex)) (x : list vec)
  (k : nat) :
  length pc = length x ->
  block_pure b (firstn k pc) (firstn k x) = firstn k (block_pure b pc x).
Proof.
  intro H. unfold block_pure.
  rewrite map2_firstn, <- attn_pure_firstn, firstn_map by (rewrite length_map; exact H).
  reflexivity.
Qed.

(** ** The layer stack *)

Lemma stack_pure_length (ls : list MiniMindBlock) (pc : list (list complex)) (x : list vec) :
  length (stack_pure ls pc x) = length x.
Proof.
  revert x; induction ls as [|l r IH]; intro x; cbn; [reflexivity|].
  rewrite IH. apply block_pure_length.
Qed.

Lemma stack_kvs_length (ls : list MiniMindBlock) (pc : list (list complex)) (x : list vec) :
  length (stack_kvs ls pc x) = length ls.
Proof.
  revert x; induction ls as [|l r IH]; intro x; cbn; [reflexivity|]. rewrite IH. reflexivity.
Qed.

Lemma stack_step_kvs_length (ls : list MiniMindBlock) (p : list complex) (y : vec) kvs :
  length kvs = length ls -> length (stack_step_kvs ls p y kvs) = length ls.
Proof.
  revert y kvs; induction ls as [|l r IH]; intros y [|kv kvr] H; cbn in *;
    try reflexivity; try discriminate.
  f_equal. apply IH. lia.
Qed.

Lemma stack_pure_snoc (ls : list MiniMindBlock) (pc : list (list complex)) (x : list vec)
  (p : list complex) (y : vec) :
  (ls <> [] -> length pc = length x) ->
  stack_pure ls (pc ++ [p]) (x ++ [y])
  = stack_pure ls pc x ++ [stack_step ls p y (stack_kvs ls pc x)].
Proof.
  revert x y; induction ls as [|l r IH]; intros x y H; cbn; [reflexivity|].
  assert (Hl : length pc = length x) by (apply H; discriminate).
  rewrite block_pure_snoc by exact Hl.
  apply IH. intros _. rewrite block_pure_length. exact Hl.
Qed.

Lemma stack_kvs_snoc (ls : list MiniMindBlock) (pc : list (list complex)) (x : list vec)
  (p : list complex) (y : vec) :
  (ls <> [] -> length pc = length x) ->
  stack_kvs ls (pc ++ [p]) (x ++ [y]) = stack_step_kvs ls p y (stack_kvs ls pc x).
Proof.
  revert x y; induction ls as [|l r IH]; intros x y H; cbn; [reflexivity|].
  assert (Hl : length pc = length x) by (apply H; discriminate).
  rewrite block_kv_snoc, block_pure_snoc by exact Hl.
  f_equal. apply IH. intros _. rewrite block_pure_length. exact Hl.
Qed.

Lemma stack_pure_firstn (ls : list MiniMindBlock) (pc : list (list complex)) (x : list vec)
  (k : nat) :
  (ls <> [] -> length pc = length x) ->
  stack_pure ls (firstn k pc) (firstn k x) = firstn k (stack_pure ls pc x).
Proof.
  revert x; induction ls as [|l r IH]; intros x H; cbn; [reflexivity|].
  assert (Hl : length pc = length x) by (apply H; discriminate).
  rewrite block_pure_firstn by exact Hl.
  apply IH. intros _. rewrite block_pure_length. exact Hl.
Qed.

Lemma run_layers_nocache (L hd : nat) (ls : list MiniMindBlock) (idx : nat) (x : list vec)
  (pc : list (list complex)) (pasts : list (option kv_entry)) (uc : bool)
  (acc : list (option kv_entry)) :
  Forall (block_ok L hd) ls ->
  (ls <> [] ->
   Nat.even hd = true /\ length pc = length x
   /\ Forall (fun row => length row = (hd / 2)%nat) pc) ->
  (length x <= L)%nat ->
  (forall j, (j < length ls)%nat -> nth_error pasts (idx + j) = Some None) ->
  run_layers ls idx x pc pasts uc acc
  = Ok (stack_pure ls pc x, acc ++ map (cache_entry uc) (stack_kvs ls pc x)).
Proof.
  revert idx x acc; induction ls as [|l r IH]; intros idx x acc Hok Hc HL Hp;
    cbn [run_layers stack_pure stack_kvs map].
  - rewrite app_nil_r. reflexivity.
  - destruct Hc as (Heven & Hpc & Hw); [discriminate|].
    inversion Hok as [|? ? Hl Hr]; subst.
    pose proof (Hp O ltac:(cbn; lia)) as H0. rewrite Nat.add_0_r in H0.
    rewrite H0. cbn [bind].
    rewrite (MiniMindBlock_forward_nocache L hd) by assumption.
    cbn [bind].
    rewrite IH; try assumption.
    + rewrite <- app_assoc. reflexivity.
    + intros _. rewrite block_pure_length. repeat split; assumption.
    + rewrite block_pure_length. exact HL.
    + intros j Hj. replace (S idx + j)%nat with (idx + S j)%nat by lia.
      apply Hp. cbn. lia.
Qed.

Lemma run_layers_cached (L hd : nat) (ls : list MiniMindBlock) (idx : nat) (y : vec)
  (p : list complex) (pasts : list (option kv_entry)) (uc : bool)
  (acc : list (option kv_entry)) (kvs : list (list (list vec) * list (list vec))) :
  Forall (block_ok L hd) ls ->
  (ls <> [] -> Nat.even hd = true /\ length p = (hd / 2)%nat) ->
  (1 <= L)%nat ->
  length kvs = length ls ->
  (forall j kv, nth_error kvs j = Some kv -> nth_error pasts (idx + j) = Some (Some kv)) ->
  run_layers ls idx [y] [p] pasts uc acc
  = Ok ([stack_step ls p y kvs], acc ++ map (cache_entry uc) (stack_step_kvs ls p y kvs)).
Proof.
  revert idx y acc kvs; induction ls as [|l r IH]; intros idx y acc kvs Hok Hc HL Hlen Hp;
    destruct kvs as [|kv kvr]; try discriminate;
    cbn [run_layers stack_step stack_step_kvs map].
  - rewrite app_nil_r. reflexivity.
  - inversion Hok as [|? ? Hl Hr]; subst.
    pose proof (Hp O kv eq_refl) as H0. rewrite Nat.add_0_r in H0.
    rewrite H0. cbn [bind].
    rewrite (MiniMindBlock_forward_cached L hd)
      by (try assumption; apply Hc; discriminate).
    cbn [bind].
    rewrite (IH _ _ _ kvr); try assumption.
    + rewrite <- app_assoc. reflexivity.
    + intros _. apply Hc. discriminate.
    + cbn in Hlen. lia.
    + intros j kv' Hj. replace (S idx + j)%nat with (idx + S j)%nat by lia.
      apply Hp. exact Hj.
Qed.

Lemma run_layers_returns (l : MiniMindBlock) (r : list MiniMindBlock) (idx : nat)
  (x : list vec) (pc : list (list complex)) (pasts : list (option kv_entry)) (uc : bool)
  (acc : list (option kv_entry)) res :
  run_layers (l :: r) idx x pc pasts uc acc = Ok res ->
  Nat.even (head_dim (attention l)) = true /\ length pc = length x.
Proof.
  cbn [run_layers]. intro H.
  destruct (nth_error pasts idx) as [past|]; cbn [bind] in H; [|discriminate].
  unfold MiniMindBlock_forward, Attention_forward, apply_rotary_emb in H.
  destruct (Nat.even (head_dim (attention l))); cbn [negb] in H; [|discriminate].
  rewrite !length_map in H.
  destruct (Nat.eqb_spec (length pc) (length x)) as [E|E]; cbn [negb andb] in H;
    [|discriminate].
  split; [reflexivity|exact E].
Qed.

(** ** Construction *)

Lemma Attention_init_ok (args : LMConfig) (p : AttentionParams) (a : Attention) :
  Attention_init args p = Ok a ->
  dropout args = DropoutEval ->
  att_ok (model_max_length args) a /\ head_dim a = (dim args / n_heads args)%nat.
Proof.
  unfold Attention_init. intros H Hd.
  destruct (match n_kv_heads args with Some k => k | None => n_heads args end =? 0)%nat;
    [discriminate|].
  destruct (negb _); [discriminate|].
  destruct (n_heads args =? 0)%nat; [discriminate|].
  injection H as <-. cbn. unfold att_ok. cbn. auto.
Qed.

Lemma FeedForward_init_ok (config config' : LMConfig) (p : FeedForwardParams)
  (f : FeedForward) :
  FeedForward_init config p = Ok (f, config') ->
  ffn_dropout f = dropout config
  /\ dim config' = dim config
  /\ n_heads config' = n_heads config
  /\ vocab_size config' = vocab_size config
  /\ model_max_length config' = model_max_length config
  /\ dropout config' = dropout config.
Proof.
  unfold FeedForward_init. intro H.
  destruct (hidden_dim config) as [h|] eqn:Eh; cbn [bind] in H.
  - injection H as <- <-. cbn. auto 10.
  - destruct (multiple_of config =? 0)%nat; cbn [bind] in H; [discriminate|].
    injection H as <- <-. cbn. auto 10.
Qed.

Lemma init_layers_ok (ids : list nat) (config config' : LMConfig) (p : nat -> BlockParams)
  (ls : list MiniMindBlock) :
  init_layers ids config p = Ok (ls, config') ->
  dropout config = DropoutEval ->
  Forall (block_ok (model_max_length config) (dim config / n_heads config)) ls
  /\ length ls = length ids
  /\ dim config' = dim config
  /\ n_heads config' = n_heads config
  /\ vocab_size config' = vocab_size config
  /\ model_max_length config' = model_max_length config
  /\ dropout config' = dropout config.
Proof.
  revert config ls; induction ids as [|id rest IH]; intros config ls H Hd; cbn in H.
  - injection H as <- <-. repeat split; auto.
  - unfold MiniMindBlock_init in H.
    destruct (Attention_init config (p_attention (p id))) as [a|e] eqn:Ea;
      cbn [bind] in H; [|discriminate].
    destruct (FeedForward_init config (p_feed_forward (p id))) as [[f c1]|e] eqn:Ef;
      cbn [bind] in H; [|discriminate].
    destruct (init_layers rest c1 p) as [[bs c2]|e] eqn:Er; cbn [bind] in H; [|discriminate].
    injection H as <- <-.
    apply Attention_init_ok in Ea; [|exact Hd]. destruct Ea as [Hatt Hhd].
    apply FeedForward_init_ok in Ef. destruct Ef as (Hfd & E1 & E2 & E3 & E4 & E5).
    apply IH in Er; [|congruence].
    destruct Er as (Hbs & Hlen & F1 & F2 & F3 & F4 & F5).
    rewrite E1, E2, E4 in Hbs.
    repeat split; try congruence.
    + constructor; [|exact Hbs].
      unfold block_ok; cbn. repeat split; try apply Hatt; congruence.
    + cbn. congruence.
Qed.

Lemma precompute_pos_cis_length (d e : nat) (theta : R) :
  length (precompute_pos_cis d e theta) = e.
Proof.
  unfold precompute_pos_cis. rewrite length_map, length_seq. reflexivity.
Qed.

Lemma MiniMindLM_init_ok (config : LMConfig) (p : ModelParams) (m : MiniMindLM) :
  MiniMindLM_init config p = Ok m ->
  dropout config = DropoutEval ->
  model_ok config m /\ length (layers m) = n_layers config.
Proof.
  unfold MiniMindLM_init. intros H Hd.
  destruct (init_layers (seq 0 (n_layers config)) config (p_layers p)) as [[ls c']|e] eqn:El;
    cbn [bind] in H; [|discriminate].
  destruct (n_heads c' =? 0)%nat; [discriminate|].
  injection H as <-.
  apply init_layers_ok in El; [|exact Hd].
  destruct El as (Hls & Hlen & E1 & E2 & E3 & E4 & E5).
  unfold model_ok. cbn [layers lm_dropout tok_embeddings pos_cis].
  split; [split; [|split; [|split; [|split]]]|].
  - exact Hls.
  - congruence.
  - unfold nn_Linear. cbn [weight]. rewrite length_map, length_seq. exact E3.
  - apply precompute_pos_cis_length.
  - rewrite E1, E2. apply Forall_forall. intros row Hrow.
    unfold precompute_pos_cis in Hrow. apply in_map_iff in Hrow.
    destruct Hrow as (t & <- & _). rewrite !length_map, length_seq. reflexivity.
  - rewrite Hlen, length_seq. reflexivity.
Qed.

(** ** The forward pass of one batch entry *)

Lemma MiniMindLM_forward1_nocache (cfg : LMConfig) (m : MiniMindLM) (toks : list Z)
  (h : list vec) (uc : bool) (start : nat) :
  model_ok cfg m ->
  mapM (Embedding_forward (tok_embeddings m)) toks = Ok h ->
  (layers m <> [] ->
   Nat.even (dim cfg / n_heads cfg) = true /\ (start + length toks <= rope_end)%nat) ->
  (length toks <= model_max_length cfg)%nat ->
  let pc := firstn (length toks) (skipn start (pos_cis m)) in
  MiniMindLM_forward1 m toks None uc start
  = Ok (logits_of m (stack_pure (layers m) pc h),
        map (cache_entry uc) (stack_kvs (layers m) pc h)).
Proof.
  intros (Hls & Hdrop & Hemb & Htbl & Hw) Hh Hc HL pc.
  unfold MiniMindLM_forward1. rewrite Hh. cbn [bind].
  rewrite Hdrop. cbn [Dropout_forward]. fold pc.
  pose proof (mapM_length _ _ _ _ _ Hh) as Hlen.
  rewrite (run_layers_nocache (model_max_length cfg) (dim cfg / n_heads cfg)); try assumption.
  - cbn [bind app]. reflexivity.
  - intros Hne. destruct (Hc Hne) as [Heven Hend]. split; [exact Heven|]. split.
    + unfold pc. rewrite length_firstn, length_skipn, Htbl, Hlen. lia.
    + unfold pc. apply Forall_firstn, Forall_skipn. exact Hw.
  - rewrite Hlen. exact HL.
  - intros j Hj. cbn [Nat.add]. apply nth_error_repeat. exact Hj.
Qed.

Lemma MiniMindLM_forward1_returns (m : MiniMindLM) (toks : list Z)
  (past : option (list (option kv_entry))) (uc : bool) (start : nat) res :
  MiniMindLM_forward1 m toks past uc start = Ok res ->
  lm_dropout m = DropoutEval ->
  exists h,
    mapM (Embedding_forward (tok_embeddings m)) toks = Ok h
    /\ forall l r, layers m = l :: r ->
         Nat.even (head_dim (attention l)) = true
         /\ length (firstn (length toks) (skipn start (pos_cis m))) = length toks.
Proof.
  unfold MiniMindLM_forward1. intros H Hdrop.
  destruct (mapM (Embedding_forward (tok_embeddings m)) toks) as [h|e] eqn:Eh;
    cbn [bind] in H; [|discriminate].
  exists h. split; [reflexivity|].
  intros l r El. rewrite El, Hdrop in H. cbn [Dropout_forward] in H.
  match type of H with
  | bind ?R _ = _ => destruct R as [res'|e] eqn:Er; cbn [bind] in H; [|discriminate]
  end.
  apply run_layers_returns in Er. destruct Er as [Heven Hpc].
  split; [exact Heven|]. rewrite Hpc. apply mapM_length in Eh. exact Eh.
Qed.

Lemma firstn_1_skipn (A : Type) (n : nat) (l : list A) (d : A) :
  (n < length l)%nat -> firstn 1 (skipn n l) = [nth n l d].
Proof.
  revert n; induction l as [|a l IH]; intros [|n] H; cbn in *; try lia; auto.
  apply IH. lia.
Qed.

Lemma firstn_S_snoc (A : Type) (n : nat) (l : list A) (d : A) :
  (n < length l)%nat -> firstn (S n) l = firstn n l ++ [nth n l d].
Proof.
  revert n; induction l as [|a l IH]; intros [|n] H; cbn in *; try lia; auto.
  f_equal. apply IH. lia.
Qed.


Lemma MiniMindLM_forward1_cached (cfg : LMConfig) (m : MiniMindLM) (t : Z) (e : vec)
  (kvs : list (list (list vec) * list (list vec))) (uc : bool) (start : nat) :
  model_ok cfg m ->
  Embedding_forward (tok_embeddings m) t = Ok e ->
  length kvs = length (layers m) ->
  (layers m <> [] -> Nat.even (dim cfg / n_heads cfg) = true /\ (start < rope_end)%nat) ->
  (1 <= model_max_length cfg)%nat ->
  MiniMindLM_forward1 m [t] (Some (map Some kvs)) uc start
  = Ok (logits_of m [stack_step (layers m) (nth start (pos_cis m) []) e kvs],
        map (cache_entry uc) (stack_step_kvs (layers m) (nth start (pos_cis m) []) e kvs)).
Proof.
  intros (Hls & Hdrop & Hemb & Htbl & Hw) He Hlen Hc HL.
  unfold MiniMindLM_forward1. cbn [mapM length]. rewrite He. cbn [bind].
  rewrite Hdrop. cbn [Dropout_forward].
  destruct (layers m) as [|l r] eqn:El.
  - destruct kvs; [|discriminate]. cbn. reflexivity.
  - destruct (Hc ltac:(discriminate)) as [Heven Hend].
    rewrite (firstn_1_skipn _ _ _ []) by (rewrite Htbl; exact Hend).
    destruct kvs as [|kv kvr]; [discriminate|].
    change (match map Some (kv :: kvr) with
            | [] => repeat None (length (l :: r))
            | p :: ps => p :: ps
            end) with (map Some (kv :: kvr)).
    rewrite (run_layers_cached (model_max_length cfg) (dim cfg / n_heads cfg)
               _ _ _ _ _ _ _ (kv :: kvr)); try assumption.
    + cbn [bind app]. reflexivity.
    + intros _. split; [exact Heven|].
      apply (proj1 (Forall_forall _ _) Hw). apply nth_In. rewrite Htbl. exact Hend.
    + intros j kv' Hj. cbn [Nat.add]. rewrite nth_error_map, Hj. reflexivity.
Qed.

(** ** One pass against prompt pass plus decode steps *)

Section Incremental.

Variables (cfg : LMConfig) (m : MiniMindLM) (toks : list Z) (h : list vec).

Hypothesis Hm : model_ok cfg m.
Hypothesis Hh : mapM (Embedding_forward (tok_embeddings m)) toks = Ok h.
Hypothesis Hc : layers m <> [] ->
                Nat.even (dim cfg / n_heads cfg) = true /\ (length toks <= rope_end)%nat.
Hypothesis HL : (length toks <= model_max_length cfg)%nat.

Let full (k : nat) : list vec :=
  stack_pure (layers m) (firstn k (pos_cis m)) (firstn k h).

Let kvs (k : nat) : list (list (list vec) * list (list vec)) :=
  stack_kvs (layers m) (firstn k (pos_cis m)) (firstn k h).

Lemma embedded_length : length h = length toks.
Proof. exact (mapM_length _ _ _ _ _ Hh). Qed.

Lemma table_prefix_length (k : nat) :
  (k <= length toks)%nat -> layers m <> [] ->
  length (firstn k (pos_cis m)) = length (firstn k h).
Proof.
  intros Hk Hne. destruct Hm as (_ & _ & _ & Htbl & _). destruct (Hc Hne) as [_ Hend].
  rewrite !length_firstn, Htbl, embedded_length. lia.
Qed.

Lemma full_prefix (k : nat) :
  (k <= length toks)%nat -> full k = firstn k (full (length toks)).
Proof.
  intro Hk. unfold full.
  rewrite <- stack_pure_firstn
    by (intro Hne; apply (table_prefix_length (length toks)); [lia|exact Hne]).
  rewrite !firstn_firstn, Nat.min_l by lia. reflexivity.
Qed.

Lemma pass_prefix (k : nat) (uc : bool) :
  (k <= length toks)%nat ->
  MiniMindLM_forward1 m (firstn k toks) None uc 0
  = Ok (logits_of m (full k), map (cache_entry uc) (kvs k)).
Proof.
  intro Hk.
  rewrite (MiniMindLM_forward1_nocache cfg m (firstn k toks) (firstn k h)).
  - cbn [skipn]. rewrite length_firstn, Nat.min_l by exact Hk. reflexivity.
  - exact Hm.
  - apply mapM_firstn. exact Hh.
  - intro Hne. destruct (Hc Hne) as [Heven Hend]. split; [exact Heven|].
    rewrite length_firstn. lia.
  - rewrite length_firstn. lia.
Qed.

Lemma pass_step (k : nat) :
  (k < length toks)%nat ->
  MiniMindLM_forward1 m [nth k toks 0%Z] (Some (map (cache_entry true) (kvs k))) true k
  = Ok (logits_of m [nth k (full (length toks)) []], map (cache_entry true) (kvs (S k))).
Proof.
  intro Hk.
  pose proof embedded_length as Hlen.
  assert (He : Embedding_forward (tok_embeddings m) (nth k toks 0%Z) = Ok (nth k h [])).
  { pose proof (mapM_Forall2 _ _ _ _ _ Hh) as F.
    clear - F Hk. revert k Hk. induction F as [|x y l l' Hxy F IH]; intros [|k] Hk;
      cbn in *; try lia; auto. apply IH. lia. }
  assert (Hsnoc_h : firstn (S k) h = firstn k h ++ [nth k h []])
    by (apply firstn_S_snoc; lia).
  assert (Htab : layers m <> [] ->
                 firstn (S k) (pos_cis m)
                 = firstn k (pos_cis m) ++ [nth k (pos_cis m) []]).
  { intro Hne. apply firstn_S_snoc. destruct Hm as (_ & _ & _ & Htbl & _).
    destruct (Hc Hne). lia. }
  change (map (cache_entry true) (kvs k)) with (map Some (kvs k)).
  rewrite (MiniMindLM_forward1_cached cfg m _ (nth k h [])); try assumption.
  - assert (Hcase : layers m = [] \/ layers m <> [])
      by (destruct (layers m); [left; reflexivity|right; discriminate]).
    destruct Hcase as [El|Hne].
    + unfold full, kvs. rewrite El.
      cbn [stack_step stack_step_kvs stack_kvs stack_pure map].
      rewrite (firstn_all2 (n := length toks)) by lia.
      reflexivity.
    + f_equal. f_equal.
      * f_equal. f_equal.
        assert (E : full (S k) = full k ++
                      [stack_step (layers m) (nth k (pos_cis m) []) (nth k h []) (kvs k)]).
        { unfold full, kvs. rewrite Hsnoc_h, (Htab Hne).
          apply stack_pure_snoc. intros _.
          apply table_prefix_length; [lia|exact Hne]. }
        rewrite (full_prefix (S k)), (full_prefix k) in E by lia.
        rewrite (firstn_S_snoc _ k _ []) in E
          by (unfold full; rewrite stack_pure_length, length_firstn; lia).
        apply app_inv_head in E. injection E as E. symmetry. exact E.
      * f_equal. unfold kvs. rewrite Hsnoc_h, (Htab Hne).
        symmetry. apply stack_kvs_snoc. intros _.
        apply table_prefix_length; [lia|exact Hne].
  - unfold kvs. apply stack_kvs_length.
  - intro Hne. destruct (Hc Hne) as [Heven Hend]. split; [exact Heven|lia].
  - lia.
Qed.

End Incremental.

Lemma forward1_conditions (cfg : LMConfig) (m : MiniMindLM) (toks : list Z)
  (past : option (list (option kv_entry))) (uc : bool) res :
  model_ok cfg m ->
  MiniMindLM_forward1 m toks past uc 0 = Ok res ->
  exists h,
    mapM (Embedding_forward (tok_embeddings m)) toks = Ok h
    /\ (layers m <> [] ->
        Nat.even (dim cfg / n_heads cfg) = true /\ (length toks <= rope_end)%nat).
Proof.
  intros Hm H. pose proof Hm as (Hls & Hdrop & _ & Htbl & _).
  destruct (MiniMindLM_forward1_returns _ _ _ _ _ _ H Hdrop) as (h & Hh & Hc).
  exists h. split; [exact Hh|].
  intro Hne. destruct (layers m) as [|l r] eqn:El; [contradiction|].
  destruct (Hc l r eq_refl) as [Heven Hlen].
  inversion Hls as [|? ? (_ & Hhd & _) _]; subst.
  rewrite Hhd in Heven. split; [exact Heven|].
  cbn [skipn] in Hlen. rewrite length_firstn, Htbl in Hlen. lia.
Qed.

(** ** Batches *)

Lemma combine_map_map (A B C : Type) (f : A -> B) (g : A -> C) (l : list A) :
  combine (map f l) (map g l) = map (fun x => (f x, g x)) l.
Proof.
  induction l as [|x l IH]; cbn; [reflexivity|]. f_equal. exact IH.
Qed.

Lemma mapM_In (A B : Type) (f : A -> result B) (l : list A) (l' : list B) (x : A) :
  mapM f l = Ok l' -> In x l -> exists y, f x = Ok y.
Proof.
  revert l'; induction l as [|a t IH]; intros l' H Hx; [contradiction|].
  cbn in H. destruct (f a) as [b|e] eqn:Ea; cbn in H; [|discriminate].
  destruct (mapM f t) as [bs|e]; cbn in H; [|discriminate].
  destruct Hx as [<-|Hx]; [exists b; exact Ea|]. apply (IH bs eq_refl Hx).
Qed.

Lemma MiniMindLM_forward_rows_nocache (m : MiniMindLM) (A : Type) (rows : list A)
  (f : A -> list Z) (uc : bool) (start : nat) (F : A -> list vec)
  (G : A -> list (option kv_entry)) :
  (forall r, In r rows -> MiniMindLM_forward1 m (f r) None uc start = Ok (F r, G r)) ->
  MiniMindLM_forward m (map f rows) None uc start = Ok (map F rows, map G rows).
Proof.
  intro H. unfold MiniMindLM_forward.
  rewrite map_map, combine_map_map, mapM_map.
  rewrite (mapM_Ok_map _ (fun r => (F r, G r))) by exact H.
  cbn [bind]. rewrite !map_map. reflexivity.
Qed.

Lemma MiniMindLM_forward_rows_cached (m : MiniMindLM) (A : Type) (rows : list A)
  (f : A -> list Z) (c : A -> list (option kv_entry)) (uc : bool) (start : nat)
  (F : A -> list vec) (G : A -> list (option kv_entry)) :
  (forall r, In r rows -> MiniMindLM_forward1 m (f r) (Some (c r)) uc start = Ok (F r, G r)) ->
  MiniMindLM_forward m (map f rows) (Some (map c rows)) uc start
  = Ok (map F rows, map G rows).
Proof.
  intro H. unfold MiniMindLM_forward.
  rewrite map_map, combine_map_map, mapM_map.
  rewrite (mapM_Ok_map _ (fun r => (F r, G r))) by exact H.
  cbn [bind]. rewrite !map_map. reflexivity.
Qed.

Lemma MiniMindLM_forward_row_returns (m : MiniMindLM) (ids : list (list Z)) (uc : bool)
  (start : nat) out (r : list Z) :
  MiniMindLM_forward m ids None uc start = Ok out ->
  In r ids ->
  exists y, MiniMindLM_forward1 m r None uc start = Ok y.
Proof.
  unfold MiniMindLM_forward. intros H Hr.
  rewrite <- (map_id ids) in H at 1.
  rewrite combine_map_map, mapM_map in H.
  match type of H with
  | bind (mapM ?g _) _ = _ => destruct (mapM g ids) as [outs|e] eqn:E; [|discriminate]
  end.
  apply (mapM_In _ _ _ _ _ r E Hr).
Qed.

Lemma mapM_embed_pure (m : MiniMindLM) (toks : list Z) (h : list vec) :
  mapM (Embedding_forward (tok_embeddings m)) toks = Ok h -> h = embed_pure m toks.
Proof.
  revert h; induction toks as [|t toks IH]; intros h H; cbn in H.
  - injection H as <-. reflexivity.
  - unfold Embedding_forward at 1 in H.
    destruct (t <? 0)%Z; [discriminate|].
    destruct (nth_error (tok_embeddings m) (Z.to_nat t)) as [row|] eqn:E; [|discriminate].
    cbn [bind] in H.
    destruct (mapM (Embedding_forward (tok_embeddings m)) toks) as [hs|e];
      cbn [bind] in H; [|discriminate].
    injection H as <-. unfold embed_pure. cbn [map]. f_equal.
    + symmetry. apply nth_error_nth. exact E.
    + apply IH. reflexivity.
Qed.

Lemma row_cond_of_pass (cfg : LMConfig) (m : MiniMindLM) (r : list Z) (uc : bool) y :
  model_ok cfg m ->
  MiniMindLM_forward1 m r None uc 0 = Ok y ->
  row_cond cfg m r.
Proof.
  intros Hm H. destruct (forward1_conditions _ _ _ _ _ _ Hm H) as (h & Hh & Hc).
  split; [|exact Hc]. rewrite Hh. f_equal. apply mapM_embed_pure. exact Hh.
Qed.

Lemma row_pass (cfg : LMConfig) (m : MiniMindLM) (r : list Z) (k : nat) (uc : bool) :
  model_ok cfg m -> row_cond cfg m r ->
  (length r <= model_max_length cfg)%nat -> (k <= length r)%nat ->
  MiniMindLM_forward1 m (firstn k r) None uc 0
  = Ok (logits_of m (row_full m r k), map (cache_entry uc) (row_kvs m r k)).
Proof.
  intros Hm [Hh Hc] HL Hk. exact (pass_prefix cfg m r _ Hm Hh Hc HL k uc Hk).
Qed.

Lemma row_step (cfg : LMConfig) (m : MiniMindLM) (r : list Z) (k : nat) :
  model_ok cfg m -> row_cond cfg m r ->
  (length r <= model_max_length cfg)%nat -> (k < length r)%nat ->
  MiniMindLM_forward1 m (firstn 1 (skipn k r)) (Some (map Some (row_kvs m r k))) true k
  = Ok (logits_of m [nth k (row_full m r (length r)) []], map Some (row_kvs m r (S k))).
Proof.
  intros Hm [Hh Hc] HL Hk.
  rewrite (firstn_1_skipn _ _ _ 0%Z) by exact Hk.
  exact (pass_step cfg m r _ Hm Hh Hc HL k Hk).
Qed.

Lemma row_full_length (m : MiniMindLM) (r : list Z) (k : nat) :
  (k <= length r)%nat -> length (row_full m r k) = k.
Proof.
  intro Hk. unfold row_full, embed_pure.
  rewrite stack_pure_length, length_firstn, length_map. lia.
Qed.


Section IncrementalBatch.

Variables (cfg : LMConfig) (m : MiniMindLM) (ids : list (list Z)) (n : nat).

Hypothesis Hm : model_ok cfg m.
Hypothesis Hrows : forall r, In r ids -> row_cond cfg m r /\ length r = n.
Hypothesis HL : (n <= model_max_length cfg)%nat.

Lemma prompt_pass_batch (k : nat) (uc : bool) :
  (k <= n)%nat ->
  MiniMindLM_forward m (map (firstn k) ids) None uc 0
  = Ok (map (fun r => logits_of m (row_full m r k)) ids,
        map (fun r => map (cache_entry uc) (row_kvs m r k)) ids).
Proof.
  intro Hk. apply MiniMindLM_forward_rows_nocache. intros r Hr.
  destruct (Hrows r Hr) as [Hc Hn].
  apply (row_pass cfg); try assumption; lia.
Qed.

Lemma decode_pass_batch (k : nat) :
  (k < n)%nat ->
  MiniMindLM_forward m (map (fun r => firstn 1 (skipn k r)) ids)
    (Some (map (fun r => map Some (row_kvs m r k)) ids)) true k
  = Ok (map (fun r => logits_of m [nth k (row_full m r n) []]) ids,
        map (fun r => map Some (row_kvs m r (S k))) ids).
Proof.
  intro Hk. apply MiniMindLM_forward_rows_cached. intros r Hr.
  destruct (Hrows r Hr) as [Hc Hn].
  rewrite <- Hn. apply (row_step cfg); try assumption; lia.
Qed.



End IncrementalBatch.


(** ** No weight on future keys *)

Lemma softmax_closed_entry (l : list ereal) (j : nat) :
  nth j l NegInf = NegInf -> nth j (softmax l) 0 = 0.
Proof.
  intro H. unfold softmax.
  destruct (Nat.lt_ge_cases j (length l)) as [Hj|Hj].
  - rewrite (nth_map_lt _ _ _ _ 0) by (rewrite length_map; exact Hj).
    rewrite (nth_map_lt _ _ _ _ NegInf) by exact Hj.
    rewrite H. cbn [eexp]. unfold Rdiv. apply Rmult_0_l.
  - apply nth_overflow. rewrite !length_map. exact Hj.
Qed.

Lemma attn_probs_future_zero (L : nat) (a : Attention) (seq_len : nat) (Qh Kh : list vec)
  (w : list vec) :
  mask a = causal_mask L ->
  (seq_len <= L)%nat ->
  length Qh = seq_len ->
  attn_probs a seq_len Qh Kh = Ok w ->
  forall i j, (length Kh - seq_len + i < j)%nat -> nth j (nth i w []) 0 = 0.
Proof.
  intros Hmask HL HQ H i j Hij. unfold attn_probs, add_mask in H.
  rewrite Hmask, causal_mask_slice, causal_mask_length, length_map, HQ, Nat.eqb_refl in H
    by exact HL.
  cbn [andb] in H.
  destruct (Nat.eqb_spec seq_len (length Kh)) as [EK|EK]; cbn [bind] in H.
  - injection H as <-.
    destruct (Nat.lt_ge_cases i seq_len) as [Hi|Hi].
    + rewrite (nth_map_lt _ _ _ _ []) by (rewrite map2_length, length_map, causal_mask_length; lia).
      rewrite (nth_map2_lt _ _ _ _ _ [] [])
        by (rewrite ?length_map, ?causal_mask_length; lia).
      apply softmax_closed_entry.
      rewrite causal_mask_row by exact Hi.
      rewrite (nth_map_lt _ _ _ _ []) by lia.
      destruct (Nat.lt_ge_cases j seq_len) as [Hj|Hj].
      * rewrite (nth_map2_lt _ _ _ _ _ 0 NegInf)
          by (rewrite ?length_map, ?length_app, ?repeat_length; lia).
        rewrite app_nth2 by (rewrite repeat_length; lia).
        rewrite nth_repeat. reflexivity.
      * apply nth_overflow.
        rewrite map2_length, length_map, length_app, !repeat_length. lia.
    + rewrite (nth_overflow _ []); [destruct j; reflexivity|].
      rewrite length_map, map2_length, length_map, causal_mask_length. lia.
  - destruct (Nat.eqb_spec seq_len 1) as [E1|E1]; [|discriminate].
    injection H as <-. subst seq_len.
    destruct Qh as [|q [|q' Qh']]; try discriminate. cbn [map].
    destruct i as [|i].
    + cbn [nth]. apply nth_overflow. rewrite softmax_length, !length_map. lia.
    + cbn [nth]. destruct i; destruct j; reflexivity.
Qed.

Lemma forward1_causal
  (cfg : LMConfig) (m : MiniMindLM) (toks1 toks2 : list Z) (uc : bool)
  (t : nat) (l1 l2 : list vec) (c1 c2 : list (option kv_entry)) :
  model_ok cfg m ->
  length toks1 = length toks2 ->
  (length toks1 < model_max_length cfg)%nat ->
  (t < length toks1)%nat ->
  firstn (S t) toks1 = firstn (S t) toks2 ->
  MiniMindLM_forward1 m toks1 None uc 0 = Ok (l1, c1) ->
  MiniMindLM_forward1 m toks2 None uc 0 = Ok (l2, c2) ->
  exists row, nth_error l1 t = Some row /\ nth_error l2 t = Some row.
Proof.
  intros Hm Hlen HL Ht Hpre H1 H2.
  destruct (forward1_conditions _ _ _ _ _ _ Hm H1) as (h1 & Hh1 & Hc1).
  destruct (forward1_conditions _ _ _ _ _ _ Hm H2) as (h2 & Hh2 & Hc2).
  assert (HL1 : (length toks1 <= model_max_length cfg)%nat) by lia.
  assert (HL2 : (length toks2 <= model_max_length cfg)%nat) by lia.
  pose proof (pass_prefix cfg m toks1 h1 Hm Hh1 Hc1 HL1 (length toks1) uc (le_n _)) as F1.
  pose proof (pass_prefix cfg m toks2 h2 Hm Hh2 Hc2 HL2 (length toks2) uc (le_n _)) as F2.
  rewrite firstn_all, H1 in F1. rewrite firstn_all, H2 in F2.
  injection F1 as E1 _. injection F2 as E2 _.
  assert (Hp1 : firstn (S t) l1
                = logits_of m (stack_pure (layers m) (firstn (S t) (pos_cis m))
                                 (firstn (S t) h1))).
  { rewrite E1. unfold logits_of. rewrite !firstn_map. do 2 f_equal.
    symmetry. apply (full_prefix cfg m toks1 h1 Hm Hh1 Hc1 HL1). lia. }
  assert (Hp2 : firstn (S t) l2
                = logits_of m (stack_pure (layers m) (firstn (S t) (pos_cis m))
                                 (firstn (S t) h2))).
  { rewrite E2. unfold logits_of. rewrite !firstn_map. do 2 f_equal.
    symmetry. apply (full_prefix cfg m toks2 h2 Hm Hh2 Hc2 HL2). lia. }
  assert (Hhh : firstn (S t) h1 = firstn (S t) h2).
  { pose proof (mapM_firstn _ _ _ _ _ (S t) Hh1) as A1.
    pose proof (mapM_firstn _ _ _ _ _ (S t) Hh2) as A2.
    rewrite Hpre in A1. rewrite A1 in A2. injection A2 as A2. exact A2. }
  rewrite Hhh in Hp1. rewrite <- Hp2 in Hp1.
  assert (Hn : nth_error l1 t = nth_error l2 t).
  { pose proof (nth_error_firstn (S t) l1 t) as N1.
    pose proof (nth_error_firstn (S t) l2 t) as N2.
    destruct (Nat.ltb_spec t (S t)); [|lia].
    rewrite <- N1, <- N2, Hp1. reflexivity. }
  destruct (nth_error l1 t) as [row|] eqn:Er.
  - exists row. split; [reflexivity|symmetry; exact Hn].
  - exfalso. apply nth_error_None in Er.
    rewrite E1 in Er. unfold logits_of in Er.
    rewrite !length_map, stack_pure_length, length_firstn in Er.
    pose proof (mapM_length _ _ _ _ _ Hh1). lia.
Qed.

Lemma Forall2_In_l (A B : Type) (P : A -> B -> Prop) (l1 : list A) (l2 : list B) (x : A) :
  Forall2 P l1 l2 -> In x l1 -> exists y, In y l2 /\ P x y.
Proof.
  induction 1 as [|a b l1 l2 Hab _ IH]; intros Hx; [contradiction|].
  destruct Hx as [<-|Hx].
  - exists b. split; [left; reflexivity|exact Hab].
  - destruct (IH Hx) as (y & Hy & Hp). exists y. split; [right; exact Hy|exact Hp].
Qed.

Lemma Forall2_In_r (A B : Type) (P : A -> B -> Prop) (l1 : list A) (l2 : list B) (y : B) :
  Forall2 P l1 l2 -> In y l2 -> exists x, In x l1 /\ P x y.
Proof.
  induction 1 as [|a b l1 l2 Hab _ IH]; intros Hy; [contradiction|].
  destruct Hy as [<-|Hy].
  - exists a. split; [left; reflexivity|exact Hab].
  - destruct (IH Hy) as (x & Hx & Hp). exists x. split; [right; exact Hx|exact Hp].
Qed.

Lemma Forall2_map_same (A B : Type) (f : A -> B) (P : B -> B -> Prop) (l1 l2 : list A) :
  Forall2 (fun a b => P (f a) (f b)) l1 l2 -> Forall2 P (map f l1) (map f l2).
Proof.
  induction 1; cbn; constructor; assumption.
Qed.

(** C2. With dropout disabled and two batches of token sequences of one
    length below the mask extent that agree, row by row, on the positions
    [0..t], the logits the two passes of [forward] return at position [t]
    are the same rows.  Also, in any call of the attention of a layer on
    fewer than [model_max_length] positions that returns probabilities,
    with or without cached keys, the probability of every key past the
    absolute position of the query is zero. *)
Theorem causal_noninterference
  (cfg : LMConfig) (p : ModelParams) (m : MiniMindLM) (ids1 ids2 : list (list Z))
  (n t : nat) (uc : bool) (lg1 lg2 : list (list vec))
  (c1 c2 : list (list (option kv_entry))) :
  MiniMindLM_init cfg p = Ok m ->
  dropout cfg = DropoutEval ->
  (n < model_max_length cfg)%nat ->
  (t < n)%nat ->
  Forall2 (fun r1 r2 => length r1 = n /\ length r2 = n
                        /\ firstn (S t) r1 = firstn (S t) r2) ids1 ids2 ->
  MiniMindLM_forward m ids1 None uc 0 = Ok (lg1, c1) ->
  MiniMindLM_forward m ids2 None uc 0 = Ok (lg2, c2) ->
  Forall2 (fun l1 l2 => exists row, nth_error l1 t = Some row /\ nth_error l2 t = Some row)
    lg1 lg2
  /\ (forall b seq_len Qh Kh w,
        In b (layers m) ->
        (seq_len < model_max_length cfg)%nat ->
        length Qh = seq_len ->
        attn_probs (attention b) seq_len Qh Kh = Ok w ->
        forall i j, (length Kh - seq_len + i < j)%nat -> nth j (nth i w []) 0 = 0).
Proof.
  intros Hinit Hdrop HL Ht Hpre H1 H2.
  destruct (MiniMindLM_init_ok _ _ _ Hinit Hdrop) as [Hm _].
  split.
  - assert (Hn1 : forall r, In r ids1 -> length r = n).
    { intros r Hr. destruct (Forall2_In_l _ _ _ _ _ r Hpre Hr) as (r2 & _ & Hl & _).
      exact Hl. }
    assert (Hn2 : forall r, In r ids2 -> length r = n).
    { intros r Hr. destruct (Forall2_In_r _ _ _ _ _ r Hpre Hr) as (r1 & _ & _ & Hl & _).
      exact Hl. }
    assert (R1 : forall r, In r ids1 -> row_cond cfg m r /\ length r = n).
    { intros r Hr. split; [|exact (Hn1 r Hr)].
      destruct (MiniMindLM_forward_row_returns _ _ _ _ _ r H1 Hr) as [y Hy].
      apply (row_cond_of_pass cfg m r uc y Hm Hy). }
    assert (R2 : forall r, In r ids2 -> row_cond cfg m r /\ length r = n).
    { intros r Hr. split; [|exact (Hn2 r Hr)].
      destruct (MiniMindLM_forward_row_returns _ _ _ _ _ r H2 Hr) as [y Hy].
      apply (row_cond_of_pass cfg m r uc y Hm Hy). }
    assert (HL' : (n <= model_max_length cfg)%nat) by lia.
    pose proof (prompt_pass_batch cfg m ids1 n Hm R1 HL' n uc (le_n _)) as F1.
    pose proof (prompt_pass_batch cfg m ids2 n Hm R2 HL' n uc (le_n _)) as F2.
    rewrite (map_ext_in (firstn n) (fun r => r)), map_id in F1
      by (intros r Hr; apply firstn_all2; rewrite (Hn1 r Hr); lia).
    rewrite (map_ext_in (firstn n) (fun r => r)), map_id in F2
      by (intros r Hr; apply firstn_all2; rewrite (Hn2 r Hr); lia).
    rewrite H1 in F1. rewrite H2 in F2.
    injection F1 as -> _. injection F2 as -> _.
    apply (Forall2_map_same _ _ (fun r => logits_of m (row_full m r n))
             (fun l1 l2 => exists row, nth_error l1 t = Some row /\ nth_error l2 t = Some row)).
    assert (G : forall r1 r2, In r1 ids1 -> In r2 ids2 ->
                              length r1 = n -> length r2 = n ->
                              firstn (S t) r1 = firstn (S t) r2 ->
                              exists row,
                                nth_error (logits_of m (row_full m r1 n)) t = Some row
                                /\ nth_error (logits_of m (row_full m r2 n)) t = Some row).
    { intros r1 r2 Hr1 Hr2 Hl1 Hl2 Hfs.
      destruct (R1 r1 Hr1) as [C1 _]. destruct (R2 r2 Hr2) as [C2 _].
      pose proof (row_pass cfg m r1 n uc Hm C1 ltac:(lia) ltac:(lia)) as P1.
      pose proof (row_pass cfg m r2 n uc Hm C2 ltac:(lia) ltac:(lia)) as P2.
      rewrite firstn_all2 in P1 by lia. rewrite firstn_all2 in P2 by lia.
      apply (forward1_causal cfg m r1 r2 uc t _ _ _ _ Hm ltac:(lia) ltac:(lia) ltac:(lia)
               Hfs P1 P2). }
    clear - Hpre G.
    induction Hpre as [|r1 r2 l1 l2 (Hl1 & Hl2 & Hfs) Hrest IH]; constructor.
    + apply G; try assumption; left; reflexivity.
    + apply IH. intros a b Ha Hb. apply G; right; assumption.
  - intros b seq_len Qh Kh w Hb Hs HQ Hw.
    destruct Hm as (Hls & _).
    pose proof (proj1 (Forall_forall _ _) Hls b Hb) as ((Hmask & _) & _).
    apply (attn_probs_future_zero (model_max_length cfg) (attention b) seq_len Qh Kh w);
      try assumption. lia.
Qed.


(** ** When the forward pass returns *)

Lemma Embedding_forward_valid (w : list vec) (t : Z) :
  valid_token (length w) t -> exists e, Embedding_forward w t = Ok e.
Proof.
  intros [H0 H1]. unfold Embedding_forward.
  destruct (Z.ltb_spec t 0); [lia|].
  destruct (nth_error w (Z.to_nat t)) as [row|] eqn:E.
  - exists row; reflexivity.
  - apply nth_error_None in E. lia.
Qed.

Lemma mapM_total (A B : Type) (f : A -> result B) (l : list A) :
  Forall (fun x => exists y, f x = Ok y) l -> exists l', mapM f l = Ok l'.
Proof.
  induction 1 as [|x l [y Hy] _ [l' Hl']]; cbn.
  - exists []; reflexivity.
  - rewrite Hy; cbn. rewrite Hl'; cbn. eexists; reflexivity.
Qed.

Lemma embeddings_valid (w : list vec) (toks : list Z) :
  Forall (valid_token (length w)) toks ->
  exists h, mapM (Embedding_forward w) toks = Ok h.
Proof.
  intro H. apply mapM_total. revert H. apply Forall_impl.
  intros t Ht. apply Embedding_forward_valid. exact Ht.
Qed.

Lemma MiniMindLM_forward1_nocache_returns (cfg : LMConfig) (m : MiniMindLM)
  (toks : list Z) (uc : bool) (start : nat) :
  model_ok cfg m ->
  Forall (valid_token (vocab_size cfg)) toks ->
  Nat.even (dim cfg / n_heads cfg) = true ->
  (start + length toks <= rope_end)%nat ->
  (length toks <= model_max_length cfg)%nat ->
  exists logits kvs,
    MiniMindLM_forward1 m toks None uc start = Ok (logits, map (cache_entry uc) kvs)
    /\ length logits = length toks
    /\ length kvs = length (layers m).
Proof.
  intros Hm Hv Heven Hend HL. pose proof Hm as (_ & _ & Hemb & _).
  rewrite <- Hemb in Hv. destruct (embeddings_valid _ _ Hv) as [h Hh].
  eexists. eexists. split; [|split].
  - apply (MiniMindLM_forward1_nocache cfg); try eassumption.
    intros _. split; assumption.
  - unfold logits_of. rewrite !length_map, stack_pure_length.
    apply (mapM_length _ _ _ _ _ Hh).
  - apply stack_kvs_length.
Qed.

Lemma MiniMindLM_forward1_cached_returns (cfg : LMConfig) (m : MiniMindLM) (t : Z)
  (kvs : list (list (list vec) * list (list vec))) (uc : bool) (start : nat) :
  model_ok cfg m ->
  valid_token (vocab_size cfg) t ->
  length kvs = length (layers m) ->
  Nat.even (dim cfg / n_heads cfg) = true ->
  (start < rope_end)%nat ->
  (1 <= model_max_length cfg)%nat ->
  exists logits kvs',
    MiniMindLM_forward1 m [t] (Some (map Some kvs)) uc start
    = Ok (logits, map (cache_entry uc) kvs')
    /\ length logits = 1%nat
    /\ length kvs' = length (layers m).
Proof.
  intros Hm Hv Hlen Heven Hend HL. pose proof Hm as (_ & _ & Hemb & _).
  rewrite <- Hemb in Hv. destruct (Embedding_forward_valid _ _ Hv) as [e He].
  eexists. eexists. split; [|split].
  - apply (MiniMindLM_forward1_cached cfg); try eassumption.
    intros _. split; assumption.
  - reflexivity.
  - apply stack_step_kvs_length. exact Hlen.
Qed.

Lemma mapM_rows (A B : Type) (f : A -> result B) (P : B -> Prop) (l : list A) :
  Forall (fun x => exists y, f x = Ok y /\ P y) l ->
  exists l', mapM f l = Ok l' /\ Forall P l'.
Proof.
  induction 1 as [|x l (y & Hy & Py) _ (l' & Hl' & Pl')]; cbn.
  - exists []; split; [reflexivity|constructor].
  - rewrite Hy; cbn. rewrite Hl'; cbn. eexists; split; [reflexivity|].
    constructor; assumption.
Qed.

(** A pass of [generate] over a batch: the prompt pass or a cached
    single-token pass. *)
Lemma MiniMindLM_forward_returns (cfg : LMConfig) (m : MiniMindLM) (ids : list (list Z))
  (past : option (list (list (option kv_entry)))) (start n : nat) :
  model_ok cfg m ->
  Nat.even (dim cfg / n_heads cfg) = true ->
  Forall (fun r => Forall (valid_token (vocab_size cfg)) r /\ length r = n) ids ->
  (start + n <= rope_end)%nat ->
  (n <= model_max_length cfg)%nat ->
  match past with
  | None => True
  | Some c => n = 1%nat /\ length c = length ids /\ cache_wf m c
  end ->
  exists out,
    MiniMindLM_forward m ids past true start = Ok out
    /\ Forall (fun lg : list vec => length lg = n) (fst out)
    /\ cache_wf m (snd out).
Proof.
  intros Hm Heven Hids Hend HL Hpast. unfold MiniMindLM_forward.
  set (pasts := match past with
                | None => map (fun _ => None) ids
                | Some l => map Some l
                end).
  assert (Hrows : Forall (fun x : list Z * option (list (option kv_entry)) =>
                            exists y, (let '(r, p) := x in
                                       MiniMindLM_forward1 m r p true start) = Ok y
                                      /\ (length (fst y) = n
                                          /\ exists kvs, snd y = map Some kvs
                                                         /\ length kvs = length (layers m)))
                    (combine ids pasts)).
  { apply Forall_forall. intros [r pr] Hin.
    pose proof (in_combine_l _ _ _ _ Hin) as Hr.
    pose proof (in_combine_r _ _ _ _ Hin) as Hp.
    pose proof (proj1 (Forall_forall _ _) Hids r Hr) as [Hv Hn].
    unfold pasts in Hp. destruct past as [c|].
    - destruct Hpast as (Hn1 & Hlc & Hwf).
      apply in_map_iff in Hp. destruct Hp as (rc & <- & Hrc).
      destruct (proj1 (Forall_forall _ _) Hwf rc Hrc) as (kvs & -> & Hk).
      subst n. destruct r as [|t [|t' r']]; try discriminate.
      inversion Hv as [|? ? Ht _]; subst.
      destruct (MiniMindLM_forward1_cached_returns cfg m t kvs true start Hm Ht Hk Heven
                  ltac:(lia) HL) as (lg & kvs' & E & Hl & Hk').
      eexists. split; [exact E|]. cbn [fst snd]. split; [exact Hl|].
      exists kvs'. split; [reflexivity|exact Hk'].
    - apply in_map_iff in Hp. destruct Hp as (x & <- & _).
      destruct (MiniMindLM_forward1_nocache_returns cfg m r true start Hm Hv Heven
                  ltac:(lia) ltac:(lia)) as (lg & kvs' & E & Hl & Hk').
      eexists. split; [exact E|]. cbn [fst snd]. split; [lia|].
      exists kvs'. split; [reflexivity|exact Hk']. }
  destruct (mapM_rows _ _ _ _ _ Hrows) as (outs & E & Houts).
  rewrite E. cbn [bind]. eexists. split; [reflexivity|]. cbn [fst snd].
  split.
  - apply Forall_forall. intros lg Hlg. apply in_map_iff in Hlg.
    destruct Hlg as (y & <- & Hy).
    apply (proj1 (Forall_forall _ _) Houts y Hy).
  - unfold cache_wf. apply Forall_forall. intros rc Hrc. apply in_map_iff in Hrc.
    destruct Hrc as (y & <- & Hy).
    apply (proj1 (Forall_forall _ _) Houts y Hy).
Qed.

(** ** Running the loop body *)

Lemma mapi_index_only (A B : Type) (g : nat -> B) (l : list A) :
  mapi (fun i _ => g i) l = map g (seq 0 (length l)).
Proof.
  unfold mapi. generalize 0%nat as a.
  induction l as [|x l IH]; intro a; cbn; [reflexivity|]. f_equal. apply IH.
Qed.

Lemma last_row_total (ls : list (list vec)) (n : nat) :
  (1 <= n)%nat -> Forall (fun lg : list vec => length lg = n) ls ->
  exists rows, mapM last_row ls = Ok rows.
Proof.
  intros Hn H. apply mapM_total. revert H. apply Forall_impl.
  intros lg Hlg. unfold last_row.
  destruct (nth_error lg (length lg - 1)) as [r|] eqn:E.
  - exists r; reflexivity.
  - apply nth_error_None in E. lia.
Qed.

Lemma generate_step_run (cfg : LMConfig) (m : MiniMindLM) (g : nat -> nat -> Z)
  (eos_token_id : Z) (temperature rp : R) (cur_pos : nat) (st : GenerationState)
  (B T : nat) :
  model_ok cfg m ->
  Nat.even (dim cfg / n_heads cfg) = true ->
  length (gen_output st) = B ->
  Forall (fun r => Forall (valid_token (vocab_size cfg)) r /\ length r = T) (gen_output st) ->
  (1 <= cur_pos < T)%nat ->
  (cur_pos <= rope_end)%nat ->
  match past_key_values st with
  | None => (cur_pos <= model_max_length cfg)%nat
  | Some c => length c = B /\ cache_wf m c /\ (1 <= model_max_length cfg)%nat
  end ->
  let next := map (g cur_pos) (seq 0 B) in
  let eos' := map (flag_row eos_token_id)
                  (combine (eos_reached st) (combine (active_mask st) next)) in
  exists c',
    generate_step m (fun cp i _ => g cp i) eos_token_id temperature 1 rp true cur_pos st
    = Ok {| gen_output := map (write_row cur_pos)
                              (combine (gen_output st) (combine (active_mask st) next));
            active_mask := map negb eos';
            eos_reached := eos';
            past_key_values := Some c';
            start_pos := match past_key_values st with
                         | None => O
                         | Some _ => (cur_pos - 1)%nat
                         end |}
    /\ length c' = B
    /\ cache_wf m c'.
Proof.
  intros Hm Heven HB Hrows Hcur Hend Hpast next eos'.
  unfold generate_step.
  set (inputs := match past_key_values st with
                 | None => (map (firstn cur_pos) (gen_output st), O)
                 | Some _ => (map (fun r => firstn 1 (skipn (cur_pos - 1) r)) (gen_output st),
                              (cur_pos - 1)%nat)
                 end).
  assert (Hfwd : exists out,
             MiniMindLM_forward m (fst inputs) (past_key_values st) true (snd inputs) = Ok out
             /\ (exists n, (1 <= n)%nat /\ Forall (fun lg : list vec => length lg = n) (fst out))
             /\ length (fst out) = B /\ length (snd out) = B
             /\ cache_wf m (snd out)
             /\ snd inputs = match past_key_values st with
                             | None => O
                             | Some _ => (cur_pos - 1)%nat
                             end).
  { unfold inputs. destruct (past_key_values st) as [c|] eqn:Ep; cbn [fst snd].
    - destruct Hpast as (Hc & Hwf & HL).
      destruct (MiniMindLM_forward_returns cfg m
                  (map (fun r => firstn 1 (skipn (cur_pos - 1) r)) (gen_output st))
                  (Some c) (cur_pos - 1) 1 Hm Heven) as (out & E & Hlg & Hwf').
      + apply Forall_forall. intros r Hr. apply in_map_iff in Hr.
        destruct Hr as (r0 & <- & Hr0).
        destruct (proj1 (Forall_forall _ _) Hrows r0 Hr0) as [Hv Hl].
        split; [apply Forall_firstn, Forall_skipn; exact Hv|].
        rewrite length_firstn, length_skipn. lia.
      + lia.
      + exact HL.
      + rewrite length_map. repeat split; try assumption. lia.
      + exists out. split; [exact E|]. split; [exists 1%nat; split; [lia|exact Hlg]|].
        apply MiniMindLM_forward_length in E.
        * rewrite length_map in E. destruct E as [E1 E2].
          repeat split; try assumption; lia.
        * intros c0 [= <-]. rewrite length_map. lia.
    - destruct (MiniMindLM_forward_returns cfg m (map (firstn cur_pos) (gen_output st))
                  None 0 cur_pos Hm Heven) as (out & E & Hlg & Hwf').
      + apply Forall_forall. intros r Hr. apply in_map_iff in Hr.
        destruct Hr as (r0 & <- & Hr0).
        destruct (proj1 (Forall_forall _ _) Hrows r0 Hr0) as [Hv Hl].
        split; [apply Forall_firstn; exact Hv|].
        rewrite length_firstn. lia.
      + lia.
      + exact Hpast.
      + exact I.
      + exists out. split; [exact E|]. split; [exists cur_pos; split; [lia|exact Hlg]|].
        apply MiniMindLM_forward_length in E.
        * rewrite length_map in E. destruct E as [E1 E2].
          repeat split; try assumption; lia.
        * intros c0 [=]. }
  destruct Hfwd as (out & E & (n & Hn & Hlg) & Hl1 & Hl2 & Hwf & Hstart).
  destruct inputs as [model_inputs start]. cbn [fst snd] in E, Hstart.
  rewrite E. cbn [bind].
  destruct (last_row_total _ _ Hn Hlg) as [rows Erows].
  rewrite Erows. cbn [bind].
  apply mapM_length in Erows.
  unfold top_p_step.
  destruct (Rlt_dec 1 1) as [Hlt|_]; [exfalso; lra|].
  cbn [bind].
  rewrite mapi_index_only, !length_map.
  assert (Hlen : length (if Req_dec_T rp 1
                         then map (map (fun x => x * inv_temp temperature)) rows
                         else repetition_penalty (rp_factor rp) (gen_output st)
                                (active_mask st) cur_pos
                                (map (map (fun x => x * inv_temp temperature)) rows))
                 = B).
  { destruct (Req_dec_T rp 1); rewrite ?repetition_penalty_length, length_map; lia. }
  rewrite Hlen.
  exists (snd out). split; [|split; assumption].
  subst start. reflexivity.
Qed.

(** ** Example runs *)

Lemma example_init (L : nat) :
  exists m, MiniMindLM_init (example_config L) example_params = Ok m.
Proof.
  eexists. reflexivity.
Qed.

Lemma example_model_ok (L : nat) (m : MiniMindLM) :
  MiniMindLM_init (example_config L) example_params = Ok m ->
  model_ok (example_config L) m.
Proof.
  intro H. apply (MiniMindLM_init_ok _ _ _ H). reflexivity.
Qed.

Lemma valid_rows_dec (V T : nat) (rows : list (list Z)) :
  forallb (fun r => forallb (fun t => (0 <=? t)%Z && (t <? Z.of_nat V)%Z) r
                    && (length r =? T)%nat) rows = true ->
  Forall (fun r => Forall (valid_token V) r /\ length r = T) rows.
Proof.
  intro H. apply Forall_forall. intros r Hr.
  apply (proj1 (forallb_forall _ _) H) in Hr.
  apply andb_prop in Hr. destruct Hr as [Hv Hl]. split.
  - apply Forall_forall. intros t Ht.
    apply (proj1 (forallb_forall _ _) Hv) in Ht.
    apply andb_prop in Ht. destruct Ht as [H0 H1]. unfold valid_token. lia.
  - apply Nat.eqb_eq. exact Hl.
Qed.

(** Replaces the next loop iteration of a concrete run by its result. *)
Ltac run_generate_step Hm Heven B T :=
  match goal with
  | |- context [generate_step ?m (fun cp i _ => ?g cp i) ?eos ?temp 1 ?rp true ?cur ?st] =>
      let c := fresh "c" in
      let E := fresh "E" in
      let Hc := fresh "Hc" in
      let Hw := fresh "Hw" in
      destruct (generate_step_run _ m g eos temp rp cur st B T Hm Heven)
        as (c & E & Hc & Hw);
      [ reflexivity
      | apply valid_rows_dec; reflexivity
      | lia
      | unfold rope_end; lia
      | cbn [past_key_values generate_init model_max_length example_config];
        first [lia | (split; [assumption|split; [assumption|lia]])]
      | rewrite E; clear E;
        cbn [bind gen_output active_mask eos_reached past_key_values
             map combine seq write_row flag_row fst snd update_nth negb any existsb orb
             example_sampler constant_sampler Nat.eqb Z.eqb Pos.eqb] ]
  end.

Lemma example_run_two_rows (m : MiniMindLM) (temperature : R) :
  MiniMindLM_init (example_config 8) example_params = Ok m ->
  exists st,
    generate_state m (fun cp i _ => example_sampler cp i) 2 temperature 1 1 true
      [[1]; [1]]%Z 3 0 = Ok st
    /\ gen_output st = [[1; 2; 0; 0]; [1; 3; 3; 3]]%Z.
Proof.
  intro Hinit. pose proof (example_model_ok 8 m Hinit) as Hm.
  assert (Heven : Nat.even (dim (example_config 8) / n_heads (example_config 8)) = true)
    by reflexivity.
  unfold generate_state.
  cbn [size1 length seq generate_loop generate_init repeat map2 combine map fst snd skipn app
       active_mask any existsb negb orb Nat.add].
  run_generate_step Hm Heven 2%nat 4%nat.
  run_generate_step Hm Heven 2%nat 4%nat.
  run_generate_step Hm Heven 2%nat 4%nat.
  eexists. split; reflexivity.
Qed.

(** A prompt as long as [model_max_length = 2], two more tokens asked. *)
Lemma example_run_at_max_length (m : MiniMindLM) (temperature : R) :
  MiniMindLM_init (example_config 2) example_params = Ok m ->
  exists st c,
    generate_state m (fun cp i _ => constant_sampler cp i) 2 temperature 1 1 true
      [[1; 1]]%Z 2 0 = Ok st
    /\ gen_output st = [[1; 1; 3; 3]]%Z
    /\ past_key_values st = Some c
    /\ start_pos st = 2%nat.
Proof.
  intro Hinit. pose proof (example_model_ok 2 m Hinit) as Hm.
  assert (Heven : Nat.even (dim (example_config 2) / n_heads (example_config 2)) = true)
    by reflexivity.
  unfold generate_state.
  cbn [size1 length seq generate_loop generate_init repeat map2 combine map fst snd skipn app
       active_mask any existsb negb orb Nat.add].
  run_generate_step Hm Heven 1%nat 4%nat.
  run_generate_step Hm Heven 1%nat 4%nat.
  eexists. eexists. repeat split.
Qed.

Lemma generate_of_state (self : MiniMindLM) (multinomial : nat -> nat -> vec -> Z)
  (eos_token_id : Z) (temperature top_p rp : R) (use_cache : bool)
  (input_ids : list (list Z)) (max_new_tokens : nat) (pad : Z) (st : GenerationState) :
  generate_state self multinomial eos_token_id temperature top_p rp use_cache
    input_ids max_new_tokens pad = Ok st ->
  generate self multinomial eos_token_id temperature top_p rp use_cache
    input_ids max_new_tokens pad = Ok (gen_output st).
Proof.
  intro H. unfold generate. rewrite H. reflexivity.
Qed.

Lemma generate_preserves_prompt_witness :
  exists m out,
    MiniMindLM_init (example_config 8) example_params = Ok m
    /\ Forall (fun r => length r = size1 [[1]; [1]]%Z) [[1]; [1]]%Z
    /\ generate m (fun cp i _ => example_sampler cp i) 2 1 1 1 true [[1]; [1]]%Z 3 0 = Ok out
    /\ out = [[1; 2; 0; 0]; [1; 3; 3; 3]]%Z
    /\ map (firstn (size1 [[1]; [1]]%Z)) out = [[1]; [1]]%Z.
Proof.
  destruct (example_init 8) as [m Hm].
  destruct (example_run_two_rows m 1 Hm) as (st & Hst & Hout).
  assert (Hrect : Forall (fun r => length r = size1 [[1]; [1]]%Z) [[1]; [1]]%Z)
    by (repeat constructor).
  exists m, (gen_output st).
  split; [exact Hm|]. split; [exact Hrect|].
  split; [apply generate_of_state; exact Hst|]. split; [exact Hout|].
  exact (generate_preserves_prompt m _ 2 1 1 1 true [[1]; [1]]%Z 3 0%Z (gen_output st)
           Hrect (generate_of_state _ _ _ _ _ _ _ _ _ _ _ Hst)).
Defined.

Lemma generate_finished_rows_stay_padded_witness :
  exists m out,
    MiniMindLM_init (example_config 8) example_params = Ok m
    /\ generate m (fun cp i _ => example_sampler cp i) 2 1 1 1 true [[1]; [1]]%Z 3 0 = Ok out
    /\ nth_error out 0 = Some [1; 2; 0; 0]%Z
    /\ nth_error out 1 = Some [1; 3; 3; 3]%Z
    /\ nth_error [1; 2; 0; 0]%Z 1 = Some 2%Z
    /\ nth_error [1; 2; 0; 0]%Z 3 = Some 0%Z.
Proof.
  destruct (example_init 8) as [m Hm].
  destruct (example_run_two_rows m 1 Hm) as (st & Hst & Hout).
  assert (Hrect : Forall (fun r => length r = size1 [[1]; [1]]%Z) [[1]; [1]]%Z)
    by (repeat constructor).
  assert (Hrow : nth_error (gen_output st) 0 = Some [1; 2; 0; 0]%Z)
    by (rewrite Hout; reflexivity).
  exists m, (gen_output st).
  split; [exact Hm|]. split; [apply generate_of_state; exact Hst|].
  split; [exact Hrow|]. split; [rewrite Hout; reflexivity|]. split; [reflexivity|].
  exact (generate_finished_rows_stay_padded m _ 2 1 1 1 true [[1]; [1]]%Z 3 0%Z
           (gen_output st) Hrect (generate_of_state _ _ _ _ _ _ _ _ _ _ _ Hst)
           0%nat [1; 2; 0; 0]%Z 1%nat 3%nat Hrow
           ltac:(cbn; lia) ltac:(cbn; lia) eq_refl).
Defined.

(** ** The length budget *)

Lemma generate_step_sets_cache
  (self : MiniMindLM) (multinomial : nat -> nat -> vec -> Z) (eos_token_id : Z)
  (temperature top_p rp : R) (use_cache : bool) (cur_pos : nat) (st st' : GenerationState) :
  generate_step self multinomial eos_token_id temperature top_p rp use_cache cur_pos st = Ok st' ->
  exists c, past_key_values st' = Some c.
Proof.
  unfold generate_step. intro H.
  destruct (match past_key_values st with
            | None => (map (firstn cur_pos) (gen_output st), O)
            | Some _ => (map (fun r => firstn 1 (skipn (cur_pos - 1) r)) (gen_output st),
                         (cur_pos - 1)%nat)
            end) as [model_inputs start].
  destruct (MiniMindLM_forward self model_inputs (past_key_values st) use_cache start)
    as [out|e]; cbn [bind] in H; [|discriminate].
  destruct (mapM last_row (fst out)) as [logits|e]; cbn [bind] in H; [|discriminate].
  match type of H with
  | bind ?top _ = _ => destruct top as [logits'|e]; cbn [bind] in H; [|discriminate]
  end.
  injection H as <-. eexists. reflexivity.
Qed.

Lemma generate_loop_keeps_cache
  (self : MiniMindLM) (multinomial : nat -> nat -> vec -> Z) (eos_token_id : Z)
  (temperature top_p rp : R) (use_cache : bool) (positions : list nat)
  (st st_f : GenerationState) (c : list (list (option kv_entry))) :
  generate_loop self multinomial eos_token_id temperature top_p rp use_cache positions st
    = Ok st_f ->
  past_key_values st = Some c ->
  exists c', past_key_values st_f = Some c'.
Proof.
  revert st c; induction positions as [|cur rest IH]; intros st c H Hc; cbn [generate_loop] in H.
  - injection H as <-. exists c; exact Hc.
  - destruct (negb (any (active_mask st))).
    + injection H as <-. exists c; exact Hc.
    + destruct (generate_step self multinomial eos_token_id temperature top_p rp use_cache
                  cur st) as [st'|e] eqn:E; cbn [bind] in H; [|discriminate].
      destruct (generate_step_sets_cache _ _ _ _ _ _ _ _ _ _ E) as [c1 Hc1].
      destruct (negb (any (active_mask st'))).
      * injection H as <-. exists c1; exact Hc1.
      * apply (IH st' c1); assumption.
Qed.

Lemma any_repeat_true (n : nat) : any (repeat true n) = negb (n =? 0)%nat.
Proof.
  destruct n; reflexivity.
Qed.

(** C4, as the code has it.  [generate] never reads [model_max_length]:
    the loop runs over the positions [prompt_length .. prompt_length +
    max_new_tokens - 1] whatever the prompt length.  A call that returns
    has made no forward pass exactly when [max_new_tokens = 0] (the prompt
    already fills the buffer of width [max_seq_len]) or the batch is
    empty, and then the buffer is the initial one: the prompt followed by
    pad values.  Otherwise the first iteration ran on the whole prompt. *)
Theorem generate_length_policy
  (self : MiniMindLM) (multinomial : nat -> nat -> vec -> Z) (eos_token_id : Z)
  (temperature top_p rp : R) (use_cache : bool) (input_ids : list (list Z))
  (max_new_tokens : nat) (pad : Z) (st : GenerationState) :
  generate_state self multinomial eos_token_id temperature top_p rp use_cache
    input_ids max_new_tokens pad = Ok st ->
  (past_key_values st = None <-> (max_new_tokens = 0%nat \/ input_ids = []))
  /\ (past_key_values st = None -> st = generate_init input_ids max_new_tokens pad)
  /\ (max_new_tokens <> 0%nat -> input_ids <> [] ->
      exists st1,
        generate_step self multinomial eos_token_id temperature top_p rp use_cache
          (size1 input_ids) (generate_init input_ids max_new_tokens pad) = Ok st1).
Proof.
  unfold generate_state. intro H.
  destruct max_new_tokens as [|n].
  - cbn [seq generate_loop] in H. injection H as <-.
    split; [split; [intros _; left; reflexivity|intros _; reflexivity]|].
    split; [intros _; reflexivity|intros Hn; contradiction].
  - cbn [seq generate_loop] in H.
    cbn [generate_init active_mask] in H. rewrite any_repeat_true, negb_involutive in H.
    destruct (Nat.eqb_spec (length input_ids) 0) as [E0|E0].
    + injection H as <-. destruct input_ids; [|discriminate].
      split; [split; [intros _; right; reflexivity|intros _; reflexivity]|].
      split; [intros _; reflexivity|intros _ Hn; contradiction].
    + match type of H with
      | bind ?g _ = _ => destruct g as [st1|e] eqn:E1; cbn [bind] in H; [|discriminate]
      end.
      destruct (generate_step_sets_cache _ _ _ _ _ _ _ _ _ _ E1) as [c1 Hc1].
      assert (Hsome : exists c', past_key_values st = Some c').
      { destruct (negb (any (active_mask st1))).
        - injection H as <-. exists c1; exact Hc1.
        - apply (generate_loop_keeps_cache _ _ _ _ _ _ _ _ _ _ c1 H Hc1). }
      destruct Hsome as [c' Hc'].
      split; [split|split].
      * intro Hn. congruence.
      * intros [Hn|Hn]; [discriminate|]. subst input_ids. contradiction.
      * intro Hn. congruence.
      * intros _ _. exists st1. reflexivity.
Qed.

Lemma generate_length_policy_witness :
  exists m st,
    MiniMindLM_init (example_config 2) example_params = Ok m
    /\ generate_state m (fun cp i _ => constant_sampler cp i) 2 1 1 1 true [[1; 1]]%Z 2 0
       = Ok st
    /\ (past_key_values st = None <-> (2%nat = 0%nat \/ [[1; 1]]%Z = []))
    /\ (past_key_values st = None -> st = generate_init [[1; 1]]%Z 2 0)
    /\ (2%nat <> 0%nat -> [[1; 1]]%Z <> [] ->
        exists st1,
          generate_step m (fun cp i _ => constant_sampler cp i) 2 1 1 1 true
            (size1 [[1; 1]]%Z) (generate_init [[1; 1]]%Z 2 0) = Ok st1).
Proof.
  destruct (example_init 2) as [m Hm].
  destruct (example_run_at_max_length m 1 Hm) as (st & c & Hst & _).
  exists m, st. split; [exact Hm|]. split; [exact Hst|].
  exact (generate_length_policy m _ 2 1 1 1 true [[1; 1]]%Z 2 0%Z st Hst).
Defined.

(** C4 as stated fails: with [model_max_length = 2] and a prompt of two
    tokens, a call asking for two new tokens makes the prompt pass and a
    cached pass starting at position 2, and returns two sampled tokens
    after the prompt instead of pad values. *)
Lemma generate_at_max_length_counterexample :
  exists m st c,
    MiniMindLM_init (example_config 2) example_params = Ok m
    /\ size1 [[1; 1]]%Z = model_max_length (example_config 2)
    /\ generate_state m (fun cp i _ => constant_sampler cp i) 2 1 1 1 true [[1; 1]]%Z 2 0
       = Ok st
    /\ generate m (fun cp i _ => constant_sampler cp i) 2 1 1 1 true [[1; 1]]%Z 2 0
       = Ok [[1; 1; 3; 3]]%Z
    /\ [[1; 1; 3; 3]]%Z <> [[1; 1; 0; 0]]%Z
    /\ past_key_values st = Some c
    /\ start_pos st = model_max_length (example_config 2).
Proof.
  destruct (example_init 2) as [m Hm].
  destruct (example_run_at_max_length m 1 Hm) as (st & c & Hst & Hout & Hc & Hs).
  exists m, st, c. split; [exact Hm|]. split; [reflexivity|]. split; [exact Hst|].
  split; [rewrite <- Hout; apply generate_of_state; exact Hst|].
  split; [discriminate|]. split; [exact Hc|exact Hs].
Qed.

(** ** Rotary position encoding *)

Lemma view_as_complex_real (l : list (R * R)) : view_as_complex (view_as_real l) = l.
Proof.
  unfold view_as_real. induction l as [|[a b] t IH]; cbn; [reflexivity|].
  f_equal. exact IH.
Qed.

Lemma Cabs_rotation (a : R * R) (angle : R) : Cabs (Cmul a (polar 1 angle)) = Cabs a.
Proof.
  destruct a as [x y]. unfold Cabs, Cmul, polar. cbn [fst snd]. f_equal.
  pose proof (sin2_cos2 angle) as H. unfold Rsqr in H.
  replace ((x * (1 * cos angle) - y * (1 * sin angle))
           * (x * (1 * cos angle) - y * (1 * sin angle))
           + (x * (1 * sin angle) + y * (1 * cos angle))
             * (x * (1 * sin angle) + y * (1 * cos angle)))
    with ((x * x + y * y) * (sin angle * sin angle + cos angle * cos angle)) by ring.
  rewrite H. ring.
Qed.

Lemma view_as_complex_length (x : vec) : length (view_as_complex x) = (length x / 2)%nat.
Proof.
  assert (G : forall n (x : vec), (length x <= n)%nat ->
                                  length (view_as_complex x) = (length x / 2)%nat).
  { induction n as [|n IH]; intros [|a [|b t]] H; cbn [length view_as_complex] in *;
      try reflexivity; try lia.
    rewrite IH by lia.
    change (S (S (length t))) with (2 + length t)%nat.
    replace (2 + length t)%nat with (length t + 1 * 2)%nat by lia.
    rewrite Nat.div_add by lia. lia. }
  apply (G (length x)). lia.
Qed.

Lemma rotate_magnitudes (pc : list (R * R)) (x : vec) :
  Forall (fun c => exists angle, c = polar 1 angle) pc ->
  (length x / 2 <= length pc)%nat ->
  map Cabs (view_as_complex (rotate pc x)) = map Cabs (view_as_complex x).
Proof.
  intros Hpc Hlen. unfold rotate. rewrite view_as_complex_real.
  rewrite <- view_as_complex_length in Hlen.
  generalize dependent (view_as_complex x). intros cs. revert pc Hpc.
  induction cs as [|c cs IH]; intros pc Hpc Hlen; [reflexivity|].
  destruct pc as [|p pc]; cbn [length] in Hlen; [lia|].
  inversion Hpc as [|? ? [angle ->] Hpc']; subst.
  unfold map2. cbn [combine map fst snd]. rewrite Cabs_rotation. f_equal.
  apply IH; [exact Hpc'|lia].
Qed.

Lemma pos_cis_rows_unit (d e : nat) (theta : R) (row : list (R * R)) :
  In row (precompute_pos_cis d e theta) ->
  Forall (fun c => exists angle, c = polar 1 angle) row /\ length row = (d / 2)%nat.
Proof.
  unfold precompute_pos_cis. intro H. apply in_map_iff in H.
  destruct H as (t & <- & _). split.
  - apply Forall_forall. intros c Hc. apply in_map_iff in Hc.
    destruct Hc as (f & <- & _). eexists. reflexivity.
  - rewrite !length_map, length_seq. reflexivity.
Qed.

(** The magnitudes of the adjacent coordinate pairs of a head vector. *)
Lemma rotary_rows_magnitudes (hd : nat) (x : list (list vec)) (pcs : list (list (R * R))) :
  Forall (fun row => Forall (fun c => exists angle, c = polar 1 angle) row
                     /\ length row = (hd / 2)%nat) pcs ->
  Forall (Forall (fun v : vec => length v = hd)) x ->
  map (map (fun v => map Cabs (view_as_complex v)))
      (map2 (fun heads pc => map (rotate pc) heads) x pcs)
  = map (map (fun v => map Cabs (view_as_complex v))) (firstn (length pcs) x).
Proof.
  revert pcs; induction x as [|heads x IH]; intros [|pc pcs] Hpcs Hx; try reflexivity.
  inversion Hpcs as [|? ? [Hunit Hlen] Hpcs']; subst.
  inversion Hx as [|? ? Hheads Hx']; subst.
  unfold map2. cbn [combine map fst snd length firstn]. f_equal.
  - rewrite map_map. apply map_ext_in. intros v Hv.
    apply rotate_magnitudes; [exact Hunit|].
    rewrite (proj1 (Forall_forall _ _) Hheads v Hv), Hlen. lia.
  - apply IH; assumption.
Qed.

(** C9. For head vectors of [head_dim] entries and positions inside the
    precomputed table, [apply_rotary_emb] returns, and every adjacent
    coordinate pair of every query and key head vector keeps its magnitude
    (the table entries are [polar 1 angle]); in exact arithmetic the
    magnitudes are equal, hence within every tolerance. *)
Theorem apply_rotary_emb_preserves_magnitudes
  (hd e : nat) (theta : R) (start : nat) (xq xk : list (list vec)) :
  Nat.even hd = true ->
  length xk = length xq ->
  (start + length xq <= e)%nat ->
  Forall (Forall (fun v : vec => length v = hd)) xq ->
  Forall (Forall (fun v : vec => length v = hd)) xk ->
  exists xq' xk',
    apply_rotary_emb hd xq xk
      (firstn (length xq) (skipn start (precompute_pos_cis hd e theta))) = Ok (xq', xk')
    /\ pair_magnitudes xq' = pair_magnitudes xq
    /\ pair_magnitudes xk' = pair_magnitudes xk
    /\ forall tol i h j,
         0 < tol ->
         Rabs (nth j (nth h (nth i (pair_magnitudes xq') []) []) 0
               - nth j (nth h (nth i (pair_magnitudes xq) []) []) 0) < tol
         /\ Rabs (nth j (nth h (nth i (pair_magnitudes xk') []) []) 0
                  - nth j (nth h (nth i (pair_magnitudes xk) []) []) 0) < tol.
Proof.
  intros Heven Hk Hend Hq Hkv.
  set (pcs := firstn (length xq) (skipn start (precompute_pos_cis hd e theta))).
  assert (Hlen : length pcs = length xq).
  { unfold pcs. rewrite length_firstn, length_skipn, precompute_pos_cis_length. lia. }
  assert (Hunit : Forall (fun row => Forall (fun c => exists angle, c = polar 1 angle) row
                                     /\ length row = (hd / 2)%nat) pcs).
  { unfold pcs. apply Forall_firstn, Forall_skipn, Forall_forall.
    intros row Hrow. apply (pos_cis_rows_unit _ _ _ _ Hrow). }
  assert (Hwidth : Forall (fun row : list (R * R) => length row = (hd / 2)%nat) pcs).
  { revert Hunit. apply Forall_impl. intros row [_ Hrow]. exact Hrow. }
  unfold apply_rotary_emb.
  rewrite Heven, Hlen, Nat.eqb_refl, (rows_width_forallb _ _ _ Hwidth). cbn [negb andb].
  eexists. eexists. split; [reflexivity|].
  assert (Eq : pair_magnitudes (map2 (fun heads pc => map (rotate pc) heads) xq pcs)
               = pair_magnitudes xq).
  { unfold pair_magnitudes. rewrite (rotary_rows_magnitudes hd) by assumption.
    rewrite firstn_all2 by lia. reflexivity. }
  assert (Ek : pair_magnitudes (map2 (fun heads pc => map (rotate pc) heads) xk pcs)
               = pair_magnitudes xk).
  { unfold pair_magnitudes. rewrite (rotary_rows_magnitudes hd) by assumption.
    rewrite firstn_all2 by lia. reflexivity. }
  split; [exact Eq|]. split; [exact Ek|].
  intros tol i h j Htol. rewrite Eq, Ek.
  rewrite !Rminus_diag, Rabs_R0. split; exact Htol.
Qed.

Lemma apply_rotary_emb_preserves_magnitudes_witness :
  exists xq' xk',
    apply_rotary_emb 2 [[[3; 4]]; [[1; 2]]] [[[1; 0]]; [[0; 5]]]
      (firstn 2 (skipn 1 (precompute_pos_cis 2 4 1000000))) = Ok (xq', xk')
    /\ pair_magnitudes xq' = pair_magnitudes [[[3; 4]]; [[1; 2]]]
    /\ pair_magnitudes xk' = pair_magnitudes [[[1; 0]]; [[0; 5]]].
Proof.
  destruct (apply_rotary_emb_preserves_magnitudes 2 4 1000000 1
              [[[3; 4]]; [[1; 2]]] [[[1; 0]]; [[0; 5]]])
    as (xq' & xk' & E & Hq & Hk & _).
  - reflexivity.
  - reflexivity.
  - cbn; lia.
  - repeat constructor.
  - repeat constructor.
  - exists xq', xk'. split; [exact E|]. split; [exact Hq|exact Hk].
Defined.

(** ** FeedForward *)

Lemma nth_error_mapi (A B : Type) (f : nat -> A -> B) (l : list A) (i : nat) :
  nth_error (mapi f l) i = option_map (f i) (nth_error l i).
Proof.
  unfold mapi. rewrite nth_error_map, nth_error_combine, nth_error_seq.
  destruct (Nat.ltb_spec i (length l)) as [H|H].
  - destruct (nth_error l i); reflexivity.
  - assert (nth_error l i = None) as -> by (apply nth_error_None; exact H). reflexivity.
Qed.

Lemma mapi_map (A B C : Type) (f : nat -> B -> C) (g : A -> B) (l : list A) :
  mapi f (map g l) = mapi (fun i a => f i (g a)) l.
Proof.
  apply nth_error_ext. intro i. rewrite !nth_error_mapi, nth_error_map.
  destruct (nth_error l i); reflexivity.
Qed.

Lemma mapi_no_index (A B : Type) (g : A -> B) (l : list A) :
  mapi (fun _ a => g a) l = map g l.
Proof.
  apply nth_error_ext. intro i. rewrite nth_error_mapi, nth_error_map. reflexivity.
Qed.

Lemma FeedForward_forward_positions (f : FeedForward) (x : list vec) :
  FeedForward_forward f x
  = mapi (fun i xr => Dropout_row (ffn_dropout f) [i] (ffn_row f xr)) x.
Proof.
  unfold FeedForward_forward.
  rewrite !map_map, map2_map_l, map2_map_r, map2_same, map_map.
  change (map (fun xr => Linear_forward (w2 f)
                           (map2 Rmult (map silu (Linear_forward (w1 f) xr))
                              (Linear_forward (w3 f) xr))) x)
    with (map (ffn_row f) x).
  destruct (ffn_dropout f) as [|ks]; cbn [Dropout_forward Dropout_row].
  - rewrite mapi_no_index. reflexivity.
  - rewrite mapi_map. reflexivity.
Qed.

Lemma round_up_multiple (h m : nat) :
  m <> 0%nat ->
  ((m * ((h + m - 1) / m)) mod m = 0
   /\ h <= m * ((h + m - 1) / m) < h + m)%nat.
Proof.
  intro Hm. split.
  - rewrite Nat.mul_comm. apply Nat.Div0.mod_mul.
  - pose proof (Nat.div_mod_eq (h + m - 1) m) as E.
    pose proof (Nat.mod_upper_bound (h + m - 1) m Hm) as U.
    lia.
Qed.

(** C8, as the code has it.  With [hidden_dim] unset, [FeedForward] takes
    the integer [int(2 * (4 * dim) / 3)], the floor of [8 dim / 3], and
    rounds that integer up to the next multiple of [multiple_of]; its
    three projections get that width.  Its forward pass is
    [drop(W2(silu(W1 x) * W3 x))] computed position by position: the
    output at a position depends on the input at that position only. *)
Theorem feed_forward_contract (config : LMConfig) (p : FeedForwardParams) :
  hidden_dim config = None ->
  multiple_of config <> 0%nat ->
  exists f config',
    FeedForward_init config p = Ok (f, config')
    /\ hidden_dim config' = Some (default_hidden_dim (dim config) (multiple_of config))
    /\ out_features (w1 f) = default_hidden_dim (dim config) (multiple_of config)
    /\ in_features (w2 f) = default_hidden_dim (dim config) (multiple_of config)
    /\ out_features (w3 f) = default_hidden_dim (dim config) (multiple_of config)
    /\ (default_hidden_dim (dim config) (multiple_of config) mod multiple_of config = 0)%nat
    /\ (8 * dim config / 3 <= default_hidden_dim (dim config) (multiple_of config)
        < 8 * dim config / 3 + multiple_of config)%nat
    /\ (forall x, FeedForward_forward f x
                  = mapi (fun i xr => Dropout_row (ffn_dropout f) [i] (ffn_row f xr)) x)
    /\ (forall x y i, nth_error x i = nth_error y i ->
                      nth_error (FeedForward_forward f x) i
                      = nth_error (FeedForward_forward f y) i).
Proof.
  intros Hnone Hm. unfold FeedForward_init. rewrite Hnone.
  destruct (Nat.eqb_spec (multiple_of config) 0) as [E|_]; [contradiction|].
  cbn [bind hidden_dim dim dropout].
  eexists. eexists. split; [reflexivity|].
  cbn [w1 w2 w3 nn_Linear out_features in_features hidden_dim].
  pose proof (round_up_multiple (2 * (4 * dim config) / 3) (multiple_of config) Hm)
    as [Hmod Hbound].
  replace (8 * dim config)%nat with (2 * (4 * dim config))%nat by lia.
  repeat split; try reflexivity; try apply Hmod; try apply Hbound.
  - intro x. apply FeedForward_forward_positions.
  - intros x y i Hxy. rewrite !FeedForward_forward_positions, !nth_error_mapi, Hxy.
    reflexivity.
Qed.

Lemma feed_forward_contract_witness :
  exists f config',
    FeedForward_init narrow_config (p_feed_forward (p_layers example_params 0))
    = Ok (f, config')
    /\ hidden_dim config' = Some 10%nat
    /\ out_features (w1 f) = 10%nat.
Proof.
  destruct (feed_forward_contract narrow_config (p_feed_forward (p_layers example_params 0)))
    as (f & c & E & Hh & Hw & _).
  - reflexivity.
  - cbn; lia.
  - exists f, c. split; [exact E|]. split; [exact Hh|exact Hw].
Defined.

(** C8 as stated fails on the width: for [dim = 4] and [multiple_of = 2]
    the code chooses 10, which is below [2/3 * 4 * 4 = 32/3], while that
    number rounded up to a multiple of 2 is 12. *)
Lemma feed_forward_width_counterexample :
  exists f config',
    FeedForward_init narrow_config (p_feed_forward (p_layers example_params 0))
    = Ok (f, config')
    /\ hidden_dim config' = Some 10%nat
    /\ out_features (w1 f) = 10%nat
    /\ spec_hidden_dim (dim narrow_config) (multiple_of narrow_config) = 12%nat
    /\ (3 * 10 < 2 * (4 * dim narrow_config))%nat.
Proof.
  eexists. eexists. split; [reflexivity|].
  split; [reflexivity|]. split; [reflexivity|]. split; [reflexivity|]. cbn. lia.
Qed.

(** ** Top-p filtering *)

Lemma insert_desc_perm (p : nat * R) (l : list (nat * R)) :
  Permutation (insert_desc p l) (p :: l).
Proof.
  induction l as [|q t IH]; cbn [insert_desc]; [reflexivity|].
  destruct (Rlt_dec (snd q) (snd p)); [reflexivity|].
  rewrite IH. apply perm_swap.
Qed.

Lemma sort_desc_perm (row : vec) : Permutation (sort_desc row) (enumerate row).
Proof.
  unfold sort_desc. induction (enumerate row) as [|p t IH]; cbn [fold_right]; [reflexivity|].
  rewrite insert_desc_perm. constructor. exact IH.
Qed.

Lemma insert_desc_sorted (p : nat * R) (l : list (nat * R)) :
  StronglySorted (fun a b => snd b <= snd a) l ->
  StronglySorted (fun a b => snd b <= snd a) (insert_desc p l).
Proof.
  induction 1 as [|q t Hs IH Hq]; cbn [insert_desc].
  - constructor; constructor.
  - destruct (Rlt_dec (snd q) (snd p)) as [Hlt|Hge].
    + constructor; [constructor; assumption|].
      constructor; [lra|].
      revert Hq. apply Forall_impl. intros b Hb. lra.
    + constructor; [exact IH|].
      apply Forall_forall. intros b Hb.
      apply (Permutation_in _ (insert_desc_perm p t)) in Hb.
      destruct Hb as [<-|Hb]; [lra|].
      apply (proj1 (Forall_forall _ _) Hq b Hb).
Qed.

Lemma sort_desc_sorted (row : vec) :
  StronglySorted (fun a b => snd b <= snd a) (sort_desc row).
Proof.
  unfold sort_desc. induction (enumerate row) as [|p t IH]; cbn [fold_right].
  - constructor.
  - apply insert_desc_sorted. exact IH.
Qed.

Lemma enumerate_fst (A : Type) (l : list A) : map fst (enumerate l) = seq 0 (length l).
Proof.
  unfold enumerate. generalize 0%nat as a.
  induction l as [|x l IH]; intro a; cbn; [reflexivity|]. f_equal. apply IH.
Qed.

Lemma enumerate_In (A : Type) (l : list A) (i : nat) (x : A) :
  In (i, x) (enumerate l) <-> nth_error l i = Some x.
Proof.
  unfold enumerate. split.
  - intro H. apply In_nth_error in H. destruct H as [k Hk].
    rewrite nth_error_combine, nth_error_seq in Hk.
    destruct (Nat.ltb_spec k (length l)); [|discriminate].
    destruct (nth_error l k) eqn:E; [|discriminate].
    cbn in Hk. injection Hk as <- <-. exact E.
  - intro H. apply (nth_error_In _ i).
    rewrite nth_error_combine, nth_error_seq, H.
    assert (i < length l)%nat by (apply nth_error_Some; congruence).
    destruct (Nat.ltb_spec i (length l)); [reflexivity|lia].
Qed.

Lemma sort_desc_length (row : vec) : length (sort_desc row) = length row.
Proof.
  rewrite (Permutation_length (sort_desc_perm row)).
  unfold enumerate. rewrite length_combine, length_seq. lia.
Qed.

Lemma scatter_length (base : list bool) (index : list nat) (src : list bool) :
  length (scatter base index src) = length base.
Proof.
  unfold scatter. generalize (combine index src) as l. intro l.
  revert base; induction l as [|p l IH]; intro base; cbn [fold_left]; [reflexivity|].
  rewrite IH. apply update_nth_length.
Qed.

Lemma scatter_untouched (base : list bool) (index : list nat) (src : list bool) (i : nat) :
  ~ In i index -> nth_error (scatter base index src) i = nth_error base i.
Proof.
  unfold scatter. revert base src; induction index as [|k index IH]; intros base src Hi.
  - reflexivity.
  - destruct src as [|s src]; [reflexivity|]. cbn [combine fold_left fst snd].
    rewrite IH by (intro H; apply Hi; right; exact H).
    apply nth_error_update_nth_neq. intro E. apply Hi. left. exact E.
Qed.

Lemma scatter_head (base : list bool) (i : nat) (index : list nat) (s : bool)
  (src : list bool) :
  ~ In i index -> (i < length base)%nat ->
  nth_error (scatter base (i :: index) (s :: src)) i = Some s.
Proof.
  intros Hi Hlt. unfold scatter. cbn [combine fold_left fst snd].
  fold (scatter (update_nth i s base) index src).
  rewrite scatter_untouched by exact Hi.
  apply nth_error_update_nth_eq. exact Hlt.
Qed.

Lemma cumsum_from_length (acc : R) (l : vec) : length (cumsum_from acc l) = length l.
Proof.
  revert acc; induction l as [|x l IH]; intro acc; cbn; [reflexivity|]. f_equal. apply IH.
Qed.

Lemma removelast_cons_length (A : Type) (a : A) (l : list A) :
  S (length (removelast (a :: l))) = length (a :: l).
Proof.
  revert a; induction l as [|b l IH]; intro a; [reflexivity|].
  change (removelast (a :: b :: l)) with (a :: removelast (b :: l)).
  cbn [length]. f_equal. apply IH.
Qed.

(** Whatever order the sort gives to equal logits: for any arrangement of
    the indexed logits that starts with [(i0, x0)], the mask does not
    remove index [i0]. *)
Lemma top_p_mask_keeps_head (top_p : R) (row : vec) (i0 : nat) (x0 : R)
  (rest : list (nat * R)) :
  Permutation ((i0, x0) :: rest) (enumerate row) ->
  exists rm,
    top_p_mask top_p ((i0, x0) :: rest) = Ok rm
    /\ length rm = length row
    /\ nth_error rm i0 = Some false.
Proof.
  intro Hperm.
  assert (Hlen : length ((i0, x0) :: rest) = length row).
  { rewrite (Permutation_length Hperm). unfold enumerate.
    rewrite length_combine, length_seq. lia. }
  assert (Hin0 : nth_error row i0 = Some x0).
  { apply enumerate_In. apply (Permutation_in _ Hperm). left. reflexivity. }
  assert (Hnodup : NoDup (i0 :: map fst rest)).
  { change (i0 :: map fst rest) with (map fst ((i0, x0) :: rest)).
    apply (Permutation_NoDup (l := map fst (enumerate row))).
    - symmetry. apply Permutation_map. exact Hperm.
    - rewrite enumerate_fst. apply seq_NoDup. }
  inversion Hnodup as [|? ? Hnotin _]; subst.
  unfold top_p_mask.
  set (raw := map (fun c => if Rlt_dec top_p c then true else false)
                  (cumsum (softmax (map Fin (map snd ((i0, x0) :: rest)))))).
  assert (Hraw : length raw = length row).
  { unfold raw, cumsum.
    rewrite length_map, cumsum_from_length, softmax_length, !length_map. exact Hlen. }
  destruct raw as [|b raw'] eqn:Eraw.
  { rewrite <- Hlen in Hraw. discriminate. }
  cbn [shift_right bind map fst].
  set (rm := removelast (b :: raw')).
  assert (Hrm : length (false :: rm) = length row).
  { unfold rm. cbn [length]. rewrite removelast_cons_length. exact Hraw. }
  assert (Hi0 : (i0 < length row)%nat) by (apply nth_error_Some; congruence).
  eexists. split; [reflexivity|]. split.
  - rewrite scatter_length. exact Hrm.
  - apply scatter_head; [exact Hnotin|]. rewrite Hrm. exact Hi0.
Qed.

(** The index sorted first is kept with its logit, and no logit is larger. *)
Lemma top_p_filter_keeps_best (top_p : R) (row : vec) :
  row <> [] ->
  exists frow i x,
    top_p_filter top_p row = Ok frow
    /\ length frow = length row
    /\ nth_error frow i = Some (Fin x)
    /\ nth_error row i = Some x
    /\ forall j y, nth_error row j = Some y -> y <= x.
Proof.
  intro Hne.
  pose proof (sort_desc_perm row) as Hperm.
  pose proof (sort_desc_sorted row) as Hsort.
  pose proof (sort_desc_length row) as Hlen.
  destruct (sort_desc row) as [|[i0 x0] rest] eqn:Es.
  { destruct row; [contradiction|discriminate]. }
  assert (Hin0 : nth_error row i0 = Some x0).
  { apply enumerate_In. apply (Permutation_in _ Hperm). left. reflexivity. }
  destruct (top_p_mask_keeps_head top_p row i0 x0 rest Hperm) as (rm & Erm & Hrm & Hkeep).
  unfold top_p_filter. rewrite Es, Erm. cbn [bind].
  eexists. exists i0, x0. split; [reflexivity|].
  split; [|split; [|split]].
  - rewrite map2_length, Hrm. lia.
  - unfold map2. rewrite nth_error_map, nth_error_combine, Hin0, Hkeep. reflexivity.
  - exact Hin0.
  - intros j y Hj. apply enumerate_In in Hj.
    apply (Permutation_in _ (Permutation_sym Hperm)) in Hj.
    destruct Hj as [E|Hj]; [injection E as _ <-; lra|].
    inversion Hsort as [|? ? _ Hall]; subst.
    apply (proj1 (Forall_forall _ _) Hall (j, y) Hj).
Qed.

(** C5. For every batch of non-empty logit rows and every [top_p] in
    (0, 1], the top-p block of the loop body returns, and in every row a
    token of largest logit (hence of largest probability) keeps its finite
    logit, whatever its own probability. *)
Theorem top_p_keeps_best_token (top_p : R) (logits : list vec) :
  0 < top_p <= 1 ->
  Forall (fun row => row <> []) logits ->
  exists filtered,
    top_p_step top_p logits = Ok filtered
    /\ Forall2 (fun row frow =>
                  length frow = length row
                  /\ exists i x,
                       nth_error frow i = Some (Fin x)
                       /\ is_finite (Fin x) = true
                       /\ nth_error row i = Some x
                       /\ forall j y, nth_error row j = Some y -> y <= x)
               logits filtered.
Proof.
  intros _ Hne. unfold top_p_step.
  destruct (Rlt_dec top_p 1) as [Hlt|Hge].
  - induction Hne as [|row rows Hrow _ (frows & E & F)]; cbn [mapM].
    + exists []. split; [reflexivity|constructor].
    + destruct (top_p_filter_keeps_best top_p row Hrow)
        as (frow & i & x & Er & Hl & Hi & Hx & Hmax).
      rewrite Er. cbn [bind]. rewrite E. cbn [bind].
      eexists. split; [reflexivity|].
      constructor; [|exact F].
      split; [exact Hl|]. exists i, x. repeat split; assumption.
  - eexists. split; [reflexivity|].
    induction Hne as [|row rows Hrow _ F]; cbn [map]; constructor; [|exact F].
    split; [apply length_map|].
    destruct (top_p_filter_keeps_best top_p row Hrow)
      as (frow & i & x & _ & _ & _ & Hx & Hmax).
    exists i, x. rewrite nth_error_map, Hx. repeat split; assumption.
Qed.

Lemma top_p_keeps_best_token_witness :
  exists filtered,
    top_p_step (1 / 2) [[1; 3; 2]; [0; 0]] = Ok filtered
    /\ Forall2 (fun row frow =>
                  length frow = length row
                  /\ exists i x,
                       nth_error frow i = Some (Fin x)
                       /\ is_finite (Fin x) = true
                       /\ nth_error row i = Some x
                       /\ forall j y, nth_error row j = Some y -> y <= x)
               [[1; 3; 2]; [0; 0]] filtered.
Proof.
  apply (top_p_keeps_best_token (1 / 2) [[1; 3; 2]; [0; 0]]).
  - lra.
  - repeat constructor; discriminate.
Defined.

(** ** Repetition penalty *)

(** The state in which the second decode step of the two-row example
    starts, with repetition penalty 2. *)
Lemma example_first_step (m : MiniMindLM) :
  MiniMindLM_init (example_config 8) example_params = Ok m ->
  exists st1,
    generate_step m (fun cp i _ => example_sampler cp i) 2 1 1 2 true 1
      (generate_init [[1]; [1]]%Z 3 0) = Ok st1
    /\ gen_output st1 = [[1; 2; 0; 0]; [1; 3; 0; 0]]%Z
    /\ active_mask st1 = [false; true].
Proof.
  intro Hinit. pose proof (example_model_ok 8 m Hinit) as Hm.
  assert (Heven : Nat.even (dim (example_config 8) / n_heads (example_config 8)) = true)
    by reflexivity.
  cbn [generate_init size1 length repeat map2 combine map fst snd skipn app Nat.add].
  run_generate_step Hm Heven 2%nat 4%nat.
  eexists. split; [reflexivity|]. split; reflexivity.
Qed.

(** C3 fails on the code.  Decode position 2 of a batch of two rows in
    which row 0 has finished (it drew the end token 2 at position 1) and
    row 1 is active with tokens 1 and 3 so far, a state [generate]
    reaches: the penalty [1/rp = 1/2] for the tokens of row 1 lands on the
    logits of row 0, and the logits of row 1 stay as they were. *)
Theorem repetition_penalty_misaligned_rows :
  (exists m st1,
      MiniMindLM_init (example_config 8) example_params = Ok m
      /\ generate_step m (fun cp i _ => example_sampler cp i) 2 1 1 2 true 1
           (generate_init [[1]; [1]]%Z 3 0) = Ok st1
      /\ gen_output st1 = [[1; 2; 0; 0]; [1; 3; 0; 0]]%Z
      /\ active_mask st1 = [false; true])
  /\ repetition_penalty (rp_factor 2) [[1; 2; 0; 0]; [1; 3; 0; 0]]%Z [false; true] 2
       [[10; 20; 30; 40]; [10; 20; 30; 40]]
     = [[10; 20 * rp_factor 2; 30; 40 * rp_factor 2]; [10; 20; 30; 40]]
  /\ 20 * rp_factor 2 <> 20.
Proof.
  split; [|split].
  - destruct (example_init 8) as [m Hm].
    destruct (example_first_step m Hm) as (st1 & E & Ho & Ha).
    exists m, st1. repeat split; assumption.
  - reflexivity.
  - unfold rp_factor. lra.
Qed.

(** ** Examples for the forward pass *)

Lemma example_tokens_valid (toks : list Z) :
  forallb (fun t => (0 <=? t)%Z && (t <? 4)%Z) toks = true ->
  Forall (valid_token (vocab_size (example_config 8))) toks.
Proof.
  intro H. apply Forall_forall. intros t Ht.
  apply (proj1 (forallb_forall _ _) H) in Ht.
  apply andb_prop in Ht. destruct Ht as [H0 H1]. unfold valid_token. cbn. lia.
Qed.

Lemma mapM_returns (A B : Type) (f : A -> result B) (l : list A) :
  (forall x, In x l -> exists y, f x = Ok y) -> exists l', mapM f l = Ok l'.
Proof.
  induction l as [|a t IH]; intro H; cbn.
  - eexists. reflexivity.
  - destruct (H a (or_introl eq_refl)) as [b ->].
    destruct (IH (fun x Hx => H x (or_intror Hx))) as [bs ->].
    cbn. eexists. reflexivity.
Qed.

Lemma example_forward_returns (m : MiniMindLM) (ids : list (list Z)) (uc : bool) :
  MiniMindLM_init (example_config 8) example_params = Ok m ->
  forallb (fun r => forallb (fun t => (0 <=? t)%Z && (t <? 4)%Z) r
                    && (length r <=? 8)%nat) ids = true ->
  exists logits cache, MiniMindLM_forward m ids None uc 0 = Ok (logits, cache).
Proof.
  intros Hm Hv.
  assert (Hrow : forall r, In r ids ->
            exists y, MiniMindLM_forward1 m r None uc 0 = Ok y).
  { intros r Hr. apply (proj1 (forallb_forall _ _) Hv) in Hr.
    apply andb_prop in Hr. destruct Hr as [Hr HL]. apply Nat.leb_le in HL.
    destruct (MiniMindLM_forward1_nocache_returns (example_config 8) m r uc 0
                (example_model_ok 8 m Hm) (example_tokens_valid r Hr) eq_refl)
      as (logits & kvs & E & _).
    - unfold rope_end. cbn [Nat.add]. lia.
    - exact HL.
    - eexists. exact E. }
  destruct (MiniMindLM_forward m ids None uc 0) as [[logits cache]|e] eqn:E.
  - exists logits, cache. reflexivity.
  - exfalso. unfold MiniMindLM_forward in E.
    rewrite <- (map_id ids) in E at 1. rewrite combine_map_map, mapM_map in E.
    match type of E with
    | bind (mapM ?g _) _ = _ => destruct (mapM_returns _ _ g ids Hrow) as [outs Ho]
    end.
    rewrite Ho in E. discriminate.
Qed.


Lemma causal_noninterference_witness :
  exists m l1 c1 l2 c2,
    MiniMindLM_init (example_config 8) example_params = Ok m
    /\ MiniMindLM_forward m [[1; 2; 3]; [0; 1; 2]]%Z None false 0 = Ok (l1, c1)
    /\ MiniMindLM_forward m [[1; 2; 0]; [0; 1; 3]]%Z None false 0 = Ok (l2, c2)
    /\ Forall2 (fun r1 r2 => exists row, nth_error r1 1 = Some row /\ nth_error r2 1 = Some row)
         l1 l2.
Proof.
  destruct (example_init 8) as [m Hm].
  destruct (example_forward_returns m [[1; 2; 3]; [0; 1; 2]]%Z false Hm eq_refl)
    as (l1 & c1 & E1).
  destruct (example_forward_returns m [[1; 2; 0]; [0; 1; 3]]%Z false Hm eq_refl)
    as (l2 & c2 & E2).
  exists m, l1, c1, l2, c2. split; [exact Hm|]. split; [exact E1|]. split; [exact E2|].
  exact (proj1 (causal_noninterference (example_config 8) example_params m
                  [[1; 2; 3]; [0; 1; 2]]%Z [[1; 2; 0]; [0; 1; 3]]%Z 3 1 false l1 l2 c1 c2
                  Hm eq_refl ltac:(cbn; lia) ltac:(lia)
                  ltac:(repeat constructor) E1 E2)).
Defined.

(** * Further properties of the code *)

(** ** Rotary position encoding: relative positions *)

Lemma pos_cis_row (d e : nat) (theta : R) (t : nat) :
  (t < e)%nat ->
  nth t (precompute_pos_cis d e theta) []
  = map (fun f => polar 1 (INR t * f))
        (map (fun i => 1 / Rpower theta (INR (2 * i) / INR d)) (seq 0 (d / 2))).
Proof.
  intro Ht. unfold precompute_pos_cis.
  rewrite (nth_map_lt _ _ _ _ 0%nat) by (rewrite length_seq; exact Ht).
  rewrite seq_nth by exact Ht. reflexivity.
Qed.

Lemma rotated_pair_dot (a b c d M N : R) :
  fst (Cmul (a, b) (polar 1 M)) * fst (Cmul (c, d) (polar 1 N))
  + snd (Cmul (a, b) (polar 1 M)) * snd (Cmul (c, d) (polar 1 N))
  = (a * c + b * d) * cos (M - N) + (a * d - b * c) * sin (M - N).
Proof.
  unfold Cmul, polar. cbn [fst snd]. rewrite cos_minus, sin_minus.
  pose proof (sin2_cos2 M) as HM. pose proof (sin2_cos2 N) as HN.
  unfold Rsqr in HM, HN. nra.
Qed.

Lemma rotate_dot_offset (freqs : list R) (q k : vec) (tm tn tm' tn' : R) :
  tm - tn = tm' - tn' ->
  dot (rotate (map (fun f => polar 1 (tm * f)) freqs) q)
      (rotate (map (fun f => polar 1 (tn * f)) freqs) k)
  = dot (rotate (map (fun f => polar 1 (tm' * f)) freqs) q)
        (rotate (map (fun f => polar 1 (tn' * f)) freqs) k).
Proof.
  intro Hd. revert q k. induction freqs as [|f fs IH]; intros q k.
  - reflexivity.
  - destruct q as [|a [|b q]]; try reflexivity.
    destruct k as [|c [|d k]].
    + unfold rotate, dot, map2. cbn [view_as_complex combine map view_as_real flat_map app].
      reflexivity.
    + unfold rotate, dot, map2. cbn [view_as_complex combine map view_as_real flat_map app].
      reflexivity.
    + specialize (IH q k). unfold rotate, dot, map2 in *.
      cbn [view_as_complex combine map view_as_real flat_map app Rsum fold_right fst snd]
        in *.
      rewrite <- !Rplus_assoc.
      rewrite (rotated_pair_dot a b c d (tm * f) (tn * f)).
      rewrite (rotated_pair_dot a b c d (tm' * f) (tn' * f)).
      replace (tm * f - tn * f) with ((tm - tn) * f) by ring.
      replace (tm' * f - tn' * f) with ((tm' - tn') * f) by ring.
      rewrite Hd. f_equal. exact IH.
Qed.

(** X1. The score of a rotated query against a rotated key depends on the
    two positions only through their difference: moving both positions by
    the same offset inside the table leaves [q . k] unchanged. *)
Theorem rotary_scores_depend_on_offset
  (d e : nat) (theta : R) (q k : vec) (m n s : nat) :
  (m + s < e)%nat ->
  (n + s < e)%nat ->
  dot (rotate (nth (m + s) (precompute_pos_cis d e theta) []) q)
      (rotate (nth (n + s) (precompute_pos_cis d e theta) []) k)
  = dot (rotate (nth m (precompute_pos_cis d e theta) []) q)
        (rotate (nth n (precompute_pos_cis d e theta) []) k).
Proof.
  intros Hm Hn. rewrite !pos_cis_row by lia.
  apply rotate_dot_offset. rewrite !plus_INR. ring.
Qed.

Lemma rotary_scores_depend_on_offset_witness :
  dot (rotate (nth (2 + 1) (precompute_pos_cis 2 8 1000000) []) [3; 4])
      (rotate (nth (0 + 1) (precompute_pos_cis 2 8 1000000) []) [1; 2])
  = dot (rotate (nth 2 (precompute_pos_cis 2 8 1000000) []) [3; 4])
        (rotate (nth 0 (precompute_pos_cis 2 8 1000000) []) [1; 2]).
Proof.
  apply (rotary_scores_depend_on_offset 2 8 1000000 [3; 4] [1; 2] 2 0 1); lia.
Defined.

(** ** Rotary position encoding: position zero *)

Lemma view_as_real_complex (x : vec) :
  Nat.even (length x) = true -> view_as_real (view_as_complex x) = x.
Proof.
  assert (G : forall n (x : vec), (length x <= n)%nat -> Nat.even (length x) = true ->
                                  view_as_real (view_as_complex x) = x).
  { induction n as [|n IH]; intros [|a [|b t]] Hn He; cbn [length] in *;
      try reflexivity; try lia; try discriminate.
    cbn [view_as_complex]. unfold view_as_real. cbn [flat_map app fst snd].
    do 2 f_equal. apply IH; [lia|exact He]. }
  apply (G (length x)). lia.
Qed.

Lemma rotate_position_zero (freqs : list R) (x : vec) :
  Nat.even (length x) = true ->
  (length x / 2 <= length freqs)%nat ->
  rotate (map (fun f => polar 1 (INR 0 * f)) freqs) x = x.
Proof.
  intros He Hl. unfold rotate.
  rewrite <- (view_as_real_complex x He) at 2. f_equal.
  rewrite <- view_as_complex_length in Hl.
  generalize dependent (view_as_complex x). intros cs. clear He x.
  revert freqs. induction cs as [|[a b] cs IH]; intros freqs Hl; [reflexivity|].
  destruct freqs as [|f fs]; cbn [length] in Hl; [lia|].
  unfold map2 in *. cbn [map combine fst snd]. f_equal.
  - unfold Cmul, polar. cbn [fst snd INR]. rewrite Rmult_0_l, cos_0, sin_0.
    f_equal; ring.
  - apply IH. lia.
Qed.

(** X2. At position 0 the rotation is the identity: on a sequence of one
    position starting at 0, with head vectors of [head_dim] entries
    ([head_dim] even), [apply_rotary_emb] returns the queries and keys
    unchanged. *)
Theorem apply_rotary_emb_position_zero
  (hd e : nat) (theta : R) (q k : list vec) :
  Nat.even hd = true ->
  (0 < e)%nat ->
  Forall (fun v : vec => length v = hd) q ->
  Forall (fun v : vec => length v = hd) k ->
  apply_rotary_emb hd [q] [k] (firstn 1 (precompute_pos_cis hd e theta)) = Ok ([q], [k]).
Proof.
  intros He Hpos Hq Hk.
  assert (Hrow : firstn 1 (precompute_pos_cis hd e theta)
                 = [map (fun f => polar 1 (INR 0 * f))
                        (map (fun i => 1 / Rpower theta (INR (2 * i) / INR hd))
                             (seq 0 (hd / 2)))]).
  { rewrite <- (pos_cis_row hd e theta 0 Hpos).
    pose proof (precompute_pos_cis_length hd e theta) as Hlen.
    destruct (precompute_pos_cis hd e theta) as [|r rs]; cbn [length] in Hlen; [lia|].
    reflexivity. }
  rewrite Hrow. unfold apply_rotary_emb. rewrite He.
  cbn [negb length Nat.eqb forallb andb].
  rewrite !length_map, length_seq, Nat.eqb_refl. cbn [andb negb].
  unfold map2. cbn [combine map fst snd].
  assert (G : forall heads : list vec,
            Forall (fun v : vec => length v = hd) heads ->
            map (rotate (map (fun f => polar 1 (INR 0 * f))
                             (map (fun i => 1 / Rpower theta (INR (2 * i) / INR hd))
                                  (seq 0 (hd / 2))))) heads = heads).
  { intros heads Hh. rewrite <- (map_id heads) at 2. apply map_ext_in. intros v Hv.
    pose proof (proj1 (Forall_forall _ _) Hh v Hv) as Hlen.
    apply rotate_position_zero.
    - rewrite Hlen. exact He.
    - rewrite !length_map, length_seq, Hlen. lia. }
  rewrite (G q Hq), (G k Hk). reflexivity.
Qed.

Lemma apply_rotary_emb_position_zero_witness :
  apply_rotary_emb 2 [[[3; 4]; [1; 2]]] [[[0; 5]]] (firstn 1 (precompute_pos_cis 2 4 10))
  = Ok ([[[3; 4]; [1; 2]]], [[[0; 5]]]).
Proof.
  apply (apply_rotary_emb_position_zero 2 4 10 [[3; 4]; [1; 2]] [[0; 5]]).
  - reflexivity.
  - lia.
  - repeat constructor.
  - repeat constructor.
Defined.

(** ** repeat_kv *)

Lemma flat_map_repeat_nth (A : Type) (l : list A) (n j : nat) (d : A) :
  (0 < n)%nat ->
  nth j (flat_map (fun h => repeat h n) l) d = nth (j / n) l d.
Proof.
  intro Hn. revert j. induction l as [|a l IH]; intro j; cbn [flat_map].
  - destruct j; destruct (_ / _)%nat; reflexivity.
  - destruct (Nat.lt_ge_cases j n) as [Hj|Hj].
    + rewrite app_nth1 by (rewrite repeat_length; exact Hj).
      rewrite Nat.div_small by exact Hj. cbn [nth].
      apply nth_repeat_lt. exact Hj.
    + rewrite app_nth2 by (rewrite repeat_length; exact Hj).
      rewrite repeat_length, IH.
      replace j with ((j - n) + 1 * n)%nat at 2 by lia.
      rewrite Nat.div_add by lia. rewrite Nat.add_1_r. reflexivity.
Qed.

Lemma flat_map_repeat_length (A : Type) (l : list A) (n : nat) :
  length (flat_map (fun h => repeat h n) l) = (length l * n)%nat.
Proof.
  induction l as [|a l IH]; cbn [flat_map length]; [reflexivity|].
  rewrite length_app, repeat_length, IH. lia.
Qed.

(** X3. [repeat_kv] is [repeat_interleave] on the head axis: with
    [n_rep >= 1], every position of the result has [n_rep] times as many
    heads, and head [j] of the result is head [j / n_rep] of the input, so
    consecutive query heads share one key/value head. *)
Theorem repeat_kv_interleaves (x : list (list vec)) (n_rep i j : nat) :
  (0 < n_rep)%nat ->
  length (repeat_kv x n_rep) = length x
  /\ length (nth i (repeat_kv x n_rep) []) = (length (nth i x []) * n_rep)%nat
  /\ nth j (nth i (repeat_kv x n_rep) []) [] = nth (j / n_rep) (nth i x []) [].
Proof.
  intro Hn. unfold repeat_kv.
  destruct (Nat.eqb_spec n_rep 1) as [->|Hne].
  - rewrite Nat.mul_1_r, Nat.div_1_r. repeat split; reflexivity.
  - split; [apply length_map|].
    destruct (Nat.lt_ge_cases i (length x)) as [Hi|Hi].
    + rewrite (nth_map_lt _ _ _ _ []) by exact Hi.
      split; [apply flat_map_repeat_length|apply flat_map_repeat_nth; exact Hn].
    + rewrite !(nth_overflow _ []) by (rewrite ?length_map; exact Hi).
      split; [reflexivity|]. destruct j; destruct (_ / _)%nat; reflexivity.
Qed.

Lemma repeat_kv_interleaves_witness :
  length (repeat_kv [[[1; 2]; [3; 4]]] 2) = 1%nat
  /\ length (nth 0 (repeat_kv [[[1; 2]; [3; 4]]] 2) []) = (length (nth 0 [[[1; 2]; [3; 4]]] []) * 2)%nat
  /\ nth 3 (nth 0 (repeat_kv [[[1; 2]; [3; 4]]] 2) []) [] = nth (3 / 2) (nth 0 [[[1; 2]; [3; 4]]] []) [].
Proof.
  apply (repeat_kv_interleaves [[[1; 2]; [3; 4]]] 2 0 3). lia.
Defined.

(** ** Attention: head groups *)

(** X4. An attention layer that [__init__] returns has
    [n_local_kv_heads * n_rep = n_local_heads] with [n_rep >= 1], so
    [repeat_kv] turns a tensor with [n_local_kv_heads] heads per position
    into one with [n_local_heads] heads per position. *)
Theorem Attention_init_head_groups
  (args : LMConfig) (p : AttentionParams) (a : Attention) (x : list (list vec)) :
  Attention_init args p = Ok a ->
  Forall (fun heads => length heads = n_local_kv_heads a) x ->
  (n_local_kv_heads a * n_rep a = n_local_heads a)%nat
  /\ (0 < n_rep a)%nat
  /\ Forall (fun heads => length heads = n_local_heads a) (repeat_kv x (n_rep a)).
Proof.
  unfold Attention_init. intros H Hx.
  set (nkv := match n_kv_heads args with Some k => k | None => n_heads args end) in *.
  destruct (Nat.eqb_spec nkv 0) as [|Hkv]; [discriminate|].
  destruct (Nat.eqb_spec (n_heads args mod nkv) 0) as [Hmod|]; [|discriminate].
  destruct (Nat.eqb_spec (n_heads args) 0) as [|Hh]; [discriminate|].
  cbn [negb] in H. injection H as <-. cbn [n_local_kv_heads n_rep n_local_heads] in *.
  assert (Hmul : (nkv * (n_heads args / nkv) = n_heads args)%nat).
  { symmetry. apply Nat.Div0.div_exact. exact Hmod. }
  assert (Hrep : (0 < n_heads args / nkv)%nat).
  { destruct (n_heads args / nkv)%nat; lia. }
  split; [exact Hmul|]. split; [exact Hrep|].
  unfold repeat_kv. destruct (Nat.eqb_spec (n_heads args / nkv) 1) as [E1|E1].
  - revert Hx. apply Forall_impl. intros heads Hl. rewrite Hl. rewrite E1 in Hmul. lia.
  - apply Forall_forall. intros heads Hin. apply in_map_iff in Hin.
    destruct Hin as (h0 & <- & Hin).
    rewrite flat_map_repeat_length, (proj1 (Forall_forall _ _) Hx h0 Hin). exact Hmul.
Qed.

Lemma Attention_init_head_groups_witness :
  exists a,
    Attention_init (mkLMConfig 8 1 4 (Some 2%nat) 4 None 2 1 8 10 DropoutEval)
      (mkAttentionParams (fun _ _ => 1) (fun _ _ => 1) (fun _ _ => 1) (fun _ _ => 1)) = Ok a
    /\ (n_local_kv_heads a * n_rep a = n_local_heads a)%nat
    /\ Forall (fun heads => length heads = n_local_heads a)
         (repeat_kv [[[1; 2]; [3; 4]]] (n_rep a)).
Proof.
  eexists. split; [reflexivity|].
  pose proof (Attention_init_head_groups
                (mkLMConfig 8 1 4 (Some 2%nat) 4 None 2 1 8 10 DropoutEval)
                (mkAttentionParams (fun _ _ => 1) (fun _ _ => 1) (fun _ _ => 1) (fun _ _ => 1))
                _ [[[1; 2]; [3; 4]]] eq_refl ltac:(repeat constructor)) as (H1 & _ & H3).
  split; [exact H1|exact H3].
Defined.

(** ** Attention: the cache only grows *)

Lemma Dropout_forward_length (d : Dropout) (idx : list nat) (x : list vec) :
  length (Dropout_forward d idx x) = length x.
Proof.
  destruct d; cbn [Dropout_forward]; [reflexivity|apply mapi_length].
Qed.

Lemma Attention_forward_inv
  (a : Attention) (x : list vec) (pc : list (list (R * R)))
  (past : option (list (list vec) * list (list vec))) (uc : bool)
  (out : list vec) (c : option (list (list vec) * list (list vec))) :
  Attention_forward a x pc past uc = Ok (out, c) ->
  length out = length x
  /\ exists k v : list (list vec),
       length k = length x /\ length v = length x
       /\ c = if uc
              then Some (match past with
                         | Some (pk, pv) => (pk ++ k, pv ++ v)
                         | None => (k, v)
                         end)
              else None.
Proof.
  unfold Attention_forward, apply_rotary_emb.
  destruct (Nat.even (head_dim a)); cbn [negb]; [|discriminate].
  destruct (Nat.eqb_spec (length pc)
              (length (map (fun r => view_heads (n_local_heads a) (head_dim a)
                                       (Linear_forward (wq a) r)) x))) as [Hpc|];
    cbn [andb negb]; [|discriminate].
  destruct (forallb _ pc); cbn [negb bind]; [|discriminate].
  rewrite length_map in Hpc.
  set (k := map2 (fun heads p => map (rotate p) heads)
              (map (fun r => view_heads (n_local_kv_heads a) (head_dim a)
                               (Linear_forward (wk a) r)) x) pc).
  set (v := map (fun r => view_heads (n_local_kv_heads a) (head_dim a)
                           (Linear_forward (wv a) r)) x).
  assert (Hk : length k = length x).
  { unfold k. rewrite map2_length, length_map. lia. }
  assert (Hv : length v = length x) by (unfold v; apply length_map).
  destruct past as [[pk pv]|]; cbv iota beta;
    match goal with
    | |- bind ?e _ = _ -> _ => destruct e as [heads|e0]; cbn [bind]; [|discriminate]
    end;
    intro H; injection H as <- <-;
    (split;
     [rewrite Dropout_forward_length, !length_map, length_seq; reflexivity
     |exists k, v; repeat split; assumption]).
Qed.


(** X5. When [Attention.forward] returns, the output has one row per input
    position, and the cache it returns (with [use_cache]) is the given
    cache followed by one new key and one new value entry per input
    position: cached entries are never rewritten.  Without [use_cache] it
    returns no cache. *)
Theorem Attention_forward_cache_grows
  (a : Attention) (x : list vec) (pc : list (list (R * R)))
  (past : option (list (list vec) * list (list vec))) (uc : bool)
  (out : list vec) (c : option (list (list vec) * list (list vec))) :
  Attention_forward a x pc past uc = Ok (out, c) ->
  length out = length x
  /\ exists k v : list (list vec),
       length k = length x /\ length v = length x
       /\ c = if uc
              then Some (match past with
                         | Some (pk, pv) => (pk ++ k, pv ++ v)
                         | None => (k, v)
                         end)
              else None.
Proof.
  apply Attention_forward_inv.
Qed.

Lemma Attention_forward_cache_grows_witness :
  exists out c,
    Attention_forward
      (mkAttention 1 1 1 1 2 (nn_Linear 2 2 (fun _ _ => 1)) (nn_Linear 2 2 (fun _ _ => 1))
         (nn_Linear 2 2 (fun _ _ => 1)) (nn_Linear 2 2 (fun _ _ => 1))
         DropoutEval DropoutEval (causal_mask 4))
      [[1; 2]] [[(1, 0)]] (Some ([[[5; 6]]], [[[7; 8]]])) true = Ok (out, c)
    /\ length out = 1%nat
    /\ exists k v : list (list vec),
         length k = 1%nat /\ length v = 1%nat
         /\ c = Some ([[[5; 6]]] ++ k, [[[7; 8]]] ++ v).
Proof.
  assert (E : exists out c,
             Attention_forward
               (mkAttention 1 1 1 1 2 (nn_Linear 2 2 (fun _ _ => 1))
                  (nn_Linear 2 2 (fun _ _ => 1)) (nn_Linear 2 2 (fun _ _ => 1))
                  (nn_Linear 2 2 (fun _ _ => 1)) DropoutEval DropoutEval (causal_mask 4))
               [[1; 2]] [[(1, 0)]] (Some ([[[5; 6]]], [[[7; 8]]])) true = Ok (out, c))
    by (eexists; eexists; reflexivity).
  destruct E as (out & c & E). exists out, c. split; [exact E|].
  exact (Attention_forward_cache_grows _ _ _ _ _ out c E).
Defined.

(** ** Attention: shapes the mask cannot be added to *)

Lemma causal_mask_slice_min (s L : nat) :
  map (firstn s) (firstn s (causal_mask L)) = causal_mask (Nat.min s L).
Proof.
  destruct (Nat.le_ge_cases s L) as [H|H].
  - rewrite Nat.min_l by exact H. apply causal_mask_slice. exact H.
  - rewrite Nat.min_r by exact H.
    rewrite firstn_all2 by (rewrite causal_mask_length; exact H).
    rewrite <- (map_id (causal_mask L)) at 2. apply map_ext_in. intros row Hrow.
    apply firstn_all2. unfold causal_mask in Hrow. apply in_map_iff in Hrow.
    destruct Hrow as (i & <- & _). rewrite length_map, length_seq. exact H.
Qed.

Lemma attn_probs_raises (L : nat) (a : Attention) (s : nat) (Qh Kh : list vec) :
  mask a = causal_mask L ->
  ~ (Nat.min s L = length Qh /\ Nat.min s L = length Kh) ->
  Nat.min s L <> 1%nat ->
  attn_probs a s Qh Kh = Raise RuntimeError.
Proof.
  intros Hmask Hne H1. unfold attn_probs, add_mask.
  rewrite Hmask, causal_mask_slice_min, causal_mask_length, length_map.
  destruct (Nat.eqb_spec (Nat.min s L) (length Qh)) as [E1|E1];
    destruct (Nat.eqb_spec (Nat.min s L) (length Kh)) as [E2|E2];
    cbn [andb]; try (exfalso; apply Hne; split; assumption);
    (destruct (Nat.eqb_spec (Nat.min s L) 1) as [E3|E3]; [contradiction|reflexivity]).
Qed.

Lemma Attention_forward_mask_raises (L : nat) (a : Attention) (x : list vec)
  (pc : list (list (R * R))) (past : option (list (list vec) * list (list vec)))
  (uc : bool) :
  mask a = causal_mask L ->
  n_local_heads a <> 0%nat ->
  length pc = length x ->
  Forall (fun row => length row = (head_dim a / 2)%nat) pc ->
  ~ (Nat.min (length x) L = length x
     /\ Nat.min (length x) L
        = (length (match past with Some (pk, _) => pk | None => [] end) + length x)%nat) ->
  Nat.min (length x) L <> 1%nat ->
  Attention_forward a x pc past uc = Raise RuntimeError.
Proof.
  intros Hmask Hh Hpc Hw Hne H1.
  unfold Attention_forward, apply_rotary_emb.
  destruct (Nat.even (head_dim a)); cbn [negb]; [|reflexivity].
  rewrite length_map, Hpc, Nat.eqb_refl, (rows_width_forallb _ _ _ Hw).
  cbn [negb andb bind].
  destruct (n_local_heads a) as [|n] eqn:En; [contradiction|].
  unfold transpose_heads. cbn [seq map combine mapM].
  destruct past as [[pk pv]|]; cbv iota beta.
  - rewrite (attn_probs_raises L); [reflexivity|exact Hmask| |exact H1].
    rewrite !length_map, repeat_kv_length, length_app, !map2_length, !length_map, Hpc,
      Nat.min_id.
    exact Hne.
  - rewrite (attn_probs_raises L); [reflexivity|exact Hmask| |exact H1].
    rewrite !length_map, repeat_kv_length, !map2_length, !length_map, Hpc, Nat.min_id.
    exact Hne.
Qed.

(** X6. A cached call of [Attention.forward] with two or more new
    positions raises [RuntimeError]: the mask slice is [seq_len x seq_len]
    while the scores have one column per cached and new key.  (With
    [model_max_length = 1] the 1 x 1 mask broadcasts instead.) *)
Theorem Attention_forward_cached_chunk_raises
  (args : LMConfig) (p : AttentionParams) (a : Attention) (x : list vec)
  (pc : list (list (R * R))) (pk pv : list (list vec)) (uc : bool) :
  Attention_init args p = Ok a ->
  model_max_length args <> 1%nat ->
  (2 <= length x)%nat ->
  pk <> [] ->
  length pc = length x ->
  Forall (fun row => length row = (head_dim a / 2)%nat) pc ->
  Attention_forward a x pc (Some (pk, pv)) uc = Raise RuntimeError.
Proof.
  intros Hinit HL Hx Hpk Hpc Hw.
  assert (Ha : mask a = causal_mask (model_max_length args) /\ n_local_heads a <> 0%nat).
  { unfold Attention_init in Hinit.
    destruct (_ =? 0)%nat; [discriminate|].
    destruct (negb _); [discriminate|].
    destruct (Nat.eqb_spec (n_heads args) 0) as [|Hh]; [discriminate|].
    injection Hinit as <-. split; [reflexivity|exact Hh]. }
  destruct Ha as [Hmask Hh].
  apply (Attention_forward_mask_raises (model_max_length args)); try assumption.
  - intros [_ E]. destruct pk as [|k0 pk]; [contradiction|]. cbn [length] in E. lia.
  - lia.
Qed.

Lemma Attention_forward_cached_chunk_raises_witness :
  exists a,
    Attention_init (mkLMConfig 2 1 1 None 4 None 2 1 8 10 DropoutEval)
      (mkAttentionParams (fun _ _ => 1) (fun _ _ => 1) (fun _ _ => 1) (fun _ _ => 1)) = Ok a
    /\ Attention_forward a [[1; 2]; [3; 4]] [[(1, 0)]; [(0, 1)]]
         (Some ([[[5; 6]]], [[[7; 8]]])) true = Raise RuntimeError.
Proof.
  eexists. split; [reflexivity|].
  apply (Attention_forward_cached_chunk_raises
           (mkLMConfig 2 1 1 None 4 None 2 1 8 10 DropoutEval)
           (mkAttentionParams (fun _ _ => 1) (fun _ _ => 1) (fun _ _ => 1) (fun _ _ => 1))).
  - reflexivity.
  - cbn. lia.
  - cbn. lia.
  - discriminate.
  - reflexivity.
  - repeat constructor.
Defined.

(** ** Attention: the weights of a query form a distribution *)

Lemma Rsum_nonneg (l : vec) : Forall (fun x => 0 <= x) l -> 0 <= Rsum l.
Proof.
  induction 1 as [|x l Hx _ IH]; unfold Rsum in *; cbn [fold_right]; lra.
Qed.

Lemma Rsum_pos (l : vec) (x : R) :
  Forall (fun y => 0 <= y) l -> In x l -> 0 < x -> 0 < Rsum l.
Proof.
  induction 1 as [|y l Hy Hl IH]; intros Hin Hx; [contradiction|].
  destruct Hin as [->|Hin].
  - pose proof (Rsum_nonneg l Hl). unfold Rsum in *. cbn [fold_right]. lra.
  - specialize (IH Hin Hx). unfold Rsum in *. cbn [fold_right]. lra.
Qed.

Lemma Rsum_scale (l : vec) (c : R) : Rsum (map (fun x => x / c) l) = Rsum l / c.
Proof.
  induction l as [|x l IH]; unfold Rsum in *; cbn [map fold_right];
    [unfold Rdiv; ring|]. rewrite IH. unfold Rdiv. ring.
Qed.

Lemma eexp_nonneg (l : list ereal) : Forall (fun x => 0 <= x) (map eexp l).
Proof.
  apply Forall_forall. intros x Hx. apply in_map_iff in Hx.
  destruct Hx as ([r|] & <- & _); cbn [eexp]; [left; apply exp_pos|lra].
Qed.

Lemma softmax_distribution (l : list ereal) (j : nat) (r : R) :
  nth_error l j = Some (Fin r) ->
  Rsum (softmax l) = 1 /\ Forall (fun p => 0 <= p) (softmax l).
Proof.
  intro Hj. unfold softmax.
  assert (Hpos : 0 < Rsum (map eexp l)).
  { apply (Rsum_pos _ (exp r)); [apply eexp_nonneg| |apply exp_pos].
    apply nth_error_In in Hj. apply (in_map eexp) in Hj. exact Hj. }
  split.
  - rewrite Rsum_scale. unfold Rdiv. apply Rinv_r. lra.
  - pose proof (eexp_nonneg l) as Hnn. apply Forall_forall. intros p Hp.
    apply in_map_iff in Hp. destruct Hp as (x & <- & Hx).
    pose proof (proj1 (Forall_forall _ _) Hnn x Hx) as H0.
    apply Rmult_le_pos; [exact H0|]. left. apply Rinv_0_lt_compat. exact Hpos.
Qed.

(** X7. Whenever the attention probabilities of a head are returned for
    at least one key, the weights of every query are non-negative and sum
    to 1: the causal mask never closes all the keys of a query. *)
Theorem attention_weights_form_distribution
  (L : nat) (a : Attention) (seq_len : nat) (Qh Kh w : list vec) :
  mask a = causal_mask L ->
  Kh <> [] ->
  attn_probs a seq_len Qh Kh = Ok w ->
  Forall (fun row => Rsum row = 1 /\ Forall (fun p => 0 <= p) row) w.
Proof.
  intros Hmask HK H. unfold attn_probs, add_mask in H.
  rewrite Hmask, causal_mask_slice_min, causal_mask_length, length_map in H.
  set (n := Nat.min seq_len L) in *.
  destruct (Nat.eqb_spec n (length Qh)) as [EQ|EQ];
    destruct (Nat.eqb_spec n (length Kh)) as [EK|EK]; cbn [andb bind] in H.
  - injection H as <-. apply Forall_forall. intros row Hrow.
    apply in_map_iff in Hrow. destruct Hrow as (srow & <- & Hin).
    apply (In_nth _ _ []) in Hin. destruct Hin as (i & Hi & Hnth).
    rewrite map2_length, length_map, causal_mask_length in Hi.
    rewrite (nth_map2_lt _ _ _ _ _ [] []) in Hnth
      by (rewrite ?length_map, ?causal_mask_length; lia).
    rewrite causal_mask_row in Hnth by lia.
    rewrite (nth_map_lt _ _ _ _ []) in Hnth by lia.
    subst srow.
    apply (softmax_distribution _ i (dot (nth i Qh []) (nth i Kh []) / sqrt (INR (head_dim a)) + 0)).
    unfold map2. rewrite nth_error_map, nth_error_combine.
    rewrite (nth_error_nth' _ 0) by (rewrite length_map; lia).
    rewrite (nth_map_lt _ _ _ _ []) by lia.
    rewrite nth_error_app1 by (rewrite repeat_length; lia).
    rewrite (nth_error_nth' _ (Fin 0)) by (rewrite repeat_length; lia).
    rewrite nth_repeat. reflexivity.
  - destruct (Nat.eqb_spec n 1) as [E1|E1]; [|discriminate].
    injection H as <-. rewrite E1. cbn [causal_mask seq map Nat.ltb Nat.leb nth].
    apply Forall_forall. intros row Hrow.
    apply in_map_iff in Hrow. destruct Hrow as (srow & <- & Hin).
    apply in_map_iff in Hin. destruct Hin as (srow' & <- & Hin).
    apply in_map_iff in Hin. destruct Hin as (q & <- & Hin).
    destruct Kh as [|k0 Kh]; [contradiction|]. cbn [map].
    apply (softmax_distribution _ 0 (dot q k0 / sqrt (INR (head_dim a)) + 0)).
    reflexivity.
  - destruct (Nat.eqb_spec n 1) as [E1|E1]; [|discriminate].
    injection H as <-. rewrite E1. cbn [causal_mask seq map Nat.ltb Nat.leb nth].
    apply Forall_forall. intros row Hrow.
    apply in_map_iff in Hrow. destruct Hrow as (srow & <- & Hin).
    apply in_map_iff in Hin. destruct Hin as (srow' & <- & Hin).
    apply in_map_iff in Hin. destruct Hin as (q & <- & Hin).
    destruct Kh as [|k0 Kh]; [contradiction|]. cbn [map].
    apply (softmax_distribution _ 0 (dot q k0 / sqrt (INR (head_dim a)) + 0)).
    reflexivity.
  - destruct (Nat.eqb_spec n 1) as [E1|E1]; [|discriminate].
    injection H as <-. rewrite E1. cbn [causal_mask seq map Nat.ltb Nat.leb nth].
    apply Forall_forall. intros row Hrow.
    apply in_map_iff in Hrow. destruct Hrow as (srow & <- & Hin).
    apply in_map_iff in Hin. destruct Hin as (srow' & <- & Hin).
    apply in_map_iff in Hin. destruct Hin as (q & <- & Hin).
    destruct Kh as [|k0 Kh]; [contradiction|]. cbn [map].
    apply (softmax_distribution _ 0 (dot q k0 / sqrt (INR (head_dim a)) + 0)).
    reflexivity.
Qed.

Lemma attention_weights_form_distribution_witness :
  exists w,
    attn_probs
      (mkAttention 1 1 1 1 2 (nn_Linear 2 2 (fun _ _ => 1)) (nn_Linear 2 2 (fun _ _ => 1))
         (nn_Linear 2 2 (fun _ _ => 1)) (nn_Linear 2 2 (fun _ _ => 1))
         DropoutEval DropoutEval (causal_mask 4))
      2 [[1; 0]; [0; 1]] [[1; 0]; [0; 1]] = Ok w
    /\ Forall (fun row => Rsum row = 1 /\ Forall (fun p => 0 <= p) row) w.
Proof.
  assert (E : exists w,
             attn_probs
               (mkAttention 1 1 1 1 2 (nn_Linear 2 2 (fun _ _ => 1))
                  (nn_Linear 2 2 (fun _ _ => 1)) (nn_Linear 2 2 (fun _ _ => 1))
                  (nn_Linear 2 2 (fun _ _ => 1)) DropoutEval DropoutEval (causal_mask 4))
               2 [[1; 0]; [0; 1]] [[1; 0]; [0; 1]] = Ok w)
    by (eexists; reflexivity).
  destruct E as (w & E). exists w. split; [exact E|].
  refine (attention_weights_form_distribution 4 _ 2 _ _ w _ _ E);
    [reflexivity|discriminate].
Defined.

(** ** Construction: what [__init__] fixes for every dropout setting *)

Lemma Attention_init_fields (args : LMConfig) (p : AttentionParams) (a : Attention) :
  Attention_init args p = Ok a ->
  mask a = causal_mask (model_max_length args)
  /\ n_local_heads a <> 0%nat
  /\ head_dim a = (dim args / n_heads args)%nat.
Proof.
  unfold Attention_init. intro H.
  destruct (_ =? 0)%nat; [discriminate|].
  destruct (negb _); [discriminate|].
  destruct (Nat.eqb_spec (n_heads args) 0) as [|Hh]; [discriminate|].
  injection H as <-. cbn. auto.
Qed.

Lemma FeedForward_init_fields (config config' : LMConfig) (p : FeedForwardParams)
  (f : FeedForward) :
  FeedForward_init config p = Ok (f, config') ->
  let hd := match hidden_dim config with
            | Some h => h
            | None => default_hidden_dim (dim config) (multiple_of config)
            end in
  hidden_dim config' = Some hd
  /\ (out_features (w1 f) = hd /\ in_features (w2 f) = hd /\ out_features (w3 f) = hd)
  /\ dim config' = dim config
  /\ n_heads config' = n_heads config
  /\ n_kv_heads config' = n_kv_heads config
  /\ vocab_size config' = vocab_size config
  /\ model_max_length config' = model_max_length config
  /\ multiple_of config' = multiple_of config.
Proof.
  unfold FeedForward_init. intro H.
  destruct (hidden_dim config) as [h|] eqn:Eh; cbn [bind] in H.
  - rewrite Eh in H. injection H as <- <-. cbn. auto 12.
  - destruct (multiple_of config =? 0)%nat; cbn [bind] in H; [discriminate|].
    cbn [hidden_dim] in H. injection H as <- <-. cbn. auto 12.
Qed.

Lemma init_layers_fields (ids : list nat) (config config' : LMConfig)
  (p : nat -> BlockParams) (ls : list MiniMindBlock) :
  init_layers ids config p = Ok (ls, config') ->
  let hd := match hidden_dim config with
            | Some h => h
            | None => default_hidden_dim (dim config) (multiple_of config)
            end in
  length ls = length ids
  /\ Forall (fun b => mask (attention b) = causal_mask (model_max_length config)
                      /\ n_local_heads (attention b) <> 0%nat
                      /\ head_dim (attention b) = (dim config / n_heads config)%nat
                      /\ out_features (w1 (feed_forward b)) = hd
                      /\ in_features (w2 (feed_forward b)) = hd
                      /\ out_features (w3 (feed_forward b)) = hd) ls
  /\ hidden_dim config' = match ids with [] => hidden_dim config | _ :: _ => Some hd end
  /\ dim config' = dim config
  /\ n_heads config' = n_heads config
  /\ n_kv_heads config' = n_kv_heads config
  /\ vocab_size config' = vocab_size config
  /\ model_max_length config' = model_max_length config
  /\ multiple_of config' = multiple_of config.
Proof.
  revert config ls; induction ids as [|id rest IH]; intros config ls H hd;
    cbn [init_layers] in H.
  - injection H as <- <-. repeat split; auto.
  - unfold MiniMindBlock_init in H.
    destruct (Attention_init config (p_attention (p id))) as [a|e] eqn:Ea;
      cbn [bind] in H; [|discriminate].
    destruct (FeedForward_init config (p_feed_forward (p id))) as [[f c1]|e] eqn:Ef;
      cbn [bind] in H; [|discriminate].
    destruct (init_layers rest c1 p) as [[bs c2]|e] eqn:Er; cbn [bind] in H; [|discriminate].
    injection H as <- <-.
    apply Attention_init_fields in Ea. destruct Ea as (Hmask & Hh & Hhd).
    apply FeedForward_init_fields in Ef. fold hd in Ef.
    destruct Ef as (Hw & Hf & E1 & E2 & E3 & E4 & E5 & E6).
    apply IH in Er. rewrite Hw, E1, E2, E5 in Er.
    destruct Er as (Hlen & Hbs & Hw' & F1 & F2 & F3 & F4 & F5 & F6).
    split; [cbn [length]; congruence|].
    split; [|split; [|repeat split; congruence]].
    + constructor; [|exact Hbs]. cbn [attention feed_forward]. tauto.
    + destruct rest; cbn in Hw'; congruence.
Qed.

Lemma MiniMindLM_init_fields (cfg : LMConfig) (p : ModelParams) (m : MiniMindLM) :
  MiniMindLM_init cfg p = Ok m ->
  let hd := match hidden_dim cfg with
            | Some h => h
            | None => default_hidden_dim (dim cfg) (multiple_of cfg)
            end in
  length (layers m) = n_layers cfg
  /\ Forall (fun b => mask (attention b) = causal_mask (model_max_length cfg)
                      /\ n_local_heads (attention b) <> 0%nat
                      /\ head_dim (attention b) = (dim cfg / n_heads cfg)%nat
                      /\ out_features (w1 (feed_forward b)) = hd
                      /\ in_features (w2 (feed_forward b)) = hd
                      /\ out_features (w3 (feed_forward b)) = hd) (layers m)
  /\ hidden_dim (params m) = match n_layers cfg with O => hidden_dim cfg | S _ => Some hd end
  /\ tok_embeddings m = weight (output m)
  /\ length (weight (output m)) = vocab_size cfg
  /\ length (pos_cis m) = rope_end
  /\ Forall (fun row => length row = (dim cfg / n_heads cfg / 2)%nat) (pos_cis m).
Proof.
  unfold MiniMindLM_init. intro H.
  set (hd := match hidden_dim cfg with
             | Some h => h
             | None => default_hidden_dim (dim cfg) (multiple_of cfg)
             end).
  cbv zeta.
  destruct (init_layers (seq 0 (n_layers cfg)) cfg (p_layers p)) as [[ls c']|e] eqn:El;
    cbn [bind] in H; [|discriminate].
  destruct (n_heads c' =? 0)%nat; [discriminate|].
  injection H as <-.
  apply init_layers_fields in El. fold hd in El.
  destruct El as (Hlen & Hls & Hw & E1 & E2 & E3 & E4 & E5 & E6).
  cbn [layers params tok_embeddings output pos_cis].
  split; [rewrite Hlen; apply length_seq|].
  split; [exact Hls|].
  split; [rewrite Hw; destruct (n_layers cfg); reflexivity|].
  split; [reflexivity|].
  split; [unfold nn_Linear; cbn [weight]; rewrite length_map, length_seq; exact E4|].
  split; [apply precompute_pos_cis_length|].
  rewrite E1, E2. apply Forall_forall. intros row Hrow.
  unfold precompute_pos_cis in Hrow. apply in_map_iff in Hrow.
  destruct Hrow as (t & <- & _). rewrite !length_map, length_seq. reflexivity.
Qed.

(** X8. Every block of a constructed model has the same intermediate
    width: the configured [hidden_dim], or the default computed by the
    first block, which writes it into the shared config, so that the later
    blocks and the model's [params] see it as configured. *)
Theorem MiniMindLM_init_shares_hidden_dim (cfg : LMConfig) (p : ModelParams) (m : MiniMindLM) :
  MiniMindLM_init cfg p = Ok m ->
  Forall (fun b =>
            out_features (w1 (feed_forward b))
            = match hidden_dim cfg with
              | Some h => h
              | None => default_hidden_dim (dim cfg) (multiple_of cfg)
              end
            /\ in_features (w2 (feed_forward b)) = out_features (w1 (feed_forward b))
            /\ out_features (w3 (feed_forward b)) = out_features (w1 (feed_forward b)))
         (layers m)
  /\ (n_layers cfg <> 0%nat ->
      hidden_dim (params m)
      = Some (match hidden_dim cfg with
              | Some h => h
              | None => default_hidden_dim (dim cfg) (multiple_of cfg)
              end)).
Proof.
  intro H. destruct (MiniMindLM_init_fields _ _ _ H) as (_ & Hls & Hw & _).
  split.
  - revert Hls. apply Forall_impl. intros b (_ & _ & _ & H1 & H2 & H3).
    rewrite H1, H2, H3. auto.
  - intro Hn. rewrite Hw. destruct (n_layers cfg); [contradiction|reflexivity].
Qed.

Lemma MiniMindLM_init_shares_hidden_dim_witness :
  exists m,
    MiniMindLM_init narrow_config example_params = Ok m
    /\ Forall (fun b => out_features (w1 (feed_forward b)) = 10%nat
                        /\ in_features (w2 (feed_forward b)) = out_features (w1 (feed_forward b))
                        /\ out_features (w3 (feed_forward b)) = out_features (w1 (feed_forward b)))
         (layers m)
    /\ hidden_dim (params m) = Some 10%nat.
Proof.
  assert (E : exists m, MiniMindLM_init narrow_config example_params = Ok m)
    by (eexists; reflexivity).
  destruct E as [m E]. exists m. split; [exact E|].
  destruct (MiniMindLM_init_shares_hidden_dim narrow_config example_params m E) as [H1 H2].
  split; [exact H1|]. apply H2. discriminate.
Defined.

(** ** Tied embedding and output weights *)

(** X9. The embedding table and the output projection are one tensor: for
    a token the embedding accepts, its logit on a (normalised) hidden
    state [x] is the dot product of [x] with the token's own embedding. *)
Theorem tied_embedding_logit
  (cfg : LMConfig) (p : ModelParams) (m : MiniMindLM) (t : Z) (e x : vec) :
  MiniMindLM_init cfg p = Ok m ->
  Embedding_forward (tok_embeddings m) t = Ok e ->
  nth_error (Linear_forward (output m) x) (Z.to_nat t) = Some (dot x e).
Proof.
  intros H He. destruct (MiniMindLM_init_fields _ _ _ H) as (_ & _ & _ & Htie & _).
  rewrite Htie in He. unfold Embedding_forward in He.
  destruct (t <? 0)%Z; [discriminate|].
  destruct (nth_error (weight (output m)) (Z.to_nat t)) as [row|] eqn:E; [|discriminate].
  injection He as <-. unfold Linear_forward. rewrite nth_error_map, E. reflexivity.
Qed.

Lemma tied_embedding_logit_witness :
  exists m e,
    MiniMindLM_init (example_config 8) example_params = Ok m
    /\ Embedding_forward (tok_embeddings m) 3 = Ok e
    /\ nth_error (Linear_forward (output m) [1; 2]) (Z.to_nat 3) = Some (dot [1; 2] e).
Proof.
  destruct (example_init 8) as [m Hm].
  destruct (Embedding_forward_valid (tok_embeddings m) 3) as [e He].
  { destruct (MiniMindLM_init_fields _ _ _ Hm) as (_ & _ & _ & Htie & Hlen & _).
    rewrite Htie, Hlen. unfold valid_token. cbn. lia. }
  exists m, e. split; [exact Hm|]. split; [exact He|].
  exact (tied_embedding_logit (example_config 8) example_params m 3 e [1; 2] Hm He).
Defined.

(** ** The forward pass: rejected inputs *)

Lemma Embedding_forward_raises (w : list vec) (t : Z) (e : exn) :
  Embedding_forward w t = Raise e -> e = IndexError.
Proof.
  unfold Embedding_forward. destruct (t <? 0)%Z; [congruence|].
  destruct (nth_error w (Z.to_nat t)); congruence.
Qed.

Lemma Embedding_forward_invalid (w : list vec) (t : Z) :
  ~ valid_token (length w) t -> Embedding_forward w t = Raise IndexError.
Proof.
  intro H. unfold Embedding_forward. destruct (Z.ltb_spec t 0); [reflexivity|].
  destruct (nth_error w (Z.to_nat t)) as [row|] eqn:E; [|reflexivity].
  exfalso. apply H. unfold valid_token.
  assert (Hlt : (Z.to_nat t < length w)%nat) by (apply nth_error_Some; congruence).
  lia.
Qed.

Lemma mapM_Embedding_raises (w : list vec) (toks : list Z) :
  Exists (fun t => ~ valid_token (length w) t) toks ->
  mapM (Embedding_forward w) toks = Raise IndexError.
Proof.
  induction 1 as [t toks Ht|t toks _ IH]; cbn [mapM].
  - rewrite Embedding_forward_invalid by exact Ht. reflexivity.
  - destruct (Embedding_forward w t) as [e|ex] eqn:E; cbn [bind].
    + rewrite IH. reflexivity.
    + apply Embedding_forward_raises in E. subst ex. reflexivity.
Qed.

(** X10. [forward] on a token sequence that holds an id outside
    [0, vocab_size) raises [IndexError], whatever the cache, the flags and
    the rest of the input: the embedding lookup runs first. *)
Theorem forward_rejects_unknown_token
  (cfg : LMConfig) (p : ModelParams) (m : MiniMindLM) (toks : list Z)
  (past : option (list (option (list (list vec) * list (list vec)))))
  (uc : bool) (start : nat) :
  MiniMindLM_init cfg p = Ok m ->
  Exists (fun t => ~ valid_token (vocab_size cfg) t) toks ->
  MiniMindLM_forward1 m toks past uc start = Raise IndexError.
Proof.
  intros H Hex.
  destruct (MiniMindLM_init_fields _ _ _ H) as (_ & _ & _ & Htie & Hlen & _).
  unfold MiniMindLM_forward1.
  rewrite mapM_Embedding_raises; [reflexivity|].
  rewrite Htie, Hlen. exact Hex.
Qed.

Lemma forward_rejects_unknown_token_witness :
  exists m,
    MiniMindLM_init (example_config 8) example_params = Ok m
    /\ MiniMindLM_forward1 m [1; 4; 2]%Z None true 0 = Raise IndexError.
Proof.
  destruct (example_init 8) as [m Hm]. exists m. split; [exact Hm|].
  apply (forward_rejects_unknown_token (example_config 8) example_params m
           [1; 4; 2]%Z None true 0 Hm).
  apply Exists_cons_tl. apply Exists_cons_hd. unfold valid_token. cbn. lia.
Defined.

Lemma forward1_first_layer_raises (m : MiniMindLM) (toks : list Z)
  (past : option (list (option (list (list vec) * list (list vec)))))
  (uc : bool) (start : nat) (h : list vec) (l : MiniMindBlock) (r : list MiniMindBlock)
  (e : exn) :
  mapM (Embedding_forward (tok_embeddings m)) toks = Ok h ->
  layers m = l :: r ->
  (forall p0,
      MiniMindBlock_forward l (Dropout_forward (lm_dropout m) [] h)
        (firstn (length toks) (skipn start (pos_cis m))) p0 uc = Raise e) ->
  MiniMindLM_forward1 m toks past uc start = Raise e.
Proof.
  intros Hh El Hraise. unfold MiniMindLM_forward1. rewrite Hh, El. cbn [bind run_layers].
  destruct past as [[|p0 ps]|]; cbn [length repeat nth_error bind];
    rewrite Hraise; reflexivity.
Qed.

Lemma MiniMindLM_forward1_overlong
  (cfg : LMConfig) (p : ModelParams) (m : MiniMindLM) (toks : list Z)
  (past : option (list (option (list (list vec) * list (list vec)))))
  (uc : bool) (start : nat) :
  MiniMindLM_init cfg p = Ok m ->
  n_layers cfg <> 0%nat ->
  Forall (valid_token (vocab_size cfg)) toks ->
  (model_max_length cfg < length toks)%nat ->
  model_max_length cfg <> 1%nat ->
  (start + length toks <= rope_end)%nat ->
  MiniMindLM_forward1 m toks past uc start = Raise RuntimeError.
Proof.
  intros H Hn Hvalid HL H1 Hend.
  destruct (MiniMindLM_init_fields _ _ _ H) as (Hlen & Hls & _ & Htie & Hvoc & Htbl & Hw).
  destruct (embeddings_valid (tok_embeddings m) toks) as [h Hh].
  { rewrite Htie, Hvoc. exact Hvalid. }
  pose proof (mapM_length _ _ _ _ _ Hh) as Hhl.
  destruct (layers m) as [|l r] eqn:El; [cbn in Hlen; congruence|].
  inversion Hls as [|? ? (Hmask & Hheads & Hhd & _) _]; subst.
  apply (forward1_first_layer_raises m toks past uc start h l r _ Hh El).
  intro p0. unfold MiniMindBlock_forward.
  rewrite (Attention_forward_mask_raises (model_max_length cfg)); try assumption.
  - reflexivity.
  - rewrite length_map, Dropout_forward_length, length_firstn, length_skipn, Htbl. lia.
  - apply Forall_firstn, Forall_skipn. rewrite Hhd. exact Hw.
  - rewrite length_map, Dropout_forward_length. lia.
  - rewrite length_map, Dropout_forward_length. lia.
Qed.


(** X11. [forward] on a sequence longer than [model_max_length] raises
    [RuntimeError] in the first layer (the mask slice has only
    [model_max_length] rows), for a model with at least one layer and
    [model_max_length <> 1]; a 1 x 1 mask broadcasts instead. *)
Theorem forward_rejects_overlong_sequence
  (cfg : LMConfig) (p : ModelParams) (m : MiniMindLM) (toks : list Z)
  (past : option (list (option (list (list vec) * list (list vec)))))
  (uc : bool) (start : nat) :
  MiniMindLM_init cfg p = Ok m ->
  n_layers cfg <> 0%nat ->
  Forall (valid_token (vocab_size cfg)) toks ->
  (model_max_length cfg < length toks)%nat ->
  model_max_length cfg <> 1%nat ->
  (start + length toks <= rope_end)%nat ->
  MiniMindLM_forward1 m toks past uc start = Raise RuntimeError.
Proof.
  apply MiniMindLM_forward1_overlong.
Qed.

Lemma forward_rejects_overlong_sequence_witness :
  exists m,
    MiniMindLM_init (example_config 2) example_params = Ok m
    /\ MiniMindLM_forward1 m [1; 2; 3]%Z None true 0 = Raise RuntimeError.
Proof.
  destruct (example_init 2) as [m Hm]. exists m. split; [exact Hm|].
  apply (forward_rejects_overlong_sequence (example_config 2) example_params m
           [1; 2; 3]%Z None true 0 Hm).
  - discriminate.
  - repeat constructor; unfold valid_token; cbn; lia.
  - cbn. lia.
  - discriminate.
  - unfold rope_end. cbn [length Nat.add]. lia.
Defined.

(** X12. [forward] whose positions [start_pos .. start_pos + seq_len - 1]
    run past the precomputed rotary table raises [AssertionError] in the
    first layer: the table slice is shorter than the sequence.  (Here the
    model has a layer, the head dimension is even and positive and the
    sequence is not empty.) *)
Theorem forward_rejects_positions_past_table
  (cfg : LMConfig) (p : ModelParams) (m : MiniMindLM) (toks : list Z)
  (past : option (list (option (list (list vec) * list (list vec)))))
  (uc : bool) (start : nat) :
  MiniMindLM_init cfg p = Ok m ->
  n_layers cfg <> 0%nat ->
  Forall (valid_token (vocab_size cfg)) toks ->
  toks <> [] ->
  Nat.even (dim cfg / n_heads cfg) = true ->
  (0 < dim cfg / n_heads cfg)%nat ->
  (rope_end < start + length toks)%nat ->
  MiniMindLM_forward1 m toks past uc start = Raise AssertionError.
Proof.
  intros H Hn Hvalid Hne Heven Hpos Hend.
  destruct (MiniMindLM_init_fields _ _ _ H) as (Hlen & Hls & _ & Htie & Hvoc & Htbl & Hw).
  destruct (embeddings_valid (tok_embeddings m) toks) as [h Hh].
  { rewrite Htie, Hvoc. exact Hvalid. }
  pose proof (mapM_length _ _ _ _ _ Hh) as Hhl.
  destruct (layers m) as [|l r] eqn:El; [cbn in Hlen; congruence|].
  inversion Hls as [|? ? (Hmask & Hheads & Hhd & _) _]; subst.
  apply (forward1_first_layer_raises m toks past uc start h l r _ Hh El).
  intro p0. unfold MiniMindBlock_forward, Attention_forward, apply_rotary_emb.
  rewrite Hhd, Heven. cbn [negb].
  rewrite !length_map, Dropout_forward_length, length_firstn, length_skipn, Htbl, Hhl.
  destruct (Nat.eqb_spec (Nat.min (length toks) (rope_end - start)) (length toks)) as [E|E].
  - exfalso. destruct toks; [contradiction|]. cbn [length] in *. lia.
  - reflexivity.
Qed.

Lemma forward_rejects_positions_past_table_witness :
  exists m,
    MiniMindLM_init (example_config 8) example_params = Ok m
    /\ MiniMindLM_forward1 m [1]%Z None true rope_end = Raise AssertionError.
Proof.
  destruct (example_init 8) as [m Hm]. exists m. split; [exact Hm|].
  apply (forward_rejects_positions_past_table (example_config 8) example_params m
           [1]%Z None true rope_end Hm).
  - discriminate.
  - repeat constructor; unfold valid_token; cbn; lia.
  - discriminate.
  - reflexivity.
  - cbn. lia.
  - cbn [length]. lia.
Defined.

(** ** The forward pass: shapes of the result *)

Lemma FeedForward_forward_length (f : FeedForward) (x : list vec) :
  length (FeedForward_forward f x) = length x.
Proof.
  unfold FeedForward_forward.
  rewrite Dropout_forward_length, length_map, map2_length, !length_map. lia.
Qed.

Lemma MiniMindBlock_forward_inv (b : MiniMindBlock) (x : list vec)
  (pc : list (list (R * R))) (past : option (list (list vec) * list (list vec)))
  (uc : bool) (out : list vec) (kv : option (list (list vec) * list (list vec))) :
  MiniMindBlock_forward b x pc past uc = Ok (out, kv) ->
  length out = length x
  /\ (uc = true -> kv <> None)
  /\ (uc = false -> kv = None).
Proof.
  unfold MiniMindBlock_forward. intro H.
  destruct (Attention_forward (attention b) (map (RMSNorm_forward (attention_norm b)) x)
              pc past uc) as [[ha c]|e] eqn:Ea; cbn [bind] in H; [|discriminate].
  injection H as <- <-.
  apply Attention_forward_inv in Ea. destruct Ea as (Hlen & k & v & _ & _ & ->).
  rewrite length_map in Hlen.
  split.
  - unfold tadd. rewrite !map2_length, FeedForward_forward_length, length_map,
      map2_length, Hlen. lia.
  - split; intro Hu; subst uc; [discriminate|reflexivity].
Qed.

Lemma run_layers_inv (ls : list MiniMindBlock) (idx : nat) (h : list vec)
  (pc : list (list (R * R)))
  (pasts : list (option (list (list vec) * list (list vec)))) (uc : bool)
  (acc : list (option (list (list vec) * list (list vec))))
  (h' : list vec) (kvs : list (option (list (list vec) * list (list vec)))) :
  run_layers ls idx h pc pasts uc acc = Ok (h', kvs) ->
  length h' = length h
  /\ exists new,
       kvs = acc ++ new
       /\ length new = length ls
       /\ (uc = true -> Forall (fun e => e <> None) new)
       /\ (uc = false -> new = repeat None (length ls)).
Proof.
  revert idx h acc; induction ls as [|l r IH]; intros idx h acc H; cbn [run_layers] in H.
  - injection H as <- <-. split; [reflexivity|].
    exists []. rewrite app_nil_r. repeat split; auto.
  - destruct (nth_error pasts idx) as [p0|]; cbn [bind] in H; [|discriminate].
    destruct (MiniMindBlock_forward l h pc p0 uc) as [[h1 kv]|e] eqn:Eb; cbn [bind] in H;
      [|discriminate].
    apply MiniMindBlock_forward_inv in Eb. destruct Eb as (Hl & Ht & Hf).
    apply IH in H. destruct H as (Hl' & new & -> & Hn & Ht' & Hf').
    split; [congruence|].
    exists (kv :: new). rewrite <- app_assoc. split; [reflexivity|].
    split; [cbn [length]; congruence|]. split.
    + intro Hu. constructor; auto.
    + intro Hu. cbn [length repeat]. rewrite (Hf Hu), (Hf' Hu). reflexivity.
Qed.

Lemma MiniMindLM_forward1_inv (m : MiniMindLM) (toks : list Z)
  (past : option (list (option (list (list vec) * list (list vec)))))
  (uc : bool) (start : nat) (logits : list vec)
  (cache : list (option (list (list vec) * list (list vec)))) :
  MiniMindLM_forward1 m toks past uc start = Ok (logits, cache) ->
  length logits = length toks
  /\ Forall (fun row => length row = length (weight (output m))) logits
  /\ length cache = length (layers m)
  /\ (uc = true -> Forall (fun e => e <> None) cache)
  /\ (uc = false -> cache = repeat None (length (layers m))).
Proof.
  intro H. unfold MiniMindLM_forward1 in H.
  destruct (mapM (Embedding_forward (tok_embeddings m)) toks) as [h|e] eqn:Eh;
    cbn [bind] in H; [|discriminate].
  apply mapM_length in Eh.
  match type of H with
  | bind ?r _ = _ => destruct r as [[h' kvs]|e] eqn:Er; cbn [bind] in H; [|discriminate]
  end.
  injection H as <- <-.
  apply run_layers_inv in Er. destruct Er as (Hl & new & -> & Hn & Ht & Hf).
  rewrite Dropout_forward_length in Hl. cbn [app].
  split; [rewrite !length_map; congruence|].
  split.
  - apply Forall_forall. intros row Hrow. apply in_map_iff in Hrow.
    destruct Hrow as (x & <- & _). unfold Linear_forward. apply length_map.
  - split; [exact Hn|]. split; [exact Ht|exact Hf].
Qed.

(** X13. When [forward] returns on one batch entry, the logits have one
    row per input position and one column per vocabulary entry, and the
    returned cache has one entry per layer: a key/value pair for every
    layer with [use_cache], [None] for every layer without. *)
Theorem forward_result_shapes
  (cfg : LMConfig) (p : ModelParams) (m : MiniMindLM) (toks : list Z)
  (past : option (list (option (list (list vec) * list (list vec)))))
  (uc : bool) (start : nat) (logits : list vec)
  (cache : list (option (list (list vec) * list (list vec)))) :
  MiniMindLM_init cfg p = Ok m ->
  MiniMindLM_forward1 m toks past uc start = Ok (logits, cache) ->
  length logits = length toks
  /\ Forall (fun row => length row = vocab_size cfg) logits
  /\ length cache = n_layers cfg
  /\ (uc = true -> Forall (fun e => e <> None) cache)
  /\ (uc = false -> cache = repeat None (n_layers cfg)).
Proof.
  intros Hinit H.
  destruct (MiniMindLM_init_fields _ _ _ Hinit) as (Hlen & _ & _ & _ & Hvoc & _).
  destruct (MiniMindLM_forward1_inv _ _ _ _ _ _ _ H) as (H1 & H2 & H3 & H4 & H5).
  rewrite Hvoc in H2. rewrite Hlen in H3, H5. auto.
Qed.

Lemma forward_result_shapes_witness :
  exists m logits cache,
    MiniMindLM_init (example_config 8) example_params = Ok m
    /\ MiniMindLM_forward1 m [1; 2; 3]%Z None false 0 = Ok (logits, cache)
    /\ length logits = 3%nat
    /\ Forall (fun row : vec => length row = 4%nat) logits
    /\ cache = [None].
Proof.
  destruct (example_init 8) as [m Hm].
  destruct (MiniMindLM_forward1_nocache_returns (example_config 8) m [1; 2; 3]%Z false 0
              (example_model_ok 8 m Hm) (example_tokens_valid [1; 2; 3]%Z eq_refl) eq_refl)
    as (logits & kvs & E & _).
  - unfold rope_end. cbn [Nat.add length]. lia.
  - cbn. lia.
  - exists m, logits, (map (cache_entry false) kvs).
    split; [exact Hm|]. split; [exact E|].
    destruct (forward_result_shapes (example_config 8) example_params m [1; 2; 3]%Z None
                false 0 logits _ Hm E) as (H1 & H2 & _ & _ & H5).
    split; [exact H1|]. split; [exact H2|]. exact (H5 eq_refl).
Defined.

(** ** Construction: when [__init__] raises *)

Lemma init_layers_returns (ids : list nat) (config : LMConfig) (p : nat -> BlockParams) :
  n_heads config <> 0%nat ->
  match n_kv_heads config with Some k => k | None => n_heads config end <> 0%nat ->
  (n_heads config
   mod match n_kv_heads config with Some k => k | None => n_heads config end = 0)%nat ->
  (hidden_dim config = None -> multiple_of config <> 0%nat) ->
  exists ls config', init_layers ids config p = Ok (ls, config').
Proof.
  revert config; induction ids as [|id rest IH]; intros config Hh Hkv Hmod Hm;
    cbn [init_layers].
  - eexists. eexists. reflexivity.
  - unfold MiniMindBlock_init.
    destruct (Attention_init config (p_attention (p id))) as [a|e] eqn:Ea.
    2:{ exfalso. unfold Attention_init in Ea.
        destruct (Nat.eqb_spec
                    match n_kv_heads config with Some k => k | None => n_heads config end 0);
          [contradiction|].
        rewrite Hmod in Ea. cbn [Nat.eqb negb] in Ea.
        destruct (Nat.eqb_spec (n_heads config) 0); [contradiction|discriminate]. }
    cbn [bind].
    destruct (FeedForward_init config (p_feed_forward (p id))) as [[f c1]|e] eqn:Ef.
    2:{ exfalso. unfold FeedForward_init in Ef.
        destruct (hidden_dim config) as [h|]; cbn [bind] in Ef; [discriminate|].
        destruct (Nat.eqb_spec (multiple_of config) 0) as [E0|E0];
          [exact (Hm eq_refl E0)|discriminate]. }
    cbn [bind].
    pose proof (FeedForward_init_fields _ _ _ _ Ef) as (Hw & _ & _ & E2 & E3 & _).
    destruct (IH c1) as (bs & c2 & ->).
    + congruence.
    + rewrite E3, E2. exact Hkv.
    + rewrite E3, E2. exact Hmod.
    + rewrite Hw. discriminate.
    + cbn [bind]. eexists. eexists. reflexivity.
Qed.

(** X14. What [MiniMindLM.__init__] does for each configuration: with
    [n_heads = 0] it raises [ZeroDivisionError]; with [n_heads <> 0] and at
    least one layer it raises [ZeroDivisionError] when the number of
    key/value heads is 0, [AssertionError] when that number does not
    divide [n_heads], and [ZeroDivisionError] when [hidden_dim] is not
    configured and [multiple_of = 0]; in every other case it returns a
    model with [n_layers] blocks. *)
Theorem MiniMindLM_init_outcome (cfg : LMConfig) (p : ModelParams) :
  (n_heads cfg = 0%nat -> MiniMindLM_init cfg p = Raise ZeroDivisionError)
  /\ (n_heads cfg <> 0%nat -> n_layers cfg <> 0%nat ->
      match n_kv_heads cfg with Some k => k | None => n_heads cfg end = 0%nat ->
      MiniMindLM_init cfg p = Raise ZeroDivisionError)
  /\ (n_heads cfg <> 0%nat -> n_layers cfg <> 0%nat ->
      match n_kv_heads cfg with Some k => k | None => n_heads cfg end <> 0%nat ->
      (n_heads cfg mod match n_kv_heads cfg with Some k => k | None => n_heads cfg end
       <> 0)%nat ->
      MiniMindLM_init cfg p = Raise AssertionError)
  /\ (n_heads cfg <> 0%nat -> n_layers cfg <> 0%nat ->
      match n_kv_heads cfg with Some k => k | None => n_heads cfg end <> 0%nat ->
      (n_heads cfg mod match n_kv_heads cfg with Some k => k | None => n_heads cfg end
       = 0)%nat ->
      hidden_dim cfg = None -> multiple_of cfg = 0%nat ->
      MiniMindLM_init cfg p = Raise ZeroDivisionError)
  /\ (n_heads cfg <> 0%nat ->
      (n_layers cfg <> 0%nat ->
       match n_kv_heads cfg with Some k => k | None => n_heads cfg end <> 0%nat
       /\ (n_heads cfg mod match n_kv_heads cfg with Some k => k | None => n_heads cfg end
           = 0)%nat
       /\ (hidden_dim cfg = None -> multiple_of cfg <> 0%nat)) ->
      exists m, MiniMindLM_init cfg p = Ok m /\ length (layers m) = n_layers cfg).
Proof.
  set (nkv := match n_kv_heads cfg with Some k => k | None => n_heads cfg end).
  assert (Hfirst : forall n,
            init_layers (seq 0 (S n)) cfg (p_layers p)
            = let* (b, config) := MiniMindBlock_init 0 cfg (p_layers p 0%nat) in
              let* (bs, config) := init_layers (seq 1 n) config (p_layers p) in
              Ok (b :: bs, config)).
  { intro n. reflexivity. }
  split; [|split; [|split; [|split]]].
  - intro H0. unfold MiniMindLM_init.
    destruct (n_layers cfg) as [|n] eqn:En.
    + cbn [seq init_layers bind]. rewrite H0. reflexivity.
    + rewrite (Hfirst n). unfold MiniMindBlock_init, Attention_init.
      fold nkv. destruct (Nat.eqb_spec nkv 0) as [|Hk]; [reflexivity|].
      rewrite H0. rewrite Nat.Div0.mod_0_l. cbn [Nat.eqb negb]. reflexivity.
  - intros Hh Hn Hk. unfold MiniMindLM_init.
    destruct (n_layers cfg) as [|n] eqn:En; [contradiction|].
    rewrite (Hfirst n). unfold MiniMindBlock_init, Attention_init.
    fold nkv. rewrite Hk. reflexivity.
  - intros Hh Hn Hk Hmod. unfold MiniMindLM_init.
    destruct (n_layers cfg) as [|n] eqn:En; [contradiction|].
    rewrite (Hfirst n). unfold MiniMindBlock_init, Attention_init.
    fold nkv. destruct (Nat.eqb_spec nkv 0); [contradiction|].
    destruct (Nat.eqb_spec (n_heads cfg mod nkv) 0); [contradiction|]. reflexivity.
  - intros Hh Hn Hk Hmod Hhid Hmul. unfold MiniMindLM_init.
    destruct (n_layers cfg) as [|n] eqn:En; [contradiction|].
    rewrite (Hfirst n). unfold MiniMindBlock_init, Attention_init.
    fold nkv. destruct (Nat.eqb_spec nkv 0); [contradiction|].
    rewrite Hmod. cbn [Nat.eqb negb].
    destruct (Nat.eqb_spec (n_heads cfg) 0); [contradiction|].
    cbn [bind]. unfold FeedForward_init. rewrite Hhid, Hmul. reflexivity.
  - intros Hh Hc.
    destruct (n_layers cfg) as [|n] eqn:En.
    + unfold MiniMindLM_init. rewrite En. cbn [seq init_layers bind].
      destruct (Nat.eqb_spec (n_heads cfg) 0); [contradiction|].
      eexists. split; reflexivity.
    + destruct Hc as (Hk & Hmod & Hm); [discriminate|].
      destruct (init_layers_returns (seq 0 (S n)) cfg (p_layers p) Hh Hk Hmod Hm)
        as (ls & c' & E).
      pose proof (init_layers_fields _ _ _ _ _ E) as (Hlen & _ & _ & _ & E2 & _).
      unfold MiniMindLM_init. rewrite En, E. cbn [bind].
      destruct (Nat.eqb_spec (n_heads c') 0) as [E0|E0]; [congruence|].
      eexists. split; [reflexivity|]. cbn [layers]. rewrite Hlen, length_seq. reflexivity.
Qed.

Lemma MiniMindLM_init_outcome_witness :
  MiniMindLM_init (mkLMConfig 8 2 4 (Some 3%nat) 4 None 2 1 8 10 DropoutEval) example_params
  = Raise AssertionError
  /\ exists m,
       MiniMindLM_init (mkLMConfig 8 2 4 (Some 2%nat) 4 None 2 1 8 10 DropoutEval)
         example_params = Ok m
       /\ length (layers m) = 2%nat.
Proof.
  split.
  - apply (MiniMindLM_init_outcome
             (mkLMConfig 8 2 4 (Some 3%nat) 4 None 2 1 8 10 DropoutEval) example_params);
      cbn; lia.
  - apply (MiniMindLM_init_outcome
             (mkLMConfig 8 2 4 (Some 2%nat) 4 None 2 1 8 10 DropoutEval) example_params).
    + cbn. lia.
    + intros _. cbn. repeat split; try lia.
Defined.

(** ** generate: shape of the returned buffer *)

(** X15. Whenever [generate] returns, the buffer has one row per prompt
    and every row has [prompt_length + max_new_tokens] entries, also when
    every sequence stopped early. *)
Theorem generate_output_shape
  (self : MiniMindLM) (multinomial : nat -> nat -> vec -> Z) (eos_token_id : Z)
  (temperature top_p rp : R) (use_cache : bool) (input_ids : list (list Z))
  (max_new_tokens : nat) (pad : Z) (out : list (list Z)) :
  Forall (fun r => length r = size1 input_ids) input_ids ->
  generate self multinomial eos_token_id temperature top_p rp use_cache
    input_ids max_new_tokens pad = Ok out ->
  length out = length input_ids
  /\ Forall (fun r => length r = (size1 input_ids + max_new_tokens)%nat) out.
Proof.
  intros Hrect H.
  destruct (gen_inv_final self multinomial eos_token_id temperature top_p rp use_cache
              input_ids max_new_tokens pad Hrect out H)
    as (cur' & st & <- & (Hlen & Heos & _ & Hact & Hrows)).
  split; [exact Hlen|].
  apply Forall_forall. intros row Hrow.
  apply In_nth_error in Hrow. destruct Hrow as [i Hi].
  assert (Hlt : (i < length input_ids)%nat).
  { rewrite <- Hlen. apply nth_error_Some. congruence. }
  destruct (nth_error (active_mask st) i) as [a|] eqn:Ea.
  2:{ apply nth_error_None in Ea. rewrite Hact, length_map, Heos in Ea. lia. }
  destruct (nth_error input_ids i) as [ids|] eqn:Eids.
  2:{ apply nth_error_None in Eids. lia. }
  destruct (Hrows i row a ids Hi Ea Eids) as (Hl & _). exact Hl.
Qed.

Lemma generate_output_shape_witness :
  exists m out,
    MiniMindLM_init (example_config 8) example_params = Ok m
    /\ generate m (fun cp i _ => example_sampler cp i) 2 1 1 1 true [[1]; [1]]%Z 3 0 = Ok out
    /\ length out = 2%nat
    /\ Forall (fun r : list Z => length r = 4%nat) out.
Proof.
  destruct (example_init 8) as [m Hm].
  destruct (example_run_two_rows m 1 Hm) as (st & E & _).
  apply generate_of_state in E.
  exists m, (gen_output st). split; [exact Hm|]. split; [exact E|].
  exact (generate_output_shape m _ 2 1 1 1 true [[1]; [1]]%Z 3 0%Z (gen_output st)
           ltac:(repeat constructor) E).
Defined.

(** ** generate: the repetition penalty while every row is active *)

Lemma update_nth_app_mid (A : Type) (pre : list A) (x v : A) (rest : list A) :
  update_nth (length pre) v (pre ++ x :: rest) = pre ++ v :: rest.
Proof.
  induction pre as [|a pre IH]; cbn; [reflexivity|]. f_equal. exact IH.
Qed.

Lemma modify_nth_app_mid (A : Type) (g : A -> A) (pre : list A) (x : A) (rest : list A) :
  modify_nth (length pre) g (pre ++ x :: rest) = pre ++ g x :: rest.
Proof.
  unfold modify_nth.
  rewrite nth_error_app2, Nat.sub_diag by lia. cbn [nth_error].
  apply update_nth_app_mid.
Qed.

Lemma fold_modify_rows (A K : Type) (g : K -> A -> A) (seen : list K) (pre rows : list A) :
  length rows = length seen ->
  fold_left (fun lg (p : nat * K) => modify_nth (fst p) (g (snd p)) lg)
            (combine (seq (length pre) (length seen)) seen) (pre ++ rows)
  = pre ++ map2 (fun row s => g s row) rows seen.
Proof.
  revert pre rows; induction seen as [|s seen IH]; intros pre rows Hlen;
    destruct rows as [|row rows]; try discriminate.
  - reflexivity.
  - cbn [length seq combine fold_left fst snd].
    rewrite modify_nth_app_mid.
    replace (pre ++ g s row :: rows) with ((pre ++ [g s row]) ++ rows)
      by (rewrite <- app_assoc; reflexivity).
    replace (S (length pre)) with (length (pre ++ [g s row]))
      by (rewrite length_app; cbn; lia).
    rewrite IH by (cbn in Hlen; lia).
    rewrite <- app_assoc. reflexivity.
Qed.

Lemma filter_all_active (out : list (list Z)) (n : nat) :
  (length out <= n)%nat ->
  map (fun p : list Z * bool => fst p)
      (filter (fun p => snd p) (combine out (repeat true n))) = out.
Proof.
  revert n; induction out as [|r out IH]; intros [|n] H; cbn in *; try lia; try reflexivity.
  f_equal. apply IH. lia.
Qed.

Lemma repetition_penalty_rows (f : R) (out : list (list Z)) (cur_pos : nat)
  (logits : list vec) :
  length logits = length out ->
  repetition_penalty f out (repeat true (length out)) cur_pos logits
  = map2 (fun lg row => penalize f (firstn cur_pos row) lg) logits out.
Proof.
  intro Hlen. unfold repetition_penalty, enumerate.
  rewrite <- (map_map (fun p : list Z * bool => fst p) (firstn cur_pos)).
  rewrite filter_all_active by lia.
  rewrite length_map.
  pose proof (fold_modify_rows vec (list Z) (penalize f)
                (map (firstn cur_pos) out) [] logits) as H.
  cbn [length app] in H. rewrite length_map in H. rewrite H by exact Hlen.
  rewrite map2_map_r. reflexivity.
Qed.

(** X16. While every row is active (as in the first decode step), the
    repetition penalty does what it is meant to: in row [i], the logit of
    every token that occurs among the first [cur_pos] entries of that
    row's buffer is multiplied by [rp_factor], and every other logit of
    the row is unchanged.  The logit rows have [V] entries and the tokens
    seen so far are ids in [0, V), as they are after a forward pass. *)
Theorem repetition_penalty_all_active
  (f : R) (out : list (list Z)) (cur_pos : nat) (logits : list vec) (V : nat)
  (i v : nat) (row : list Z) (lg : vec) (x : R) :
  length logits = length out ->
  Forall (fun l : vec => length l = V) logits ->
  Forall (fun r => Forall (valid_token V) (firstn cur_pos r)) out ->
  nth_error out i = Some row ->
  nth_error logits i = Some lg ->
  nth_error lg v = Some x ->
  exists lg',
    nth_error (repetition_penalty f out (repeat true (length out)) cur_pos logits) i
    = Some lg'
    /\ length lg' = length lg
    /\ (In (Z.of_nat v) (firstn cur_pos row) -> nth_error lg' v = Some (x * f))
    /\ (~ In (Z.of_nat v) (firstn cur_pos row) -> nth_error lg' v = Some x).
Proof.
  intros Hlen _ _ Hrow Hlg Hx.
  rewrite repetition_penalty_rows by exact Hlen.
  exists (penalize f (firstn cur_pos row) lg). split.
  - unfold map2. rewrite nth_error_map, nth_error_combine, Hlg, Hrow. reflexivity.
  - unfold penalize. split; [apply mapi_length|].
    rewrite nth_error_mapi, Hx. cbn [option_map].
    split; intro Hin.
    + assert (E : existsb (Z.eqb (Z.of_nat v)) (firstn cur_pos row) = true).
      { apply existsb_exists. exists (Z.of_nat v). split; [exact Hin|apply Z.eqb_refl]. }
      rewrite E. reflexivity.
    + destruct (existsb (Z.eqb (Z.of_nat v)) (firstn cur_pos row)) eqn:E; [|reflexivity].
      exfalso. apply Hin. apply existsb_exists in E. destruct E as (t & Ht & Heq).
      apply Z.eqb_eq in Heq. subst t. exact Ht.
Qed.

Lemma repetition_penalty_all_active_witness :
  exists lg',
    nth_error (repetition_penalty (/ 2) [[1; 2]; [3; 0]]%Z (repeat true 2) 1
                 [[10; 20; 30; 40]; [1; 2; 3; 4]]) 1 = Some lg'
    /\ length lg' = 4%nat
    /\ nth_error lg' 3 = Some (4 * / 2)
    /\ nth_error lg' 0 = Some 1.
Proof.
  assert (Hw : Forall (fun l : vec => length l = 4%nat) [[10; 20; 30; 40]; [1; 2; 3; 4]])
    by (repeat constructor).
  assert (Hv : Forall (fun r => Forall (valid_token 4) (firstn 1 r)) [[1; 2]; [3; 0]]%Z)
    by (repeat constructor; unfold valid_token; cbn; lia).
  destruct (repetition_penalty_all_active (/ 2) [[1; 2]; [3; 0]]%Z 1
              [[10; 20; 30; 40]; [1; 2; 3; 4]] 4 1 3 [3; 0]%Z [1; 2; 3; 4] 4
              eq_refl Hw Hv eq_refl eq_refl eq_refl) as (lg' & E & Hl & Hin & _).
  destruct (repetition_penalty_all_active (/ 2) [[1; 2]; [3; 0]]%Z 1
              [[10; 20; 30; 40]; [1; 2; 3; 4]] 4 1 0 [3; 0]%Z [1; 2; 3; 4] 1
              eq_refl Hw Hv eq_refl eq_refl eq_refl) as (lg2 & E2 & _ & _ & Hout).
  exists lg'. split; [exact E|]. split; [exact Hl|]. split.
  - apply Hin. cbn. left. reflexivity.
  - rewrite E in E2. injection E2 as <-. apply Hout. cbn. intros [H|[]]. discriminate.
Defined.

(** ** generate: the distribution handed to the sampler *)

(** X17. After the top-p block, the probabilities the sampler draws from
    form a distribution in every non-empty row: they are non-negative and
    sum to 1, and a removed token (logit [-inf]) has probability 0. *)
Theorem sampling_probabilities_form_distribution
  (top_p : R) (logits : list vec) (filtered : list (list ereal)) :
  Forall (fun row : vec => row <> []) logits ->
  top_p_step top_p logits = Ok filtered ->
  Forall (fun row =>
            Rsum (softmax row) = 1
            /\ Forall (fun q => 0 <= q) (softmax row)
            /\ forall j, nth_error row j = Some NegInf -> nth_error (softmax row) j = Some 0)
         filtered.
Proof.
  intros Hne H.
  assert (Hfin : Forall (fun row => exists i x, nth_error row i = Some (Fin x)) filtered).
  { unfold top_p_step in H. destruct (Rlt_dec top_p 1).
    - apply mapM_Forall2 in H. revert Hne. induction H as [|row frow l l' Hrow _ IH];
        intro Hne; constructor.
      + inversion Hne as [|? ? Hr _]; subst.
        destruct (top_p_filter_keeps_best top_p row Hr) as (frow' & i & x & E & _ & Hi & _).
        rewrite E in Hrow. injection Hrow as <-. exists i, x. exact Hi.
      + apply IH. inversion Hne; assumption.
    - injection H as <-. apply Forall_forall. intros frow Hin.
      apply in_map_iff in Hin. destruct Hin as (row & <- & Hin).
      pose proof (proj1 (Forall_forall _ _) Hne row Hin) as Hr.
      destruct row as [|x row]; [contradiction|]. exists 0%nat, x. reflexivity. }
  revert Hfin. apply Forall_impl. intros row (i & x & Hi).
  destruct (softmax_distribution row i x Hi) as [Hsum Hpos].
  split; [exact Hsum|]. split; [exact Hpos|].
  intros j Hj. unfold softmax. rewrite nth_error_map, nth_error_map, Hj.
  cbn [option_map eexp]. f_equal. unfold Rdiv. apply Rmult_0_l.
Qed.

Lemma sampling_probabilities_form_distribution_witness :
  exists filtered,
    top_p_step (1 / 2) [[1; 3; 2]; [0; 0; 5]] = Ok filtered
    /\ Forall (fun row => Rsum (softmax row) = 1 /\ Forall (fun q => 0 <= q) (softmax row))
         filtered.
Proof.
  destruct (top_p_step (1 / 2) [[1; 3; 2]; [0; 0; 5]]) as [filtered|e] eqn:E.
  - exists filtered. split; [reflexivity|].
    pose proof (sampling_probabilities_form_distribution (1 / 2) [[1; 3; 2]; [0; 0; 5]]
                  filtered ltac:(repeat constructor; discriminate) E) as H.
    revert H. apply Forall_impl. intros row (H1 & H2 & _). split; assumption.
  - exfalso. unfold top_p_step in E.
    destruct (Rlt_dec (1 / 2) 1) as [_|Hn]; [|apply Hn; lra].
    cbn [mapM] in E.
    destruct (top_p_filter_keeps_best (1 / 2) [1; 3; 2] ltac:(discriminate))
      as (f1 & _ & _ & E1 & _).
    destruct (top_p_filter_keeps_best (1 / 2) [0; 0; 5] ltac:(discriminate))
      as (f2 & _ & _ & E2 & _).
    rewrite E1, E2 in E. discriminate.
Defined.

(** ** generate: what the top-p block removes *)

Lemma scatter_nth (base : list bool) (index : list nat) (src : list bool)
  (j i : nat) (s : bool) :
  NoDup index ->
  Forall (fun k => (k < length base)%nat) index ->
  nth_error index j = Some i ->
  nth_error src j = Some s ->
  nth_error (scatter base index src) i = Some s.
Proof.
  revert base src j; induction index as [|k index IH]; intros base src j Hnd Hlt Hi Hs.
  - destruct j; discriminate.
  - destruct src as [|s0 src]; [destruct j; discriminate|].
    inversion Hnd as [|? ? Hnotin Hnd']; subst.
    inversion Hlt as [|? ? Hk Hlt']; subst.
    destruct j as [|j]; cbn [nth_error] in Hi, Hs.
    + injection Hi as ->. injection Hs as ->.
      apply scatter_head; assumption.
    + unfold scatter. cbn [combine fold_left fst snd].
      fold (scatter (update_nth k s0 base) index src).
      apply (IH _ _ j); try assumption.
      rewrite update_nth_length. exact Hlt'.
Qed.

Lemma StronglySorted_nth_error (A : Type) (Rel : A -> A -> Prop) (l : list A)
  (j j' : nat) (a b : A) :
  StronglySorted Rel l -> (j < j')%nat ->
  nth_error l j = Some a -> nth_error l j' = Some b -> Rel a b.
Proof.
  intro H. revert j j'. induction H as [|x l Hs IH Hx]; intros j j' Hlt Ha Hb.
  - destruct j; discriminate.
  - destruct j' as [|j']; [lia|]. cbn [nth_error] in Hb.
    destruct j as [|j]; cbn [nth_error] in Ha.
    + injection Ha as <-. apply (proj1 (Forall_forall _ _) Hx).
      apply (nth_error_In _ _ Hb).
    + apply (IH j j'); [lia|assumption|assumption].
Qed.

Lemma cumsum_from_lower (acc : R) (l : vec) :
  Forall (fun x => 0 <= x) l -> Forall (fun c => acc <= c) (cumsum_from acc l).
Proof.
  intro H. revert acc. induction H as [|x l Hx _ IH]; intro acc; cbn [cumsum_from];
    constructor; [lra|].
  specialize (IH (acc + x)). revert IH. apply Forall_impl. intros c Hc. lra.
Qed.

Lemma cumsum_from_sorted (acc : R) (l : vec) :
  Forall (fun x => 0 <= x) l -> StronglySorted Rle (cumsum_from acc l).
Proof.
  intro H. revert acc. induction H as [|x l Hx Hl IH]; intro acc; cbn [cumsum_from];
    constructor; [apply IH|apply cumsum_from_lower; exact Hl].
Qed.

Lemma nth_error_removelast (A : Type) (l : list A) (j : nat) :
  (S j < length l)%nat -> nth_error (removelast l) j = nth_error l j.
Proof.
  revert j; induction l as [|a l IH]; intros j H; [cbn in H; lia|].
  destruct l as [|b l]; [cbn in H; lia|].
  change (removelast (a :: b :: l)) with (a :: removelast (b :: l)).
  destruct j as [|j]; [reflexivity|]. cbn [nth_error]. apply IH. cbn [length] in *. lia.
Qed.

(** The mask in sorted order: position 0 is kept, and a later position is
    removed exactly when the cumulative probability before it exceeds
    [top_p]. *)
Lemma shifted_mask_entry (top_p : R) (cs : vec) (j : nat) (b : bool) :
  nth_error (false :: removelast
                        (map (fun c => if Rlt_dec top_p c then true else false) cs)) j
  = Some b ->
  b = true ->
  exists j0 c, j = S j0 /\ nth_error cs j0 = Some c /\ top_p < c /\ (S j0 < length cs)%nat.
Proof.
  intros H Hb. subst b. destruct j as [|j0]; [discriminate|]. cbn [nth_error] in H.
  assert (Hlt : (S j0 < length cs)%nat).
  { assert (Hj : (j0 < length (removelast
                                 (map (fun c => if Rlt_dec top_p c then true else false) cs)))%nat)
      by (apply nth_error_Some; congruence).
    destruct cs as [|c0 cs]; [cbn in Hj; lia|].
    pose proof (removelast_cons_length _
                  (if Rlt_dec top_p c0 then true else false)
                  (map (fun c => if Rlt_dec top_p c then true else false) cs)) as Hr.
    cbn [map] in Hj. cbn [length] in *. rewrite length_map in Hr. lia. }
  rewrite nth_error_removelast in H by (rewrite length_map; exact Hlt).
  rewrite nth_error_map in H.
  destruct (nth_error cs j0) as [c|] eqn:Ec; [|discriminate].
  cbn [option_map] in H. destruct (Rlt_dec top_p c) as [Hc|]; [|discriminate].
  exists j0, c. repeat split; assumption.
Qed.

Lemma shifted_mask_later (top_p : R) (cs : vec) (j0 j' : nat) (c : R) :
  StronglySorted Rle cs ->
  nth_error cs j0 = Some c -> top_p < c ->
  (S j0 < j')%nat -> (j' < length cs)%nat ->
  nth_error (false :: removelast
                        (map (fun c => if Rlt_dec top_p c then true else false) cs)) j'
  = Some true.
Proof.
  intros Hs Hc Hlt Hj Hlen. destruct j' as [|j1]; [lia|]. cbn [nth_error].
  rewrite nth_error_removelast by (rewrite length_map; lia).
  rewrite nth_error_map.
  destruct (nth_error cs j1) as [c1|] eqn:E1.
  2:{ apply nth_error_None in E1. lia. }
  cbn [option_map].
  pose proof (StronglySorted_nth_error _ _ _ j0 j1 c c1 Hs ltac:(lia) Hc E1) as Hle.
  destruct (Rlt_dec top_p c1) as [|Hn]; [reflexivity|]. exfalso. apply Hn. lra.
Qed.

Lemma top_p_filter_monotone (top_p : R) (row : vec) (frow : list ereal)
  (i k : nat) (x y : R) :
  top_p_filter top_p row = Ok frow ->
  nth_error row i = Some x ->
  nth_error row k = Some y ->
  y < x ->
  nth_error frow i = Some NegInf ->
  nth_error frow k = Some NegInf.
Proof.
  intros H Hi Hk Hyx Hrm.
  pose proof (sort_desc_perm row) as Hperm.
  pose proof (sort_desc_sorted row) as Hsort.
  pose proof (sort_desc_length row) as Hlen.
  set (sorted := sort_desc row) in *.
  assert (Hnodup : NoDup (map fst sorted)).
  { apply (Permutation_NoDup (l := map fst (enumerate row))).
    - symmetry. apply Permutation_map. exact Hperm.
    - rewrite enumerate_fst. apply seq_NoDup. }
  assert (Hrange : Forall (fun t => (t < length row)%nat) (map fst sorted)).
  { apply Forall_forall. intros t Ht.
    apply (Permutation_in _ (Permutation_map fst Hperm)) in Ht.
    rewrite enumerate_fst in Ht. apply in_seq in Ht. lia. }
  assert (Hrank : forall t z, nth_error row t = Some z ->
                              exists j, nth_error sorted j = Some (t, z)).
  { intros t z Ht. apply enumerate_In in Ht.
    apply (Permutation_in _ (Permutation_sym Hperm)) in Ht.
    apply In_nth_error in Ht. exact Ht. }
  destruct (Hrank i x Hi) as [ji Hji]. destruct (Hrank k y Hk) as [jk Hjk].
  assert (Horder : (ji < jk)%nat).
  { destruct (Nat.lt_trichotomy ji jk) as [Hlt|[Heq|Hgt]]; [exact Hlt| |].
    - subst jk. rewrite Hji in Hjk. injection Hjk as _ Hxy. lra.
    - pose proof (StronglySorted_nth_error _ _ _ jk ji _ _ Hsort Hgt Hjk Hji) as Hle.
      cbn [snd] in Hle. lra. }
  unfold top_p_filter, top_p_mask in H. fold sorted in H.
  set (probs := softmax (map Fin (map snd sorted))) in *.
  set (raw := map (fun c => if Rlt_dec top_p c then true else false) (cumsum probs)) in *.
  assert (Hraw : length raw = length row).
  { unfold raw, cumsum, probs.
    rewrite length_map, cumsum_from_length, softmax_length, !length_map. exact Hlen. }
  destruct raw as [|b0 raw'] eqn:Eraw.
  { exfalso. cbn [length] in Hraw.
    assert (i < length row)%nat by (apply nth_error_Some; congruence). lia. }
  cbn [shift_right bind] in H. rewrite <- Eraw in H. injection H as <-.
  set (sm := false :: removelast raw) in *.
  assert (Hsm : length sm = length row).
  { unfold sm. rewrite Eraw. cbn [length]. rewrite removelast_cons_length.
    rewrite <- Hraw. reflexivity. }
  assert (Hat : forall t z j, nth_error row t = Some z -> nth_error sorted j = Some (t, z) ->
                              exists s, nth_error sm j = Some s
                                        /\ nth_error (map2 (fun v (rm : bool) =>
                                                              if rm then NegInf else Fin v)
                                                        row (scatter sm (map fst sorted) sm)) t
                                           = Some (if s then NegInf else Fin z)).
  { intros t z j Ht Hj.
    assert (Hjl : (j < length sm)%nat).
    { rewrite Hsm, <- Hlen. apply nth_error_Some. congruence. }
    destruct (nth_error sm j) as [s|] eqn:Es; [|apply nth_error_None in Es; lia].
    exists s. split; [reflexivity|].
    unfold map2. rewrite nth_error_map, nth_error_combine, Ht.
    rewrite (scatter_nth sm (map fst sorted) sm j t s); try assumption.
    - reflexivity.
    - rewrite Hsm. exact Hrange.
    - rewrite nth_error_map, Hj. reflexivity. }
  destruct (Hat i x ji Hi Hji) as (si & Esi & Efi).
  destruct (Hat k y jk Hk Hjk) as (sk & Esk & Efk).
  rewrite Efi in Hrm. destruct si; [|discriminate].
  rewrite Efk. f_equal.
  unfold sm, raw in Esi, Esk.
  assert (Hpos : Forall (fun q => 0 <= q) probs).
  { unfold probs. destruct sorted as [|[t0 z0] rest] eqn:Es; [destruct ji; discriminate|].
    apply (softmax_distribution _ 0 z0). reflexivity. }
  destruct (shifted_mask_entry top_p (cumsum probs) ji true Esi eq_refl)
    as (j0 & c & -> & Hc & Hlt & Hj0).
  assert (Hjkl : (jk < length (cumsum probs))%nat).
  { unfold cumsum. rewrite cumsum_from_length. unfold probs.
    rewrite softmax_length, !length_map. apply nth_error_Some. congruence. }
  rewrite (shifted_mask_later top_p (cumsum probs) j0 jk c
             (cumsum_from_sorted 0 probs Hpos) Hc Hlt Horder Hjkl) in Esk.
  injection Esk as <-. reflexivity.
Qed.

(** X18. The top-p block removes tokens from the unlikely end only: in a
    row it filtered, when a token is removed then every token of the row
    with a strictly smaller logit is removed too. *)
Theorem top_p_removes_least_likely
  (top_p : R) (logits : list vec) (filtered : list (list ereal))
  (r i k : nat) (row : vec) (frow : list ereal) (x y : R) :
  top_p < 1 ->
  top_p_step top_p logits = Ok filtered ->
  nth_error logits r = Some row ->
  nth_error filtered r = Some frow ->
  nth_error row i = Some x ->
  nth_error row k = Some y ->
  y < x ->
  nth_error frow i = Some NegInf ->
  nth_error frow k = Some NegInf.
Proof.
  intros Hp H Hrow Hfrow Hi Hk Hyx Hrm. unfold top_p_step in H.
  destruct (Rlt_dec top_p 1) as [_|Hn]; [|contradiction].
  apply mapM_Forall2 in H.
  assert (E : top_p_filter top_p row = Ok frow).
  { clear - H Hrow Hfrow. revert r Hrow Hfrow.
    induction H as [|a b l l' Hab _ IH]; intros [|r] Hrow Hfrow; try discriminate.
    - cbn in Hrow, Hfrow. congruence.
    - apply (IH r); assumption. }
  exact (top_p_filter_monotone top_p row frow i k x y E Hi Hk Hyx Hrm).
Qed.

Lemma example_top_p_zero :
  top_p_step 0 [[2; 1; 0]] = Ok [[Fin 2; NegInf; NegInf]].
Proof.
  unfold top_p_step. destruct (Rlt_dec 0 1) as [_|Hn]; [|exfalso; apply Hn; lra].
  cbn [mapM]. unfold top_p_filter.
  assert (Es : sort_desc [2; 1; 0] = [(0%nat, 2); (1%nat, 1); (2%nat, 0)]).
  { unfold sort_desc, enumerate. cbn [length seq combine fold_right insert_desc snd].
    destruct (Rlt_dec 0 1) as [_|Hn]; [|exfalso; apply Hn; lra].
    cbn [insert_desc snd].
    destruct (Rlt_dec 1 2) as [_|Hn]; [|exfalso; apply Hn; lra].
    reflexivity. }
  rewrite Es. unfold top_p_mask, softmax, cumsum.
  cbn [map fst snd eexp Rsum fold_right cumsum_from].
  pose proof (exp_pos 2) as H2. pose proof (exp_pos 1) as H1. pose proof (exp_pos 0) as H0.
  set (S := exp 2 + (exp 1 + (exp 0 + 0))).
  assert (HS : 0 < / S) by (apply Rinv_0_lt_compat; unfold S; lra).
  assert (P2 : 0 < exp 2 / S) by (unfold Rdiv; apply Rmult_lt_0_compat; assumption).
  assert (P1 : 0 < exp 1 / S) by (unfold Rdiv; apply Rmult_lt_0_compat; assumption).
  assert (P0 : 0 < exp 0 / S) by (unfold Rdiv; apply Rmult_lt_0_compat; assumption).
  destruct (Rlt_dec 0 (0 + exp 2 / S)) as [_|Hn]; [|exfalso; apply Hn; lra].
  destruct (Rlt_dec 0 (0 + exp 2 / S + exp 1 / S)) as [_|Hn]; [|exfalso; apply Hn; lra].
  destruct (Rlt_dec 0 (0 + exp 2 / S + exp 1 / S + exp 0 / S)) as [_|Hn];
    [|exfalso; apply Hn; lra].
  reflexivity.
Qed.

Lemma top_p_removes_least_likely_witness :
  top_p_step 0 [[2; 1; 0]] = Ok [[Fin 2; NegInf; NegInf]]
  /\ nth_error [Fin 2; NegInf; NegInf] 2 = Some NegInf.
Proof.
  split; [exact example_top_p_zero|].
  apply (top_p_removes_least_likely 0 [[2; 1; 0]] [[Fin 2; NegInf; NegInf]]
           0 1 2 [2; 1; 0] [Fin 2; NegInf; NegInf] 1 0).
  - lra.
  - exact example_top_p_zero.
  - reflexivity.
  - reflexivity.
  - reflexivity.
  - reflexivity.
  - lra.
  - reflexivity.
Defined.

(** ** generate: the probability mass the top-p block keeps *)

Lemma Rsum_permutation (l l' : vec) : Permutation l l' -> Rsum l = Rsum l'.
Proof.
  induction 1 as [|x l l' _ IH|x y l|l l' l'' _ IH1 _ IH2]; unfold Rsum in *;
    cbn [fold_right]; lra.
Qed.

Lemma enumerate_snd (A : Type) (l : list A) : map snd (enumerate l) = l.
Proof.
  unfold enumerate. generalize 0%nat as a.
  induction l as [|x l IH]; intro a; cbn; [reflexivity|]. f_equal. apply IH.
Qed.

Lemma cumsum_from_nth (acc : R) (qs : vec) (j : nat) (c : R) :
  nth_error (cumsum_from acc qs) j = Some c -> c = acc + Rsum (firstn (S j) qs).
Proof.
  revert acc j; induction qs as [|q qs IH]; intros acc j H; [destruct j; discriminate|].
  destruct j as [|j]; cbn [cumsum_from nth_error] in H.
  - injection H as <-. unfold Rsum. cbn. ring.
  - apply IH in H. rewrite H. unfold Rsum. cbn [firstn fold_right]. ring.
Qed.

Lemma first_removed (l : list bool) (j : nat) :
  nth_error l j = Some true ->
  exists j1, (j1 <= j)%nat /\ nth_error l j1 = Some true
             /\ forall k, (k < j1)%nat -> nth_error l k = Some false.
Proof.
  revert j; induction l as [|b l IH]; intros j H; [destruct j; discriminate|].
  destruct b.
  - exists 0%nat. split; [lia|]. split; [reflexivity|]. intros k Hk. lia.
  - destruct j as [|j]; [discriminate|]. cbn [nth_error] in H.
    destruct (IH j H) as (j1 & Hle & Ht & Hf).
    exists (S j1). split; [lia|]. split; [exact Ht|].
    intros [|k] Hk; [reflexivity|]. cbn [nth_error]. apply Hf. lia.
Qed.

Lemma kept_mass_lower (sm : list bool) (qs : vec) (j1 : nat) :
  Forall (fun q => 0 <= q) qs ->
  (forall k, (k < j1)%nat -> nth_error sm k = Some false) ->
  Rsum (firstn j1 qs) <= Rsum (map2 (fun (s : bool) q => if s then 0 else q) sm qs).
Proof.
  intro Hq. revert sm j1. induction Hq as [|q qs Hq0 Hqs IH]; intros sm j1 Hk.
  - rewrite firstn_nil. unfold map2. rewrite combine_nil. unfold Rsum. cbn. lra.
  - destruct j1 as [|j1].
    + cbn [firstn]. apply Rsum_nonneg. apply Forall_forall. intros x Hx.
      unfold map2 in Hx. apply in_map_iff in Hx. destruct Hx as ([s q0] & <- & Hin).
      cbn [fst snd]. destruct s; [lra|].
      apply in_combine_r in Hin.
      apply (proj1 (Forall_forall _ _) (Forall_cons _ Hq0 Hqs) q0 Hin).
    + destruct sm as [|s sm]; [specialize (Hk 0%nat ltac:(lia)); discriminate|].
      pose proof (Hk 0%nat ltac:(lia)) as H0. cbn in H0. injection H0 as ->.
      unfold map2 in *. cbn [firstn combine map fst snd].
      specialize (IH sm j1 (fun k Hlt => Hk (S k) ltac:(lia))).
      unfold Rsum in *. cbn [fold_right]. lra.
Qed.

Lemma top_p_filter_kept_mass (top_p : R) (row : vec) (frow : list ereal) :
  top_p_filter top_p row = Ok frow ->
  (exists i, nth_error frow i = Some NegInf) ->
  top_p < Rsum (map2 (fun (f : ereal) q => if is_finite f then q else 0)
                  frow (softmax (map Fin row))).
Proof.
  intros H (i & Hrm).
  pose proof (sort_desc_perm row) as Hperm.
  pose proof (sort_desc_length row) as Hlen.
  set (sorted := sort_desc row) in *.
  assert (Hnodup : NoDup (map fst sorted)).
  { apply (Permutation_NoDup (l := map fst (enumerate row))).
    - symmetry. apply Permutation_map. exact Hperm.
    - rewrite enumerate_fst. apply seq_NoDup. }
  assert (Hrange : Forall (fun t => (t < length row)%nat) (map fst sorted)).
  { apply Forall_forall. intros t Ht.
    apply (Permutation_in _ (Permutation_map fst Hperm)) in Ht.
    rewrite enumerate_fst in Ht. apply in_seq in Ht. lia. }
  unfold top_p_filter, top_p_mask in H. fold sorted in H.
  set (probs := softmax (map Fin (map snd sorted))) in *.
  set (raw := map (fun c => if Rlt_dec top_p c then true else false) (cumsum probs)) in *.
  assert (Hraw : length raw = length row).
  { unfold raw, cumsum, probs.
    rewrite length_map, cumsum_from_length, softmax_length, !length_map. exact Hlen. }
  assert (Hi : (i < length frow)%nat) by (apply nth_error_Some; congruence).
  destruct raw as [|b0 raw'] eqn:Eraw.
  { exfalso. cbn [shift_right bind] in H. discriminate. }
  cbn [shift_right bind] in H. rewrite <- Eraw in H. injection H as <-.
  set (sm := false :: removelast raw) in *.
  assert (Hsm : length sm = length row).
  { unfold sm. rewrite Eraw. cbn [length]. rewrite removelast_cons_length.
    rewrite <- Hraw. reflexivity. }
  set (rm := scatter sm (map fst sorted) sm) in *.
  assert (Hrml : length rm = length row) by (unfold rm; rewrite scatter_length; exact Hsm).
  set (S0 := Rsum (map eexp (map Fin row))).
  assert (HS : Rsum (map eexp (map Fin (map snd sorted))) = S0).
  { unfold S0. apply Rsum_permutation. apply Permutation_map. apply Permutation_map.
    apply (Permutation_trans (l' := map snd (enumerate row)));
      [apply Permutation_map; exact Hperm|rewrite enumerate_snd; reflexivity]. }
  set (g := fun p : nat * R => if nth (fst p) rm false then 0 else exp (snd p) / S0).
  (* the kept mass, token by token *)
  assert (E1 : map2 (fun (f : ereal) q => if is_finite f then q else 0)
                 (map2 (fun x (r : bool) => if r then NegInf else Fin x) row rm)
                 (softmax (map Fin row))
               = map g (enumerate row)).
  { apply nth_error_ext. intro k. unfold map2, softmax, enumerate.
    repeat (rewrite nth_error_map || rewrite nth_error_combine). rewrite nth_error_seq.
    destruct (nth_error row k) as [x|] eqn:Ex.
    - assert (Hk : (k < length row)%nat) by (apply nth_error_Some; congruence).
      destruct (Nat.ltb_spec k (length row)) as [_|]; [|lia].
      destruct (nth_error rm k) as [r|] eqn:Er; [|apply nth_error_None in Er; lia].
      cbn [option_map fst snd]. unfold g. cbn [fst snd].
      rewrite (nth_error_nth _ _ _ Er). fold S0.
      destruct r; reflexivity.
    - apply nth_error_None in Ex.
      destruct (Nat.ltb_spec k (length row)) as [|_]; [lia|]. reflexivity. }
  (* the same sum in sorted order *)
  assert (E2 : map g sorted = map2 (fun (s : bool) q => if s then 0 else q) sm probs).
  { apply nth_error_ext. intro j. unfold map2, probs, softmax.
    repeat (rewrite nth_error_map || rewrite nth_error_combine).
    destruct (nth_error sorted j) as [[t z]|] eqn:Ej.
    - assert (Hj : (j < length sm)%nat).
      { rewrite Hsm, <- Hlen. apply nth_error_Some. congruence. }
      destruct (nth_error sm j) as [s|] eqn:Es; [|apply nth_error_None in Es; lia].
      cbn [option_map fst snd eexp]. unfold g. cbn [fst snd].
      assert (Er : nth_error rm t = Some s).
      { unfold rm. apply (scatter_nth sm (map fst sorted) sm j t s); try assumption.
        - rewrite Hsm. exact Hrange.
        - rewrite nth_error_map, Ej. reflexivity. }
      rewrite (nth_error_nth _ _ _ Er), HS. destruct s; reflexivity.
    - cbn [option_map]. destruct (nth_error sm j); reflexivity. }
  rewrite E1. rewrite <- (Rsum_permutation _ _ (Permutation_map g Hperm)). rewrite E2.
  (* a removed token gives a first removed rank *)
  fold rm in Hrm.
  assert (Hsome : exists j, nth_error sm j = Some true).
  { unfold map2 in Hrm. rewrite nth_error_map, nth_error_combine in Hrm.
    destruct (nth_error row i) as [x|] eqn:Ex; [|discriminate].
    destruct (nth_error rm i) as [r|] eqn:Er; [|discriminate].
    cbn in Hrm. destruct r; [|discriminate].
    assert (Hin : In (i, x) sorted).
    { apply (Permutation_in _ (Permutation_sym Hperm)). apply enumerate_In. exact Ex. }
    apply In_nth_error in Hin. destruct Hin as [j Hj].
    exists j.
    assert (Hjl : (j < length sm)%nat).
    { rewrite Hsm, <- Hlen. apply nth_error_Some. congruence. }
    destruct (nth_error sm j) as [s|] eqn:Es; [|apply nth_error_None in Es; lia].
    assert (Er' : nth_error rm i = Some s).
    { unfold rm. apply (scatter_nth sm (map fst sorted) sm j i s); try assumption.
      - rewrite Hsm. exact Hrange.
      - rewrite nth_error_map, Hj. reflexivity. }
    congruence. }
  destruct Hsome as [j Hj].
  destruct (first_removed sm j Hj) as (j1 & _ & Ht & Hf).
  unfold sm, raw in Ht.
  destruct (shifted_mask_entry top_p (cumsum probs) j1 true Ht eq_refl)
    as (j0 & c & -> & Hc & Hlt & _).
  assert (Hpos : Forall (fun q => 0 <= q) probs).
  { unfold probs. destruct sorted as [|[t0 z0] rest] eqn:Es; [destruct j; discriminate|].
    apply (softmax_distribution _ 0 z0). reflexivity. }
  unfold cumsum in Hc. apply cumsum_from_nth in Hc. rewrite Rplus_0_l in Hc.
  pose proof (kept_mass_lower sm probs (S j0) Hpos Hf) as Hlow.
  fold sm. lra.
Qed.

(** X24. The top-p block keeps a nucleus: in a row it filtered with
    [top_p < 1], if some token was removed then the tokens that are kept
    carry more than [top_p] of the probability mass of the row (the
    softmax of the logits before filtering). *)
Theorem top_p_keeps_nucleus
  (top_p : R) (logits : list vec) (filtered : list (list ereal))
  (r : nat) (row : vec) (frow : list ereal) :
  top_p < 1 ->
  top_p_step top_p logits = Ok filtered ->
  nth_error logits r = Some row ->
  nth_error filtered r = Some frow ->
  (exists i, nth_error frow i = Some NegInf) ->
  top_p < Rsum (map2 (fun (f : ereal) q => if is_finite f then q else 0)
                  frow (softmax (map Fin row))).
Proof.
  intros Hp H Hrow Hfrow Hrm. unfold top_p_step in H.
  destruct (Rlt_dec top_p 1) as [_|Hn]; [|contradiction].
  apply mapM_Forall2 in H.
  assert (E : top_p_filter top_p row = Ok frow).
  { clear - H Hrow Hfrow. revert r Hrow Hfrow.
    induction H as [|a b l l' Hab _ IH]; intros [|r] Hrow Hfrow; try discriminate.
    - cbn in Hrow, Hfrow. congruence.
    - apply (IH r); assumption. }
  exact (top_p_filter_kept_mass top_p row frow E Hrm).
Qed.

Lemma top_p_keeps_nucleus_witness :
  top_p_step 0 [[2; 1; 0]] = Ok [[Fin 2; NegInf; NegInf]]
  /\ 0 < Rsum (map2 (fun (f : ereal) q => if is_finite f then q else 0)
                 [Fin 2; NegInf; NegInf] (softmax (map Fin [2; 1; 0]))).
Proof.
  split; [exact example_top_p_zero|].
  apply (top_p_keeps_nucleus 0 [[2; 1; 0]] [[Fin 2; NegInf; NegInf]] 0 [2; 1; 0]
           [Fin 2; NegInf; NegInf]).
  - lra.
  - exact example_top_p_zero.
  - reflexivity.
  - reflexivity.
  - exists 1%nat. reflexivity.
Defined.

(** ** generate: a cached step against recomputing the prefix *)

Lemma mapM_ext_in (A B : Type) (f g : A -> result B) (l : list A) :
  (forall x, In x l -> f x = g x) -> mapM f l = mapM g l.
Proof.
  induction l as [|a l IH]; intro H; cbn [mapM]; [reflexivity|].
  rewrite (H a (or_introl eq_refl)), IH; [reflexivity|].
  intros x Hx. apply H. right. exact Hx.
Qed.

Lemma last_row_single (m : MiniMindLM) (h : list vec) :
  h <> [] ->
  last_row (logits_of m h) = last_row (logits_of m [nth (length h - 1) h []]).
Proof.
  intro Hne. unfold last_row, logits_of. rewrite !length_map. cbn [map length nth_error].
  rewrite !nth_error_map.
  rewrite (nth_error_nth' h []) by (destruct h; [contradiction|cbn; lia]).
  reflexivity.
Qed.

Lemma firstn_1_skipn_firstn (A : Type) (k n : nat) (l : list A) :
  (k < n)%nat -> firstn 1 (skipn k (firstn n l)) = firstn 1 (skipn k l).
Proof.
  intro H. rewrite skipn_firstn_comm, firstn_firstn.
  rewrite Nat.min_l by lia. reflexivity.
Qed.

(** X19. In [generate] a cached decode step computes what recomputing
    the whole prefix would: from a state whose cache is the one a pass
    over the first [cur_pos - 1] columns returns, the step (one token,
    [start_pos = cur_pos - 1]) yields the same buffer, flags and cache as
    the step without cache over the first [cur_pos] columns.  Dropout is
    disabled and [cur_pos <= model_max_length]. *)
Theorem generate_step_cache_matches_full_pass
  (cfg : LMConfig) (p : ModelParams) (self : MiniMindLM)
  (multinomial : nat -> nat -> vec -> Z)
  (eos_token_id : Z) (temperature top_p rp : R) (cur_pos : nat) (st : GenerationState)
  (lg0 : list (list vec)) (c : list (list (option (list (list vec) * list (list vec)))))
  (st_full : GenerationState) :
  MiniMindLM_init cfg p = Ok self ->
  dropout cfg = DropoutEval ->
  (2 <= cur_pos <= model_max_length cfg)%nat ->
  Forall (fun r => (cur_pos <= length r)%nat) (gen_output st) ->
  MiniMindLM_forward self (map (firstn (cur_pos - 1)) (gen_output st)) None true 0
  = Ok (lg0, c) ->
  past_key_values st = Some c ->
  generate_step self multinomial eos_token_id temperature top_p rp true cur_pos
    {| gen_output := gen_output st;
       active_mask := active_mask st;
       eos_reached := eos_reached st;
       past_key_values := None;
       start_pos := 0 |} = Ok st_full ->
  generate_step self multinomial eos_token_id temperature top_p rp true cur_pos st
  = Ok {| gen_output := gen_output st_full;
          active_mask := active_mask st_full;
          eos_reached := eos_reached st_full;
          past_key_values := past_key_values st_full;
          start_pos := cur_pos - 1 |}.
Proof.
  intros Hinit Hdrop Hcur Hlen Hprompt Hpast Hfull.
  destruct (MiniMindLM_init_ok _ _ _ Hinit Hdrop) as [Hm _].
  set (rows := gen_output st) in *.
  set (ids := map (firstn cur_pos) rows).
  unfold generate_step in Hfull.
  cbn [past_key_values gen_output active_mask eos_reached] in Hfull.
  fold ids in Hfull.
  destruct (MiniMindLM_forward self ids None true 0) as [outF|e] eqn:EF;
    cbn [bind] in Hfull; [|discriminate].
  assert (Hrows : forall r, In r ids -> row_cond cfg self r /\ length r = cur_pos).
  { intros r Hr. split.
    - destruct (MiniMindLM_forward_row_returns _ _ _ _ _ r EF Hr) as [y Hy].
      apply (row_cond_of_pass cfg self r true y Hm Hy).
    - unfold ids in Hr. apply in_map_iff in Hr. destruct Hr as (r0 & <- & Hr0).
      rewrite length_firstn.
      pose proof (proj1 (Forall_forall _ _) Hlen r0 Hr0) as Hr0l. cbv beta in Hr0l. lia. }
  assert (HL : (cur_pos <= model_max_length cfg)%nat) by lia.
  pose proof (prompt_pass_batch cfg self ids cur_pos Hm Hrows HL cur_pos true (le_n _))
    as Pfull.
  assert (Eids : map (firstn cur_pos) ids = ids).
  { unfold ids. rewrite map_map. apply map_ext. intro r.
    rewrite firstn_firstn, Nat.min_id. reflexivity. }
  rewrite Eids, EF in Pfull. injection Pfull as ->.
  pose proof (prompt_pass_batch cfg self ids cur_pos Hm Hrows HL (cur_pos - 1) true
                ltac:(lia)) as Pprev.
  assert (Eprev : map (firstn (cur_pos - 1)) ids = map (firstn (cur_pos - 1)) rows).
  { unfold ids. rewrite map_map. apply map_ext. intro r.
    rewrite firstn_firstn, Nat.min_l by lia. reflexivity. }
  rewrite Eprev, Hprompt in Pprev. injection Pprev as _ ->.
  pose proof (decode_pass_batch cfg self ids cur_pos Hm Hrows HL (cur_pos - 1) ltac:(lia))
    as Pstep.
  assert (Estep : map (fun r => firstn 1 (skipn (cur_pos - 1) r)) ids
                  = map (fun r => firstn 1 (skipn (cur_pos - 1) r)) rows).
  { unfold ids. rewrite map_map. apply map_ext. intro r.
    apply firstn_1_skipn_firstn. lia. }
  rewrite Estep in Pstep.
  replace (S (cur_pos - 1)) with cur_pos in Pstep by lia.
  unfold generate_step. rewrite Hpast. fold rows.
  change (map (fun r => map (cache_entry true) (row_kvs self r (cur_pos - 1))) ids)
    with (map (fun r => map Some (row_kvs self r (cur_pos - 1))) ids).
  rewrite Pstep. cbn [bind fst snd] in Hfull |- *.
  assert (Elast : mapM last_row
                    (map (fun r => logits_of self [nth (cur_pos - 1)
                                                    (row_full self r cur_pos) []]) ids)
                  = mapM last_row
                      (map (fun r => logits_of self (row_full self r cur_pos)) ids)).
  { rewrite !mapM_map. apply mapM_ext_in. intros r Hr.
    destruct (Hrows r Hr) as [_ Hn].
    assert (Hl : length (row_full self r cur_pos) = cur_pos)
      by (apply row_full_length; lia).
    rewrite (last_row_single self (row_full self r cur_pos)).
    - rewrite Hl. reflexivity.
    - intro E. rewrite E in Hl. cbn in Hl. lia. }
  rewrite Elast.
  destruct (mapM last_row (map (fun r => logits_of self (row_full self r cur_pos)) ids))
    as [lrows|e]; cbn [bind] in Hfull |- *; [|discriminate].
  match type of Hfull with
  | bind ?t _ = _ => destruct t as [fl|e]; cbn [bind] in Hfull |- *; [|discriminate]
  end.
  injection Hfull as <-. reflexivity.
Qed.

Lemma generate_step_cache_matches_full_pass_witness :
  exists m lg0 c st_full,
    MiniMindLM_init (example_config 8) example_params = Ok m
    /\ MiniMindLM_forward m (map (firstn (2 - 1)) [[1; 2; 0; 0]]%Z) None true 0 = Ok (lg0, c)
    /\ generate_step m (fun cp i _ => constant_sampler cp i) 2 1 1 1 true 2
         (mkGenerationState [[1; 2; 0; 0]]%Z [true] [false] None 0) = Ok st_full
    /\ generate_step m (fun cp i _ => constant_sampler cp i) 2 1 1 1 true 2
         (mkGenerationState [[1; 2; 0; 0]]%Z [true] [false] (Some c) 1)
       = Ok {| gen_output := gen_output st_full;
               active_mask := active_mask st_full;
               eos_reached := eos_reached st_full;
               past_key_values := past_key_values st_full;
               start_pos := 2 - 1 |}.
Proof.
  destruct (example_init 8) as [m Hm].
  pose proof (example_model_ok 8 m Hm) as Hok.
  destruct (example_forward_returns m (map (firstn (2 - 1)) [[1; 2; 0; 0]]%Z) true Hm eq_refl)
    as (lg0 & c & E0).
  destruct (generate_step_run (example_config 8) m constant_sampler 2 1 1 2
              (mkGenerationState [[1; 2; 0; 0]]%Z [true] [false] None 0) 1 4 Hok eq_refl
              eq_refl ltac:(apply valid_rows_dec; reflexivity) ltac:(lia)
              ltac:(unfold rope_end; lia) ltac:(cbn; lia)) as (c' & Efull & _).
  eexists m, lg0, c, _. split; [exact Hm|]. split; [exact E0|]. split; [exact Efull|].
  apply (generate_step_cache_matches_full_pass (example_config 8) example_params m
           (fun cp i _ => constant_sampler cp i) 2 1 1 1 2
           (mkGenerationState [[1; 2; 0; 0]]%Z [true] [false] (Some c) 1) lg0 c _
           Hm eq_refl).
  - cbn. lia.
  - repeat constructor.
  - exact E0.
  - reflexivity.
  - exact Efull.
Defined.

(** ** generate without the cache *)

Lemma map_const_repeat (A B : Type) (b : B) (l : list A) :
  map (fun _ => b) l = repeat b (length l).
Proof.
  induction l as [|a l IH]; cbn; [reflexivity|]. f_equal. exact IH.
Qed.

Lemma MiniMindLM_forward_without_cache (m : MiniMindLM) (ids : list (list Z))
  (past : option (list (list (option (list (list vec) * list (list vec))))))
  (start : nat) out :
  MiniMindLM_forward m ids past false start = Ok out ->
  snd out = repeat (repeat None (length (layers m))) (length (fst out)).
Proof.
  unfold MiniMindLM_forward. intro H.
  match type of H with
  | bind (mapM ?f ?l) _ = _ => destruct (mapM f l) as [outs|e] eqn:E
  end; cbn [bind] in H; [|discriminate].
  injection H as <-. cbn [fst snd]. rewrite length_map, <- map_const_repeat.
  apply mapM_Forall2 in E. clear - E.
  induction E as [|[r pr] [lg c] l l' Hxy _ IH]; cbn [map]; [reflexivity|].
  f_equal; [|exact IH].
  apply MiniMindLM_forward1_inv in Hxy. destruct Hxy as (_ & _ & _ & _ & Hf).
  exact (Hf eq_refl).
Qed.

Lemma skipn_update_nth (A : Type) (k n : nat) (v : A) (l : list A) :
  (k <= n)%nat -> skipn k (update_nth n v l) = update_nth (n - k) v (skipn k l).
Proof.
  revert n l; induction k as [|k IH]; intros n l H.
  - rewrite Nat.sub_0_r. reflexivity.
  - destruct n as [|n]; [lia|]. destruct l as [|a l].
    + cbn [update_nth skipn]. destruct (S n - S k)%nat; reflexivity.
    + cbn [update_nth skipn Nat.sub]. apply IH. lia.
Qed.

Lemma skipn_written_rows (k cur_pos : nat) (rows : list (list Z)) (X : list (bool * Z)) :
  (k <= cur_pos)%nat ->
  map (skipn k)
      (map (fun p : list Z * (bool * Z) =>
              if fst (snd p) then update_nth cur_pos (snd (snd p)) (fst p) else fst p)
           (combine rows X))
  = map (fun p : list Z * (bool * Z) =>
           if fst (snd p) then update_nth (cur_pos - k) (snd (snd p)) (fst p) else fst p)
        (combine (map (skipn k) rows) X).
Proof.
  intro H. revert X; induction rows as [|r rows IH]; intros [|[a t] X]; cbn [map combine];
    try reflexivity.
  cbn [fst snd]. f_equal; [|apply IH].
  destruct a; [apply skipn_update_nth; exact H|reflexivity].
Qed.

Lemma generate_step_reads_last_column
  (self : MiniMindLM) (multinomial : nat -> nat -> vec -> Z) (eos_token_id : Z)
  (temperature top_p : R) (use_cache : bool) (cur_pos : nat)
  (c : list (list (option (list (list vec) * list (list vec)))))
  (st1 st2 a : GenerationState) :
  past_key_values st1 = Some c ->
  past_key_values st2 = Some c ->
  active_mask st1 = active_mask st2 ->
  eos_reached st1 = eos_reached st2 ->
  map (skipn (cur_pos - 1)) (gen_output st1) = map (skipn (cur_pos - 1)) (gen_output st2) ->
  generate_step self multinomial eos_token_id temperature top_p 1 use_cache cur_pos st1
  = Ok a ->
  exists b,
    generate_step self multinomial eos_token_id temperature top_p 1 use_cache cur_pos st2
    = Ok b
    /\ eos_reached a = eos_reached b
    /\ active_mask a = active_mask b
    /\ past_key_values a = past_key_values b
    /\ map (skipn (cur_pos - 1)) (gen_output a) = map (skipn (cur_pos - 1)) (gen_output b).
Proof.
  intros Hp1 Hp2 Hact Heos Hskip Ha.
  unfold generate_step in *. rewrite Hp1 in Ha. rewrite Hp2.
  rewrite <- (map_map (skipn (cur_pos - 1)) (firstn 1)) in Ha |- *.
  rewrite <- Hskip, <- Hact, <- Heos.
  destruct (MiniMindLM_forward self (map (firstn 1) (map (skipn (cur_pos - 1)) (gen_output st1)))
              (Some c) use_cache (cur_pos - 1)) as [out|e]; cbn [bind] in Ha |- *;
    [|discriminate].
  destruct (mapM last_row (fst out)) as [lrows|e]; cbn [bind] in Ha |- *; [|discriminate].
  destruct (Req_dec_T 1 1) as [_|Hn]; [|exfalso; apply Hn; reflexivity].
  destruct (top_p_step top_p (map (map (fun x => x * inv_temp temperature)) lrows))
    as [fl|e]; cbn [bind] in Ha |- *; [|discriminate].
  injection Ha as <-. eexists. split; [reflexivity|].
  cbn [eos_reached active_mask past_key_values gen_output].
  repeat split.
  rewrite !(skipn_written_rows (cur_pos - 1) cur_pos) by lia.
  rewrite Hskip. reflexivity.
Qed.

(** X20. With [use_cache=False] (and [rp = 1]) [generate] forgets the
    history after the first step.  Every step stores a cache that is not
    [None] but holds [None] for every layer; so the next step feeds the
    model the last token alone, with no earlier keys: two states with
    such a cache that agree on the flags and on the buffer from column
    [cur_pos - 1] on take the same step, whatever the earlier tokens. *)
Theorem generate_without_cache_forgets_history
  (self : MiniMindLM) (multinomial : nat -> nat -> vec -> Z) (eos_token_id : Z)
  (temperature top_p : R) :
  (forall cur_pos st st',
      generate_step self multinomial eos_token_id temperature top_p 1 false cur_pos st
      = Ok st' ->
      exists B, past_key_values st'
                = Some (repeat (repeat None (length (layers self))) B))
  /\ (forall cur_pos B st1 st2 a,
         past_key_values st1 = Some (repeat (repeat None (length (layers self))) B) ->
         past_key_values st2 = Some (repeat (repeat None (length (layers self))) B) ->
         active_mask st1 = active_mask st2 ->
         eos_reached st1 = eos_reached st2 ->
         map (skipn (cur_pos - 1)) (gen_output st1)
         = map (skipn (cur_pos - 1)) (gen_output st2) ->
         generate_step self multinomial eos_token_id temperature top_p 1 false cur_pos st1
         = Ok a ->
         exists b,
           generate_step self multinomial eos_token_id temperature top_p 1 false cur_pos st2
           = Ok b
           /\ eos_reached a = eos_reached b
           /\ active_mask a = active_mask b
           /\ past_key_values a = past_key_values b
           /\ map (skipn (cur_pos - 1)) (gen_output a)
              = map (skipn (cur_pos - 1)) (gen_output b)).
Proof.
  split.
  - intros cur_pos st st' H. unfold generate_step in H.
    destruct (past_key_values st) as [c0|];
      (match type of H with
       | bind ?f _ = _ => destruct f as [out|e] eqn:E; cbn [bind] in H; [|discriminate]
       end);
      exists (length (fst out));
      apply MiniMindLM_forward_without_cache in E; rewrite <- E;
      (destruct (mapM last_row (fst out)); cbn [bind] in H; [|discriminate]);
      (match type of H with
       | bind ?t _ = _ => destruct t; cbn [bind] in H; [|discriminate]
       end);
      injection H as <-; reflexivity.
  - intros cur_pos B st1 st2 a Hp1 Hp2.
    apply (generate_step_reads_last_column self multinomial eos_token_id temperature top_p
             false cur_pos _ st1 st2 a Hp1 Hp2).
Qed.

Lemma MiniMindLM_forward1_none_cache (m : MiniMindLM) (toks : list Z) (uc : bool)
  (start : nat) :
  MiniMindLM_forward1 m toks (Some (repeat None (length (layers m)))) uc start
  = MiniMindLM_forward1 m toks None uc start.
Proof.
  unfold MiniMindLM_forward1. destruct (length (layers m)); reflexivity.
Qed.

Lemma generate_step_without_cache_returns
  (cfg : LMConfig) (m : MiniMindLM) (multinomial : nat -> nat -> vec -> Z)
  (eos_token_id : Z) (temperature : R) (cur_pos : nat) (st : GenerationState) (B T : nat) :
  model_ok cfg m ->
  Nat.even (dim cfg / n_heads cfg) = true ->
  Forall (fun r => Forall (valid_token (vocab_size cfg)) r /\ length r = T) (gen_output st) ->
  (1 <= cur_pos < T)%nat ->
  (cur_pos <= rope_end)%nat ->
  (1 <= model_max_length cfg)%nat ->
  past_key_values st = Some (repeat (repeat None (length (layers m))) B) ->
  exists a,
    generate_step m multinomial eos_token_id temperature 1 1 false cur_pos st = Ok a.
Proof.
  intros Hm Heven Hrows Hcur Hend HL Hpast.
  unfold generate_step. rewrite Hpast.
  assert (Hfwd : exists out,
             MiniMindLM_forward m
               (map (fun r => firstn 1 (skipn (cur_pos - 1) r)) (gen_output st))
               (Some (repeat (repeat None (length (layers m))) B)) false (cur_pos - 1)
             = Ok out
             /\ Forall (fun lg : list vec => length lg = 1%nat) (fst out)).
  { unfold MiniMindLM_forward.
    match goal with
    | |- exists _, bind (mapM ?f ?l) _ = _ /\ _ =>
        destruct (mapM_rows _ _ f (fun y => length (fst y) = 1%nat) l) as (outs & E & Houts)
    end.
    - apply Forall_forall. intros [r pr] Hin.
      pose proof (in_combine_l _ _ _ _ Hin) as Hr.
      pose proof (in_combine_r _ _ _ _ Hin) as Hp.
      apply in_map_iff in Hp. destruct Hp as (x & <- & Hx). apply repeat_spec in Hx. subst x.
      apply in_map_iff in Hr. destruct Hr as (r0 & <- & Hr0).
      destruct (proj1 (Forall_forall _ _) Hrows r0 Hr0) as [Hv Hl].
      rewrite MiniMindLM_forward1_none_cache.
      destruct (MiniMindLM_forward1_nocache_returns cfg m
                  (firstn 1 (skipn (cur_pos - 1) r0)) false (cur_pos - 1) Hm
                  ltac:(apply Forall_firstn, Forall_skipn; exact Hv) Heven)
        as (lg & kvs & E & Hlg & _).
      + rewrite length_firstn, length_skipn. lia.
      + rewrite length_firstn, length_skipn. lia.
      + eexists. split; [exact E|]. cbn [fst]. rewrite Hlg, length_firstn, length_skipn. lia.
    - rewrite E. cbn [bind]. eexists. split; [reflexivity|]. cbn [fst].
      apply Forall_forall. intros lg Hlg. apply in_map_iff in Hlg.
      destruct Hlg as (y & <- & Hy). apply (proj1 (Forall_forall _ _) Houts y Hy). }
  destruct Hfwd as (out & E & Hlg). rewrite E. cbn [bind].
  destruct (last_row_total _ 1 ltac:(lia) Hlg) as [lrows El]. rewrite El. cbn [bind].
  destruct (Req_dec_T 1 1) as [_|Hn]; [|exfalso; apply Hn; reflexivity].
  unfold top_p_step. destruct (Rlt_dec 1 1) as [Hlt|_]; [exfalso; lra|].
  cbn [bind]. eexists. reflexivity.
Qed.

Lemma generate_without_cache_forgets_history_witness :
  exists m a b,
    MiniMindLM_init (example_config 8) example_params = Ok m
    /\ generate_step m (fun cp i _ => constant_sampler cp i) 2 1 1 1 false 2
         (mkGenerationState [[1; 2; 0; 0]]%Z [true] [false]
            (Some (repeat (repeat None (length (layers m))) 1)) 0) = Ok a
    /\ generate_step m (fun cp i _ => constant_sampler cp i) 2 1 1 1 false 2
         (mkGenerationState [[3; 2; 0; 0]]%Z [true] [false]
            (Some (repeat (repeat None (length (layers m))) 1)) 0) = Ok b
    /\ map (skipn (2 - 1)) (gen_output a) = map (skipn (2 - 1)) (gen_output b).
Proof.
  destruct (example_init 8) as [m Hm].
  pose proof (example_model_ok 8 m Hm) as Hok.
  destruct (generate_step_without_cache_returns (example_config 8) m
              (fun cp i _ => constant_sampler cp i) 2 1 2
              (mkGenerationState [[1; 2; 0; 0]]%Z [true] [false]
                 (Some (repeat (repeat None (length (layers m))) 1)) 0) 1 4 Hok eq_refl
              ltac:(apply valid_rows_dec; reflexivity) ltac:(lia)
              ltac:(unfold rope_end; lia) ltac:(cbn; lia) eq_refl) as [a Ea].
  destruct (proj2 (generate_without_cache_forgets_history m
                     (fun cp i _ => constant_sampler cp i) 2 1 1)
              2%nat 1%nat
              (mkGenerationState [[1; 2; 0; 0]]%Z [true] [false]
                 (Some (repeat (repeat None (length (layers m))) 1)) 0)
              (mkGenerationState [[3; 2; 0; 0]]%Z [true] [false]
                 (Some (repeat (repeat None (length (layers m))) 1)) 0)
              a eq_refl eq_refl eq_refl eq_refl eq_refl Ea)
    as (b & Eb & _ & _ & _ & Hout).
  exists m, a, b. split; [exact Hm|]. split; [exact Ea|]. split; [exact Eb|exact Hout].
Defined.

(** ** RMSNorm *)

Lemma map2_ones_l (l : vec) (a d : nat) :
  (length l <= d)%nat -> map2 Rmult (map (fun _ => 1) (seq a d)) l = l.
Proof.
  revert a d; induction l as [|x l IH]; intros a d H; unfold map2 in *.
  - rewrite combine_nil. reflexivity.
  - destruct d as [|d]; [cbn in H; lia|].
    cbn [seq map combine fst snd]. rewrite Rmult_1_l. f_equal.
    apply IH. cbn in H. lia.
Qed.

Lemma Rsum_scaled_squares (c : R) (x : vec) :
  Rsum (map (fun v => v ^ 2) (map (fun v => v * c) x))
  = c ^ 2 * Rsum (map (fun v => v ^ 2) x).
Proof.
  unfold Rsum. induction x as [|v x IH]; cbn [map fold_right]; [ring|].
  rewrite IH. ring.
Qed.

Lemma Rsum_squares_nonneg (x : vec) : 0 <= Rsum (map (fun v => v ^ 2) x).
Proof.
  apply Rsum_nonneg. apply Forall_forall. intros q Hq. apply in_map_iff in Hq.
  destruct Hq as (v & <- & _). apply pow2_ge_0.
Qed.

(** X21. A freshly constructed [RMSNorm] (weight all ones) with
    [eps > 0] maps a non-empty vector with mean square [s] to a vector of
    the same length with mean square [s / (s + eps)], which is below 1. *)
Theorem RMSNorm_forward_mean_square (e : R) (x : vec) :
  0 < e ->
  x <> [] ->
  length (RMSNorm_forward (RMSNorm_init (length x) e (fun _ => 1)) x) = length x
  /\ mean (map (fun v => v ^ 2) (RMSNorm_forward (RMSNorm_init (length x) e (fun _ => 1)) x))
     = mean (map (fun v => v ^ 2) x) / (mean (map (fun v => v ^ 2) x) + e)
  /\ mean (map (fun v => v ^ 2) (RMSNorm_forward (RMSNorm_init (length x) e (fun _ => 1)) x))
     < 1.
Proof.
  intros He Hx. unfold RMSNorm_forward, RMSNorm_init. cbn [eps rms_weight].
  rewrite map2_ones_l by (rewrite length_map; lia).
  set (s := mean (map (fun v => v ^ 2) x)).
  assert (HN : 0 < INR (length x)).
  { apply lt_0_INR. destruct x; [contradiction|cbn; lia]. }
  assert (Hs : 0 <= s).
  { unfold s, mean. rewrite length_map.
    apply Rmult_le_pos; [apply Rsum_squares_nonneg|].
    left. apply Rinv_0_lt_compat. exact HN. }
  assert (Ht : 0 < s + e) by lra.
  assert (Hc : rsqrt (s + e) ^ 2 = / (s + e)).
  { unfold rsqrt. pose proof (sqrt_lt_R0 _ Ht) as Hq.
    pose proof (sqrt_sqrt (s + e) ltac:(lra)) as Hqq.
    replace ((1 / sqrt (s + e)) ^ 2) with (/ (sqrt (s + e) * sqrt (s + e)))
      by (field; lra).
    rewrite Hqq. reflexivity. }
  split; [apply length_map|].
  assert (E : mean (map (fun v => v ^ 2) (map (fun v => v * rsqrt (s + e)) x))
              = s / (s + e)).
  { unfold mean at 1. rewrite Rsum_scaled_squares, Hc, !length_map.
    unfold s, mean. rewrite length_map. fold s. unfold Rdiv. ring. }
  split; [exact E|].
  rewrite E. apply (Rmult_lt_reg_r (s + e)); [exact Ht|].
  unfold Rdiv. rewrite Rmult_assoc, Rinv_l by lra. lra.
Qed.

Lemma RMSNorm_forward_mean_square_witness :
  mean (map (fun v => v ^ 2) (RMSNorm_forward (RMSNorm_init 2 (/ 100000) (fun _ => 1)) [3; 4]))
  = mean (map (fun v => v ^ 2) [3; 4]) / (mean (map (fun v => v ^ 2) [3; 4]) + / 100000).
Proof.
  apply (RMSNorm_forward_mean_square (/ 100000) [3; 4]).
  - apply Rinv_0_lt_compat. lra.
  - discriminate.
Defined.

(** ** generate: an overlong prompt *)




(** ** generate: when it returns *)

Lemma update_nth_Forall (A : Type) (P : A -> Prop) (n : nat) (v : A) (l : list A) :
  P v -> Forall P l -> Forall P (update_nth n v l).
Proof.
  intros Hv H. revert n. induction H as [|x l Hx Hl IH]; intros [|n]; cbn [update_nth];
    constructor; auto.
Qed.

Lemma modify_nth_Forall (A : Type) (P : A -> Prop) (n : nat) (f : A -> A) (l : list A) :
  (forall x, P x -> P (f x)) -> Forall P l -> Forall P (modify_nth n f l).
Proof.
  intros Hf H. unfold modify_nth. destruct (nth_error l n) as [a|] eqn:E; [|exact H].
  apply update_nth_Forall; [|exact H]. apply Hf.
  apply (proj1 (Forall_forall _ _) H). apply (nth_error_In _ _ E).
Qed.

Lemma repetition_penalty_widths (f : R) (out : list (list Z)) (act : list bool)
  (cur_pos : nat) (logits : list vec) (V : nat) :
  Forall (fun row : vec => length row = V) logits ->
  Forall (fun row : vec => length row = V)
         (repetition_penalty f out act cur_pos logits).
Proof.
  unfold repetition_penalty.
  generalize (enumerate (map (fun p : list Z * bool => firstn cur_pos (fst p))
                           (filter (fun p => snd p) (combine out act)))) as l.
  intro l; revert logits; induction l as [|q t IH]; intros logits H; cbn [fold_left].
  - exact H.
  - apply IH. apply modify_nth_Forall; [|exact H].
    intros x Hx. unfold penalize. rewrite mapi_length. exact Hx.
Qed.

Lemma top_p_step_returns (top_p : R) (logits : list vec) :
  Forall (fun row : vec => row <> []) logits ->
  exists fl, top_p_step top_p logits = Ok fl /\ length fl = length logits.
Proof.
  intro H. unfold top_p_step. destruct (Rlt_dec top_p 1).
  - destruct (mapM_total _ _ (top_p_filter top_p) logits) as [fl E].
    + revert H. apply Forall_impl. intros row Hrow.
      destruct (top_p_filter_keeps_best top_p row Hrow) as (frow & _ & _ & E & _).
      exists frow. exact E.
    + exists fl. split; [exact E|]. apply (mapM_length _ _ _ _ _ E).
  - eexists. split; [reflexivity|]. apply length_map.
Qed.

Lemma MiniMindLM_forward_widths (m : MiniMindLM) (ids : list (list Z))
  (past : option (list (list (option (list (list vec) * list (list vec))))))
  (uc : bool) (start : nat) out :
  MiniMindLM_forward m ids past uc start = Ok out ->
  Forall (Forall (fun row : vec => length row = length (weight (output m)))) (fst out).
Proof.
  unfold MiniMindLM_forward. intro H.
  match type of H with
  | bind (mapM ?f ?l) _ = _ => destruct (mapM f l) as [outs|e] eqn:E
  end; cbn [bind] in H; [|discriminate].
  injection H as <-. cbn [fst]. apply mapM_Forall2 in E. clear - E.
  induction E as [|[r pr] [lg c] l l' Hxy _ IH]; cbn [map]; constructor; [|exact IH].
  apply MiniMindLM_forward1_inv in Hxy. apply Hxy.
Qed.

Lemma last_rows_widths (ls : list (list vec)) (rows : list vec) (V : nat) :
  Forall (Forall (fun row : vec => length row = V)) ls ->
  mapM last_row ls = Ok rows ->
  Forall (fun row : vec => length row = V) rows.
Proof.
  intros H E. apply mapM_Forall2 in E.
  induction E as [|lg r l l' Hlr _ IH]; constructor.
  - inversion H as [|? ? Hlg _]; subst. unfold last_row in Hlr.
    destruct (nth_error lg (length lg - 1)) as [r0|] eqn:En; [|discriminate].
    injection Hlr as <-. apply (proj1 (Forall_forall _ _) Hlg). apply (nth_error_In _ _ En).
  - apply IH. inversion H; assumption.
Qed.

Section GenerateReturns.

Variables (cfg : LMConfig) (p : ModelParams) (self : MiniMindLM).
Variable multinomial : nat -> nat -> vec -> Z.
Variables (eos_token_id : Z) (temperature top_p rp : R).
Variables (B T : nat).

Hypothesis Hinit : MiniMindLM_init cfg p = Ok self.
Hypothesis Hdrop : dropout cfg = DropoutEval.
Hypothesis Heven : Nat.even (dim cfg / n_heads cfg) = true.
Hypothesis Hsample : forall cur_pos i probs,
    valid_token (vocab_size cfg) (multinomial cur_pos i probs).
Hypothesis HL : (1 <= model_max_length cfg)%nat.

(** What the loop keeps true of its state. *)
Let state_ok (st : GenerationState) : Prop :=
  length (gen_output st) = B
  /\ length (active_mask st) = B
  /\ length (eos_reached st) = B
  /\ Forall (fun r => Forall (valid_token (vocab_size cfg)) r /\ length r = T) (gen_output st).

Let cache_ok (cur_pos : nat) (st : GenerationState) : Prop :=
  match past_key_values st with
  | None => (cur_pos <= model_max_length cfg)%nat
  | Some c => length c = B /\ cache_wf self c
  end.

Lemma generate_step_returns (cur_pos : nat) (st : GenerationState) :
  state_ok st -> cache_ok cur_pos st ->
  (1 <= cur_pos < T)%nat -> (cur_pos <= rope_end)%nat ->
  exists st',
    generate_step self multinomial eos_token_id temperature top_p rp true cur_pos st = Ok st'
    /\ state_ok st' /\ cache_ok (S cur_pos) st'.
Proof.
  intros (HB & Hact & Heos & Hrows) Hcache Hcur Hend.
  destruct (MiniMindLM_init_ok _ _ _ Hinit Hdrop) as [Hm _].
  destruct (MiniMindLM_init_fields _ _ _ Hinit) as (_ & _ & _ & _ & Hvoc & _).
  assert (HV : (1 <= vocab_size cfg)%nat).
  { pose proof (Hsample 0%nat 0%nat []) as Hv. unfold valid_token in Hv. lia. }
  unfold generate_step.
  set (inputs := match past_key_values st with
                 | None => (map (firstn cur_pos) (gen_output st), O)
                 | Some _ => (map (fun r => firstn 1 (skipn (cur_pos - 1) r)) (gen_output st),
                              (cur_pos - 1)%nat)
                 end).
  assert (Hfwd : exists out,
             MiniMindLM_forward self (fst inputs) (past_key_values st) true (snd inputs)
             = Ok out
             /\ (exists n, (1 <= n)%nat /\ Forall (fun lg : list vec => length lg = n) (fst out))
             /\ length (fst out) = B /\ length (snd out) = B
             /\ cache_wf self (snd out)).
  { unfold inputs, cache_ok in *. destruct (past_key_values st) as [c|] eqn:Ep; cbn [fst snd].
    - destruct Hcache as (Hc & Hwf).
      destruct (MiniMindLM_forward_returns cfg self
                  (map (fun r => firstn 1 (skipn (cur_pos - 1) r)) (gen_output st))
                  (Some c) (cur_pos - 1) 1 Hm Heven) as (out & E & Hlg & Hwf').
      + apply Forall_forall. intros r Hr. apply in_map_iff in Hr.
        destruct Hr as (r0 & <- & Hr0).
        destruct (proj1 (Forall_forall _ _) Hrows r0 Hr0) as [Hv Hl].
        split; [apply Forall_firstn, Forall_skipn; exact Hv|].
        rewrite length_firstn, length_skipn. lia.
      + lia.
      + exact HL.
      + rewrite length_map. repeat split; try assumption. lia.
      + exists out. split; [exact E|]. split; [exists 1%nat; split; [lia|exact Hlg]|].
        apply MiniMindLM_forward_length in E.
        * rewrite length_map in E. destruct E as [E1 E2].
          repeat split; try assumption; lia.
        * intros c0 [= <-]. rewrite length_map. lia.
    - destruct (MiniMindLM_forward_returns cfg self (map (firstn cur_pos) (gen_output st))
                  None 0 cur_pos Hm Heven) as (out & E & Hlg & Hwf').
      + apply Forall_forall. intros r Hr. apply in_map_iff in Hr.
        destruct Hr as (r0 & <- & Hr0).
        destruct (proj1 (Forall_forall _ _) Hrows r0 Hr0) as [Hv Hl].
        split; [apply Forall_firstn; exact Hv|].
        rewrite length_firstn. lia.
      + lia.
      + exact Hcache.
      + exact I.
      + exists out. split; [exact E|]. split; [exists cur_pos; split; [lia|exact Hlg]|].
        apply MiniMindLM_forward_length in E.
        * rewrite length_map in E. destruct E as [E1 E2].
          repeat split; try assumption; lia.
        * intros c0 [=]. }
  destruct Hfwd as (out & E & (n & Hn & Hlg) & Hl1 & Hl2 & Hwf).
  destruct inputs as [model_inputs start]. cbn [fst snd] in E.
  rewrite E. cbn [bind].
  pose proof (MiniMindLM_forward_widths _ _ _ _ _ _ E) as Hwid. rewrite Hvoc in Hwid.
  destruct (last_row_total _ _ Hn Hlg) as [lrows Erows].
  rewrite Erows. cbn [bind].
  pose proof (last_rows_widths _ _ _ Hwid Erows) as Hlw.
  apply mapM_length in Erows.
  set (scaled := map (map (fun x => x * inv_temp temperature)) lrows).
  assert (Hsw : Forall (fun row : vec => length row = vocab_size cfg) scaled).
  { unfold scaled. apply Forall_forall. intros row Hrow. apply in_map_iff in Hrow.
    destruct Hrow as (r0 & <- & Hr0). rewrite length_map.
    apply (proj1 (Forall_forall _ _) Hlw r0 Hr0). }
  set (pen := if Req_dec_T rp 1 then scaled
              else repetition_penalty (rp_factor rp) (gen_output st) (active_mask st)
                     cur_pos scaled).
  assert (Hpw : Forall (fun row : vec => length row = vocab_size cfg) pen).
  { unfold pen. destruct (Req_dec_T rp 1); [exact Hsw|].
    apply repetition_penalty_widths. exact Hsw. }
  assert (Hpl : length pen = B).
  { unfold pen, scaled.
    destruct (Req_dec_T rp 1); rewrite ?repetition_penalty_length, length_map; lia. }
  destruct (top_p_step_returns top_p pen) as (fl & Efl & Hfl).
  { revert Hpw. apply Forall_impl. intros row Hrow E0. rewrite E0 in Hrow. cbn in Hrow. lia. }
  rewrite Efl. cbn [bind].
  eexists. split; [reflexivity|].
  set (next := mapi (multinomial cur_pos) (map softmax fl)).
  assert (Hnext : length next = B).
  { unfold next. rewrite mapi_length, length_map. lia. }
  assert (Hnv : Forall (valid_token (vocab_size cfg)) next).
  { unfold next. apply Forall_forall. intros t Ht. apply In_nth_error in Ht.
    destruct Ht as [i Hi]. rewrite nth_error_mapi in Hi.
    destruct (nth_error (map softmax fl) i); [|discriminate].
    cbn in Hi. injection Hi as <-. apply Hsample. }
  split; [|unfold cache_ok; cbn [past_key_values]; split; assumption].
  unfold state_ok. cbn [gen_output active_mask eos_reached].
  rewrite !length_map, !length_combine, Hnext, HB, Hact, Heos.
  repeat split; try lia.
  apply Forall_forall. intros r Hr. apply in_map_iff in Hr.
  destruct Hr as ([r0 [a t]] & <- & Hin). cbn [fst snd].
  pose proof (in_combine_l _ _ _ _ Hin) as Hr0.
  pose proof (in_combine_r _ _ _ _ Hin) as Hat.
  apply in_combine_r in Hat.
  destruct (proj1 (Forall_forall _ _) Hrows r0 Hr0) as [Hv Hl].
  destruct a; [|split; assumption].
  split; [|rewrite update_nth_length; exact Hl].
  apply update_nth_Forall; [|exact Hv].
  apply (proj1 (Forall_forall _ _) Hnv t Hat).
Qed.

Lemma generate_loop_returns (n cur_pos : nat) (st : GenerationState) :
  state_ok st -> cache_ok cur_pos st ->
  (1 <= cur_pos)%nat -> (cur_pos + n <= T)%nat -> (cur_pos + n <= rope_end)%nat ->
  exists st',
    generate_loop self multinomial eos_token_id temperature top_p rp true (seq cur_pos n) st
    = Ok st'.
Proof.
  revert cur_pos st; induction n as [|n IH]; intros cur_pos st Hst Hc H1 HT Hend;
    cbn [seq generate_loop].
  - eexists. reflexivity.
  - destruct (negb (any (active_mask st))); [eexists; reflexivity|].
    destruct (generate_step_returns cur_pos st Hst Hc ltac:(lia) ltac:(lia))
      as (st1 & E & Hst1 & Hc1).
    rewrite E. cbn [bind].
    destruct (negb (any (active_mask st1))); [eexists; reflexivity|].
    apply (IH (S cur_pos) st1); try assumption; lia.
Qed.

End GenerateReturns.

(** X23. [generate] with the cache returns, it does not raise, when the
    model was constructed in evaluation mode with an even head dimension,
    the prompts are a rectangle of at least one and at most
    [model_max_length] valid tokens, [pad_token_id] is a valid token, the
    sampler draws valid tokens, and prompt plus new tokens fit the rotary
    table; the new tokens may run past [model_max_length]. *)
Theorem generate_returns
  (cfg : LMConfig) (p : ModelParams) (self : MiniMindLM)
  (multinomial : nat -> nat -> vec -> Z) (eos_token_id : Z)
  (temperature top_p rp : R) (input_ids : list (list Z)) (max_new_tokens : nat) (pad : Z) :
  MiniMindLM_init cfg p = Ok self ->
  dropout cfg = DropoutEval ->
  Nat.even (dim cfg / n_heads cfg) = true ->
  (forall cur_pos i probs, valid_token (vocab_size cfg) (multinomial cur_pos i probs)) ->
  Forall (fun r => Forall (valid_token (vocab_size cfg)) r /\ length r = size1 input_ids)
         input_ids ->
  valid_token (vocab_size cfg) pad ->
  (1 <= size1 input_ids <= model_max_length cfg)%nat ->
  (size1 input_ids + max_new_tokens <= rope_end)%nat ->
  rp <> 0 ->
  temperature + 1 / 10 ^ 9 <> 0 ->
  exists out,
    generate self multinomial eos_token_id temperature top_p rp true
      input_ids max_new_tokens pad = Ok out.
Proof.
  intros Hinit Hdrop Heven Hsample Hrows Hpad Hs Hend _ _.
  unfold generate, generate_state.
  destruct (generate_loop_returns cfg p self multinomial eos_token_id temperature top_p rp
              (length input_ids) (size1 input_ids + max_new_tokens) Hinit Hdrop Heven
              Hsample ltac:(lia) max_new_tokens (size1 input_ids)
              (generate_init input_ids max_new_tokens pad)) as [st E].
  - rewrite generate_init_output. cbn [generate_init active_mask eos_reached].
    rewrite length_map, !repeat_length. repeat split.
    apply Forall_forall. intros r Hr. apply in_map_iff in Hr. destruct Hr as (r0 & <- & Hr0).
    destruct (proj1 (Forall_forall _ _) Hrows r0 Hr0) as [Hv Hl].
    split.
    + apply Forall_app. split; [exact Hv|]. apply Forall_skipn.
      apply Forall_forall. intros t Ht. apply repeat_spec in Ht. subst t. exact Hpad.
    + rewrite length_app, length_skipn, repeat_length. lia.
  - cbn [generate_init past_key_values]. lia.
  - lia.
  - lia.
  - lia.
  - rewrite E. cbn [bind]. eexists. reflexivity.
Qed.

Lemma generate_returns_witness :
  exists m out,
    MiniMindLM_init (example_config 2) example_params = Ok m
    /\ generate m (fun cp i _ => constant_sampler cp i) 2 1 (1 / 2) 2 true
         [[1; 2]; [0; 1]]%Z 3 0 = Ok out.
Proof.
  destruct (example_init 2) as [m Hm].
  destruct (generate_returns (example_config 2) example_params m
              (fun cp i _ => constant_sampler cp i) 2 1 (1 / 2) 2
              [[1; 2]; [0; 1]]%Z 3 0%Z Hm eq_refl eq_refl) as [out E].
  - intros cur_pos i probs. unfold valid_token, constant_sampler. cbn. lia.
  - apply valid_rows_dec. reflexivity.
  - unfold valid_token. cbn. lia.
  - cbn. lia.
  - unfold rope_end. cbn [size1 length]. lia.
  - lra.
  - lra.
  - exists m, out. split; [exact Hm|exact E].
Defined.

(** ** The forward pass without a cache: the start position *)

Lemma flat_map_repeat_map (A B : Type) (f : A -> B) (l : list A) (n : nat) :
  flat_map (fun h => repeat h n) (map f l) = map f (flat_map (fun h => repeat h n) l).
Proof.
  induction l as [|a l IH]; cbn [map flat_map]; [reflexivity|].
  rewrite map_app, map_repeat, IH. reflexivity.
Qed.

Lemma nth_rotated_head (p : list (R * R)) (heads : list vec) (h : nat) :
  nth h (map (rotate p) heads) [] = rotate p (nth h heads []).
Proof.
  exact (map_nth (rotate p) heads [] h).
Qed.

(** The keys of head [h] after [repeat_kv]: the unrotated head vector of
    every position, rotated by that position's row of the table. *)
Lemma repeated_key_heads (a : Attention) (xs : list vec) (ps : list (list (R * R)))
  (h : nat) :
  map (fun hs : list vec => nth h hs [])
      (repeat_kv (map2 (fun xr p => k_row a p xr) xs ps) (n_rep a))
  = map2 (fun xr p =>
            rotate p (nth h (if (n_rep a =? 1)%nat
                             then view_heads (n_local_kv_heads a) (head_dim a)
                                    (Linear_forward (wk a) xr)
                             else flat_map (fun v => repeat v (n_rep a))
                                    (view_heads (n_local_kv_heads a) (head_dim a)
                                       (Linear_forward (wk a) xr))) []))
         xs ps.
Proof.
  unfold repeat_kv, k_row.
  destruct (n_rep a =? 1)%nat.
  - rewrite map_map2. unfold map2. apply map_ext. intros [xr p]. cbn [fst snd].
    apply nth_rotated_head.
  - rewrite map_map, map_map2. unfold map2. apply map_ext. intros [xr p]. cbn [fst snd].
    rewrite flat_map_repeat_map. apply nth_rotated_head.
Qed.

Lemma head_out_scores (hd : nat) (q q' : vec) (Kh Kh' Vh : list vec) (mrow : list ereal) :
  map (fun k => dot q k / sqrt (INR hd)) Kh = map (fun k => dot q' k / sqrt (INR hd)) Kh' ->
  head_out hd q Kh Vh mrow = head_out hd q' Kh' Vh mrow.
Proof.
  intro H. unfold head_out. rewrite H. reflexivity.
Qed.

Section TableOffset.

Variables (pcA pcB : list (list (R * R))) (n : nat).

Hypothesis HA : length pcA = n.
Hypothesis HB : length pcB = n.
Hypothesis Hrel : forall i j q k, (i < n)%nat -> (j < n)%nat ->
    dot (rotate (nth i pcA []) q) (rotate (nth j pcA []) k)
    = dot (rotate (nth i pcB []) q) (rotate (nth j pcB []) k).

Lemma attn_pure_offset (a : Attention) (x : list vec) :
  length x = n -> attn_pure a pcA x = attn_pure a pcB x.
Proof.
  intro Hx. unfold attn_pure, attn_kv. cbn [fst snd]. f_equal.
  apply map_ext_in. intros i Hi. apply in_seq in Hi.
  unfold causal_row, attn_row. f_equal. apply map_ext. intro h.
  apply head_out_scores.
  rewrite !map2_firstn, !repeated_key_heads, !map_map2.
  rewrite !(nth_map2_lt _ _ _ _ [] [] []) by lia.
  unfold q_row. rewrite !nth_rotated_head.
  rewrite (map2_as_seq _ (firstn (S i) x) (firstn (S i) pcA) (S i) [] [])
    by (rewrite length_firstn; lia).
  rewrite (map2_as_seq _ (firstn (S i) x) (firstn (S i) pcB) (S i) [] [])
    by (rewrite length_firstn; lia).
  apply map_ext_in. intros j Hj. apply in_seq in Hj.
  rewrite !nth_firstn.
  destruct (Nat.ltb_spec j (S i)) as [_|]; [|lia].
  f_equal. apply Hrel; lia.
Qed.

Lemma block_pure_offset (b : MiniMindBlock) (x : list vec) :
  length x = n -> block_pure b pcA x = block_pure b pcB x.
Proof.
  intro Hx. unfold block_pure.
  rewrite attn_pure_offset by (rewrite length_map; exact Hx). reflexivity.
Qed.

Lemma stack_pure_offset (ls : list MiniMindBlock) (x : list vec) :
  length x = n -> stack_pure ls pcA x = stack_pure ls pcB x.
Proof.
  revert x; induction ls as [|l r IH]; intros x Hx; cbn [stack_pure]; [reflexivity|].
  rewrite block_pure_offset by exact Hx.
  apply IH. rewrite block_pure_length. exact Hx.
Qed.

End TableOffset.

Lemma pos_cis_slice_offset (d e : nat) (theta : R) (s n i j : nat) (q k : vec) :
  (s + n <= e)%nat -> (i < n)%nat -> (j < n)%nat ->
  dot (rotate (nth i (firstn n (skipn s (precompute_pos_cis d e theta))) []) q)
      (rotate (nth j (firstn n (skipn s (precompute_pos_cis d e theta))) []) k)
  = dot (rotate (nth i (firstn n (skipn 0 (precompute_pos_cis d e theta))) []) q)
        (rotate (nth j (firstn n (skipn 0 (precompute_pos_cis d e theta))) []) k).
Proof.
  intros He Hi Hj. rewrite !nth_firstn.
  destruct (Nat.ltb_spec i n) as [_|]; [|lia].
  destruct (Nat.ltb_spec j n) as [_|]; [|lia].
  rewrite !nth_skipn. cbn [Nat.add].
  rewrite !pos_cis_row by lia.
  apply rotate_dot_offset. rewrite !plus_INR. ring.
Qed.

(** X25. Without a cache the logits do not depend on [start_pos]: the
    scores see positions only through differences, so a pass over valid
    tokens at positions [start_pos ..] returns the same logits as the pass
    at positions [0 ..] (dropout disabled, even positive head dimension,
    between one and [model_max_length] tokens, positions inside the rotary
    table). *)
Theorem forward_without_cache_ignores_start_pos
  (cfg : LMConfig) (p : ModelParams) (m : MiniMindLM) (toks : list Z) (uc : bool)
  (start : nat) :
  MiniMindLM_init cfg p = Ok m ->
  dropout cfg = DropoutEval ->
  Nat.even (dim cfg / n_heads cfg) = true ->
  (0 < dim cfg / n_heads cfg)%nat ->
  toks <> [] ->
  Forall (valid_token (vocab_size cfg)) toks ->
  (start + length toks <= rope_end)%nat ->
  (length toks <= model_max_length cfg)%nat ->
  exists logits c c',
    MiniMindLM_forward1 m toks None uc start = Ok (logits, c)
    /\ MiniMindLM_forward1 m toks None uc 0 = Ok (logits, c').
Proof.
  intros Hinit Hdrop Heven _ _ Hvalid Hend HL.
  destruct (MiniMindLM_init_ok _ _ _ Hinit Hdrop) as [Hm _].
  pose proof Hm as (_ & _ & Hemb & Htbl & _).
  destruct (embeddings_valid (tok_embeddings m) toks) as [h Hh].
  { rewrite Hemb. exact Hvalid. }
  pose proof (mapM_length _ _ _ _ _ Hh) as Hhl.
  assert (Htab : exists d theta, pos_cis m = precompute_pos_cis d rope_end theta).
  { unfold MiniMindLM_init in Hinit.
    destruct (init_layers _ _ _) as [[ls c0]|e]; cbn [bind] in Hinit; [|discriminate].
    destruct (n_heads c0 =? 0)%nat; [discriminate|].
    injection Hinit as <-. cbn [pos_cis]. eexists. eexists. reflexivity. }
  destruct Htab as (d & theta & Htab).
  rewrite (MiniMindLM_forward1_nocache cfg m toks h uc start Hm Hh) by (intros; auto).
  rewrite (MiniMindLM_forward1_nocache cfg m toks h uc 0 Hm Hh)
    by (intros; try split; auto; cbn [Nat.add]; lia).
  rewrite (stack_pure_offset
             (firstn (length toks) (skipn start (pos_cis m)))
             (firstn (length toks) (skipn 0 (pos_cis m))) (length toks)).
  - eexists. eexists. eexists. split; reflexivity.
  - rewrite length_firstn, length_skipn, Htbl. lia.
  - rewrite length_firstn, length_skipn, Htbl. lia.
  - intros i j q k Hi Hj. rewrite Htab. apply pos_cis_slice_offset; assumption.
  - exact Hhl.
Qed.

Lemma forward_without_cache_ignores_start_pos_witness :
  exists m logits c c',
    MiniMindLM_init (example_config 8) example_params = Ok m
    /\ MiniMindLM_forward1 m [1; 2; 3]%Z None true 5 = Ok (logits, c)
    /\ MiniMindLM_forward1 m [1; 2; 3]%Z None true 0 = Ok (logits, c').
Proof.
  destruct (example_init 8) as [m Hm].
  destruct (forward_without_cache_ignores_start_pos (example_config 8) example_params m
              [1; 2; 3]%Z true 5 Hm eq_refl eq_refl)
    as (logits & c & c' & E1 & E2).
  - cbn. lia.
  - discriminate.
  - exact (example_tokens_valid [1; 2; 3]%Z eq_refl).
  - unfold rope_end. cbn [length Nat.add]. lia.
  - cbn. lia.
  - exists m, logits, c, c'. split; [exact Hm|]. split; [exact E1|exact E2].
Defined.
